(** * Investment simulator: the financial projection engine of [app.js]

    The engine is three functions, [calculateNetAnnualReturn],
    [calculateMonthlyRate] and [generateMonthlySeries]; [validateInputs]
    decides which inputs reach it.  They compute on JavaScript numbers.  The
    program text is embedded once, over an interface [JSNumber] that names
    the operations the text uses ([+], [*], [<=], [Math.pow],
    [Number.isFinite], ...), and the interface is then read in two ways:

    - [binary64]: IEEE 754 double precision, the arithmetic the program runs
      on, through the kernel's primitive floats.  [Math.pow] is a parameter of
      this reading, since ECMAScript fixes its value only on a table of
      special cases ([exponentiate_special]) and leaves the rest
      implementation-approximated;
    - [exact]: the real numbers, the arithmetic the specification speaks in.

    A statement proved for every [JSNumber] holds in both readings.

    The UI layer of the script (the table and its pages, the submit, clear,
    export and save handlers, the chart, the stored theme) and its quick
    tests are embedded in binary64, as functions on a record of the [state]
    object, the elements the handlers write and the storage.  What only the
    page's HTML or the browser's number parsing fixes is left out:
    [parseFormValues] and [restoreParameters]. *)

From Stdlib Require Import ZArith List Bool Lia.
From Stdlib Require Import Floats Uint63.
From Stdlib Require Import Reals Lra.
From Stdlib Require String Ascii.
Import String.StringSyntax.
Import ListNotations.

Delimit Scope string_scope with string.

Set Warnings "-inexact-float".

(** ** The number interface *)

Class JSNumber (num : Type) : Type := {
  js_lit : Z -> num;                 (* an integer literal: 0, 1, 12, 100, -1 *)
  js_1em12 : num;                    (* the literal 1e-12 *)
  js_add : num -> num -> num;
  js_sub : num -> num -> num;
  js_mul : num -> num -> num;
  js_div : num -> num -> num;
  js_le : num -> num -> bool;        (* <= *)
  js_lt : num -> num -> bool;        (* < *)
  js_eq : num -> num -> bool;        (* === on numbers *)
  Math_pow : num -> num -> num;
  Math_abs : num -> num;
  Math_round : num -> num;
  Number_isFinite : num -> bool;
  Number_isInteger : num -> bool
}.

Declare Scope js_scope.
Delimit Scope js_scope with js.
Notation "# z" := (js_lit z%Z) (at level 1, z at level 0, format "# z") : js_scope.
Infix "+" := js_add : js_scope.
Infix "-" := js_sub : js_scope.
Infix "*" := js_mul : js_scope.
Infix "/" := js_div : js_scope.
Infix "<=?" := js_le : js_scope.
Infix "<?" := js_lt : js_scope.
Notation "x === y" := (js_eq x y) (at level 70, no associativity) : js_scope.
Notation "x !== y" := (negb (js_eq x y)) (at level 70, no associativity) : js_scope.

(** ** Data *)

(** The [params] object of [generateMonthlySeries]. *)
Record Params (num : Type) : Type := mkParams {
  initialCapital : num;
  monthlyContribution : num;
  grossAnnualReturn : num;
  annualFee : num;
  annualInflation : num;
  years : num
}.

(** One object pushed on [series]. *)
Record Entry (num : Type) : Type := mkEntry {
  month : num;
  totalContributed : num;
  interestAccumulated : num;
  totalValue : num
}.

(** The [summary] object.  Its key [totalContributed] holds the local
    [totalContributions]; the field keeps the local's name, the key's name
    being taken by [Entry]. *)
Record Summary (num : Type) : Type := mkSummary {
  netAnnualRate : num;
  monthlyRate : num;
  totalMonths : num;
  futureValue : num;
  futureValueReal : num;
  totalContributions : num;
  totalGrowth : num
}.

Record Result (num : Type) : Type := mkResult {
  series : list (Entry num);
  summary : Summary num
}.

(** The keys of the [errors] object of [validateInputs]. *)
Inductive ErrorKey : Type :=
  | errInitialCapital
  | errMonthlyContribution
  | errGrossReturn
  | errAnnualFee
  | errInflation
  | errYears.

Arguments mkParams {num}.
Arguments initialCapital {num}.
Arguments monthlyContribution {num}.
Arguments grossAnnualReturn {num}.
Arguments annualFee {num}.
Arguments annualInflation {num}.
Arguments years {num}.
Arguments mkEntry {num}.
Arguments month {num}.
Arguments totalContributed {num}.
Arguments interestAccumulated {num}.
Arguments totalValue {num}.
Arguments mkSummary {num}.
Arguments netAnnualRate {num}.
Arguments monthlyRate {num}.
Arguments totalMonths {num}.
Arguments futureValue {num}.
Arguments futureValueReal {num}.
Arguments totalContributions {num}.
Arguments totalGrowth {num}.
Arguments mkResult {num}.
Arguments series {num}.
Arguments summary {num}.

(** ** The program *)

Section Program.
Context {num : Type} {JS : JSNumber num}.
Local Open Scope js_scope.

Definition calculateNetAnnualReturn (grossAnnualRate annualFeeRate : num) : num :=
  let grossFactor := #1 + grossAnnualRate / #100 in
  let feeFactor := #1 - annualFeeRate / #100 in
  grossFactor * feeFactor - #1.

Definition calculateMonthlyRate (netAnnualRate : num) : num :=
  let base := #1 + netAnnualRate in
  if base <=? #0 then #(-1)
  else Math_pow base (#1 / #12) - #1.

(** The balance after one more month: [balance *= 1 + monthlyRate] unless the
    rate is zero, then [balance += monthlyContribution]. *)
Definition nextBalance (monthlyRate monthlyContribution balance : num) : num :=
  let balance := if monthlyRate !== #0 then balance * (#1 + monthlyRate) else balance in
  balance + monthlyContribution.

(** The [for] statement of [generateMonthlySeries], one unfolding per test of
    [month <= totalMonths]; the state is [month], [balance],
    [totalContributed] and the array [series].  [None]: the fuel ran out
    before the test failed. *)
Fixpoint forLoop (monthlyRate monthlyContribution totalMonths : num) (fuel : nat)
    (month balance totalContributed : num) (series : list (Entry num))
    : option (list (Entry num)) :=
  match fuel with
  | O => None
  | S fuel' =>
      if month <=? totalMonths then
        let balance := nextBalance monthlyRate monthlyContribution balance in
        let totalContributed := totalContributed + monthlyContribution in
        let interestAccumulated := balance - totalContributed in
        forLoop monthlyRate monthlyContribution totalMonths fuel'
          (month + #1) balance totalContributed
          (series ++ [mkEntry month totalContributed interestAccumulated balance])
      else Some series
  end.

(** [series.length > 0 ? series[series.length - 1].totalValue : initialCapital] *)
Definition lastTotalValueOr (series : list (Entry num)) (initialCapital : num) : num :=
  if (0 <? length series)%nat then
    match nth_error series (length series - 1) with
    | Some e => totalValue e
    | None => initialCapital
    end
  else initialCapital.

(** The statements of [generateMonthlySeries] after the loop. *)
Definition summarize (params : Params num) (netAnnualRate monthlyRate totalMonths : num)
    (series : list (Entry num)) : Summary num :=
  let initialCapital := initialCapital params in
  let monthlyContribution := monthlyContribution params in
  let growthFactor := Math_pow (#1 + monthlyRate) totalMonths in
  let futureValueFormula :=
    if Math_abs monthlyRate <? js_1em12
    then initialCapital + monthlyContribution * totalMonths
    else initialCapital * growthFactor
         + monthlyContribution * ((growthFactor - #1) / monthlyRate) in
  let futureValue :=
    if Number_isFinite futureValueFormula then futureValueFormula
    else lastTotalValueOr series initialCapital in
  let totalContributions := initialCapital + monthlyContribution * totalMonths in
  let totalGrowth := futureValue - totalContributions in
  let inflationFactor := Math_pow (#1 + annualInflation params / #100) (years params) in
  let futureValueReal :=
    if inflationFactor !== #0 then futureValue / inflationFactor else futureValue in
  mkSummary netAnnualRate monthlyRate totalMonths futureValue futureValueReal
            totalContributions totalGrowth.

Definition generateMonthlySeries (fuel : nat) (params : Params num) : option (Result num) :=
  let netAnnualRate :=
    calculateNetAnnualReturn (grossAnnualReturn params) (annualFee params) in
  let monthlyRate := calculateMonthlyRate netAnnualRate in
  let totalMonths := Math_round (years params * #12) in
  match forLoop monthlyRate (monthlyContribution params) totalMonths fuel
                #1 (initialCapital params) (initialCapital params) [] with
  | None => None
  | Some series =>
      Some (mkResult series (summarize params netAnnualRate monthlyRate totalMonths series))
  end.

(** [validateInputs] builds an object with one message per rejected field;
    the model keeps the keys that get set, in the order they are set (the
    messages are display text). *)
Definition validateInputs (values : Params num) : list ErrorKey :=
  let errors := [] in
  let errors :=
    if negb (Number_isFinite (initialCapital values)) || (initialCapital values <? #0)
    then errors ++ [errInitialCapital] else errors in
  let errors :=
    if negb (Number_isFinite (monthlyContribution values))
       || (monthlyContribution values <? #0)
    then errors ++ [errMonthlyContribution] else errors in
  let errors :=
    if negb (Number_isFinite (grossAnnualReturn values))
    then errors ++ [errGrossReturn] else errors in
  let errors :=
    if negb (Number_isFinite (annualFee values)) || (annualFee values <? #0)
    then errors ++ [errAnnualFee] else errors in
  let errors :=
    if negb (Number_isFinite (annualInflation values)) || (annualInflation values <? #0)
    then errors ++ [errInflation] else errors in
  let errors :=
    if negb (Number_isFinite (years values)) || (years values <? #1)
       || (#50 <? years values) || negb (Number_isInteger (years values))
    then errors ++ [errYears] else errors in
  errors.

End Program.

(** ** Reading 1: IEEE 754 binary64 *)

Module B64.
Local Open Scope float_scope.

(** An integer literal of the program text (all are below 2^53, so exact). *)
Definition float_of_Z (z : Z) : float :=
  match z with
  | Z0 => 0
  | Zpos _ => of_uint63 (Uint63.of_Z z)
  | Zneg p => - of_uint63 (Uint63.of_Z (Zpos p))
  end.

(** [Number.isFinite] on a number: neither NaN nor an infinity. *)
Definition isFinite (x : float) : bool := negb (is_nan x || is_infinity x).

Definition two52 : float := 4503599627370496.

(** The integer part of [|x|] for [|x| < 2^52]: adding and removing 2^52
    rounds [|x|] to an integer, which is then corrected downwards. *)
Definition floor_abs (x : float) : float :=
  let a := abs x in
  let t := (a + two52) - two52 in
  if a <? t then t - 1 else t.

(** [Math.round]: an integral or non-finite argument is returned as it is;
    otherwise the nearest integer, a tie going towards +Infinity, and a
    result of zero keeping the sign of the argument. *)
Definition round_half_up (x : float) : float :=
  if negb (isFinite x) then x
  else if two52 <=? abs x then x
  else if x =? 0 then x
  else
    let f := floor_abs x in
    let frac := abs x - f in
    if 0 <? x then (if 0.5 <=? frac then f + 1 else f)
    else (if 0.5 <? frac then - (f + 1) else - f).

Definition is_integral (x : float) : bool := isFinite x && (round_half_up x =? x).

Definition is_odd_integral (x : float) : bool :=
  is_integral x && negb (is_integral (x / 2)).

(** The cases of ECMAScript's Number::exponentiate(base, exponent) that fix
    the result exactly (its steps 1 to 12, in order); [None] is the last step,
    "an implementation-approximated Number value". *)
Definition exponentiate_special (base exponent : float) : option float :=
  if is_nan exponent then Some nan
  else if exponent =? 0 then Some 1
  else match classify base with
  | NaN => Some nan
  | PInf => Some (if 0 <? exponent then infinity else 0)
  | NInf =>
      Some (if 0 <? exponent
            then (if is_odd_integral exponent then neg_infinity else infinity)
            else (if is_odd_integral exponent then -0 else 0))
  | PZero => Some (if 0 <? exponent then 0 else infinity)
  | NZero =>
      Some (if 0 <? exponent
            then (if is_odd_integral exponent then -0 else 0)
            else (if is_odd_integral exponent then neg_infinity else infinity))
  | _ =>
      if exponent =? infinity then
        Some (if 1 <? abs base then infinity else if abs base =? 1 then nan else 0)
      else if exponent =? neg_infinity then
        Some (if 1 <? abs base then 0 else if abs base =? 1 then nan else infinity)
      else if (base <? 0) && negb (is_integral exponent) then Some nan
      else None
  end.

(** What ECMAScript requires of a [Math.pow]. *)
Definition conforms_to_ES (pow : float -> float -> float) : Prop :=
  forall base exponent v, exponentiate_special base exponent = Some v -> pow base exponent = v.

(** [Number.isInteger]: a finite number whose value m * 2^e is whole. *)
Definition isInteger (x : float) : bool :=
  match Prim2SF x with
  | S754_zero _ => true
  | S754_finite _ m e => (0 <=? e)%Z || (Z.pos m mod 2 ^ (- e) =? 0)%Z
  | _ => false
  end.

(** The reading itself, for a given [Math.pow]. *)
Definition binary64 (pow : float -> float -> float) : JSNumber float := {|
  js_lit := float_of_Z;
  js_1em12 := 1e-12;
  js_add := PrimFloat.add;
  js_sub := PrimFloat.sub;
  js_mul := PrimFloat.mul;
  js_div := PrimFloat.div;
  js_le := PrimFloat.leb;
  js_lt := PrimFloat.ltb;
  js_eq := PrimFloat.eqb;
  Math_pow := pow;
  Math_abs := PrimFloat.abs;
  Math_round := round_half_up;
  Number_isFinite := isFinite;
  Number_isInteger := isInteger
|}.

(** *** One conforming [Math.pow], to run the program on examples

    The approximated case is computed as exp(exponent * ln |base|), negated
    for a negative base and an odd exponent; nothing is claimed about its
    accuracy, and no theorem below depends on it. *)

Definition Z_of_float (x : float) : Z :=
  match Prim2SF x with
  | S754_finite s m e =>
      let v := if (0 <=? e)%Z then Z.shiftl (Zpos m) e else Z.shiftr (Zpos m) (- e) in
      if s then (- v)%Z else v
  | _ => 0%Z
  end.

Definition ln2 : float := 0x1.62e42fefa39efp-1.

(** 1 + z2/3 + z2^2/5 + ... (n terms from index k), by Horner's rule. *)
Fixpoint atanh_series (n : nat) (k : Z) (z2 : float) : float :=
  match n with
  | O => 0
  | S n' => 1 / float_of_Z (2 * k + 1) + z2 * atanh_series n' (k + 1) z2
  end.

Definition approx_ln (x : float) : float :=
  let (m, e) := Z.frexp x in
  let '(m, e) := if m <? 0x1.6a09e667f3bcdp-1 then (2 * m, (e - 1)%Z) else (m, e) in
  let z := (m - 1) / (m + 1) in
  float_of_Z e * ln2 + 2 * z * atanh_series 14 0 (z * z).

(** 1 + r/k (1 + r/(k+1) (1 + ...)) with n factors. *)
Fixpoint exp_series (n : nat) (k : Z) (r : float) : float :=
  match n with
  | O => 1
  | S n' => 1 + r / float_of_Z k * exp_series n' (k + 1) r
  end.

Definition approx_exp (y : float) : float :=
  let k := round_half_up (y / ln2) in
  let r := y - k * ln2 in
  Z.ldexp (exp_series 18 1 r) (Z_of_float k).

Definition reference_pow (base exponent : float) : float :=
  match exponentiate_special base exponent with
  | Some v => v
  | None =>
      let r := approx_exp (exponent * approx_ln (abs base)) in
      if (base <? 0) && is_odd_integral exponent then - r else r
  end.

(** A [Math.pow] that returns the values ECMAScript fixes and [v] wherever
    ECMAScript leaves the value implementation-approximated. *)
Definition constant_pow (v base exponent : float) : float :=
  match exponentiate_special base exponent with
  | Some w => w
  | None => v
  end.

End B64.

(** ** Reading 2: exact real arithmetic *)

Module Exact.
Local Open Scope R_scope.

Definition Rleb (a b : R) : bool := if Rle_dec a b then true else false.
Definition Rltb (a b : R) : bool := if Rlt_dec a b then true else false.
Definition Reqb (a b : R) : bool := if Req_dec_T a b then true else false.

(** [Math.round]: floor(x + 1/2). *)
Definition Rround (x : R) : R := IZR (Int_part (x + / 2)).

(** [Number.isInteger]: the number is its own integer part. *)
Definition Rinteger (x : R) : bool := Reqb x (IZR (Int_part x)).

(** [Math.pow] where the real numbers have its value: [base^0 = 1], a
    positive base, [0^exponent = 0] for a positive exponent, and a negative
    base with a whole exponent.  Elsewhere JavaScript answers NaN or an
    infinity; the reals have no such value and the model answers 0.  The
    theorems below use [Math.pow] with a base that is not negative and, at
    base 0, an exponent that is not negative ([calculateMonthlyRate] guards
    its call with [base <= 0]). *)
Definition Rpow (base exponent : R) : R :=
  if Req_dec_T exponent 0 then 1
  else if Rlt_dec 0 base then Rpower base exponent
  else if Req_dec_T base 0 then 0
  else if Rinteger exponent then powerRZ base (Int_part exponent)
  else 0.

Definition exact : JSNumber R := {|
  js_lit := IZR;
  js_1em12 := / 10 ^ 12;
  js_add := Rplus;
  js_sub := Rminus;
  js_mul := Rmult;
  js_div := Rdiv;
  js_le := Rleb;
  js_lt := Rltb;
  js_eq := Reqb;
  Math_pow := Rpow;
  Math_abs := Rabs;
  Math_round := Rround;
  Number_isFinite := fun _ => true;
  Number_isInteger := Rinteger
|}.

End Exact.

(** ** Specification-side definitions *)

Section Specification.
Context {num : Type} {JS : JSNumber num}.
Local Open Scope js_scope.

(** The recurrence in the specification's words: the balance starts at the
    initial capital and each month is multiplied by (1 + monthlyRate), then
    the contribution is added. *)
Fixpoint balanceAfter (initialCapital monthlyContribution monthlyRate : num) (m : nat) : num :=
  match m with
  | O => initialCapital
  | S k => balanceAfter initialCapital monthlyContribution monthlyRate k * (#1 + monthlyRate)
           + monthlyContribution
  end.

Fixpoint contributedAfter (initialCapital monthlyContribution : num) (m : nat) : num :=
  match m with
  | O => initialCapital
  | S k => contributedAfter initialCapital monthlyContribution k + monthlyContribution
  end.

Definition entryOfMonth (initialCapital monthlyContribution monthlyRate : num) (m : nat)
    : Entry num :=
  let balance := balanceAfter initialCapital monthlyContribution monthlyRate m in
  let contributed := contributedAfter initialCapital monthlyContribution m in
  mkEntry #(Z.of_nat m) contributed (balance - contributed) balance.

Definition seriesOfMonths (initialCapital monthlyContribution monthlyRate : num) (n : nat)
    : list (Entry num) :=
  map (entryOfMonth initialCapital monthlyContribution monthlyRate) (seq 1 n).

(** The closed form of the specification (ordinary annuity). *)
Definition closedFormFutureValue (initialCapital monthlyContribution monthlyRate totalMonths : num)
    : num :=
  if Math_abs monthlyRate <? js_1em12
  then initialCapital + monthlyContribution * totalMonths
  else initialCapital * Math_pow (#1 + monthlyRate) totalMonths
       + monthlyContribution * ((Math_pow (#1 + monthlyRate) totalMonths - #1) / monthlyRate).

(** The monthly rate the program derives from the parameters. *)
Definition rateOf (params : Params num) : num :=
  calculateMonthlyRate
    (calculateNetAnnualReturn (grossAnnualReturn params) (annualFee params)).

(** The closed form at the values the program derives from the parameters. *)
Definition closedFormOf (params : Params num) : num :=
  closedFormFutureValue (initialCapital params) (monthlyContribution params)
    (rateOf params) (Math_round (years params * #12)).

Definition inflationFactorOf (params : Params num) : num :=
  Math_pow (#1 + annualInflation params / #100) (years params).

(** What [validateInputs] accepts, in the specification's words: finite,
    non-negative capital, contribution, fee and inflation, a finite gross
    return, and a whole number of years from 1 to 50. *)
Definition finite_nonneg (v : num) : Prop :=
  Number_isFinite v = true /\ (v <? #0) = false.

(** The test [validateInputs] makes on [years], passed. *)
Definition yearsAccepted (y : num) : bool :=
  Number_isFinite y && negb (y <? #1) && negb (#50 <? y) && Number_isInteger y.

Definition valid_input (params : Params num) : Prop :=
  finite_nonneg (initialCapital params) /\
  finite_nonneg (monthlyContribution params) /\
  Number_isFinite (grossAnnualReturn params) = true /\
  finite_nonneg (annualFee params) /\
  finite_nonneg (annualInflation params) /\
  exists y : Z, (1 <= y <= 50)%Z /\ years params = #y.

(** The values [month] takes in the loop: [month], [month + 1], ... while
    [month <= totalMonths]. *)
Fixpoint monthsFrom (totalMonths : num) (fuel : nat) (month : num) : option (list num) :=
  match fuel with
  | O => None
  | S fuel' =>
      if month <=? totalMonths
      then option_map (cons month) (monthsFrom totalMonths fuel' (month + #1))
      else Some []
  end.

(** The entries pushed along a list of months, by the loop's own step. *)
Fixpoint entriesFrom (monthlyRate monthlyContribution : num) (months : list num)
    (balance totalContributed : num) : list (Entry num) :=
  match months with
  | [] => []
  | m :: months' =>
      let balance := nextBalance monthlyRate monthlyContribution balance in
      let totalContributed := totalContributed + monthlyContribution in
      mkEntry m totalContributed (balance - totalContributed) balance
      :: entriesFrom monthlyRate monthlyContribution months' balance totalContributed
  end.

(** When multiplying by [1 + rate] changes nothing at a zero rate, the
    loop's step is the specification's. *)
Definition zero_rate_neutral (rate : num) : Prop :=
  forall b, (rate === #0) = true -> b * (#1 + rate) = b.

End Specification.


(** ** Checks run in binary64 *)

Module B64Check.
Import B64.
Local Open Scope float_scope.
(** Equality of two lists of doubles, bit for bit. *)
Fixpoint float_list_eqb (a b : list float) : bool :=
  match a, b with
  | [], [] => true
  | x :: a', y :: b' => PrimFloat.Leibniz.eqb x y && float_list_eqb a' b'
  | _, _ => false
  end.

(** For [years = y]: [Math.round(years * 12)] is [12 * y], and the loop
    counter takes the values 1, ..., [12 * y] and the loop stops. *)
Definition months_check (pow : float -> float -> float) (y : Z) : bool :=
  let JS := binary64 pow in
  let T := Math_round (#y * #12)%js in
  let n := Z.to_nat (12 * y) in
  PrimFloat.Leibniz.eqb T #(12 * y)%js &&
  match monthsFrom T (S n) #1%js with
  | Some ms => float_list_eqb ms (map (fun m => #(Z.of_nat m)%js) (seq 1 n))
  | None => false
  end.

(** The double 1. *)
Definition one_SF : spec_float := S754_finite false 4503599627370496 (-52).

(** The double of a whole number k from 1 to 50 is m * 2^e with a 53-bit m,
    and [validateInputs] accepts it as a number of years. *)
Definition small_integer_check (pow : float -> float -> float) (k : Z) : bool :=
  match Prim2SF (float_of_Z k) with
  | S754_finite false m e =>
      ((Z.pos m =? k * 2 ^ (- e)) && (2 ^ 52 <=? Z.pos m) && (Z.pos m <? 2 ^ 53)
       && (-52 <=? e) && (e <=? -47))%Z
      && yearsAccepted (JS := binary64 pow) (float_of_Z k)
  | _ => false
  end.

(** For [years = y]: the month count [12 * y] is a finite double, and
    ECMAScript fixes [Math.pow(0, 12 * y)] to +0. *)
Definition months_finite_check (y : Z) : bool :=
  isFinite (float_of_Z (12 * y)) &&
  match exponentiate_special 0 (float_of_Z (12 * y)) with
  | Some v => PrimFloat.Leibniz.eqb v 0
  | None => false
  end.

(** The outcome of a rounding that is neither zero nor NaN. *)
Definition signed_nonzero (sx : bool) (r : spec_float) : Prop :=
  (exists m e, r = S754_finite sx m e) \/ r = S754_infinity sx.

(** For [years = y]: the month count [12 * y] is above zero, and at least
    one. *)
Definition months_positive_check (y : Z) : bool :=
  (0 <? float_of_Z (12 * y)) && (1 <=? float_of_Z (12 * y)).

(** [r] is a zero or a finite number of sign [sx] whose magnitude is at most
    that of the double [mb * 2^eb]. *)
Definition rounds_within (sx : bool) (r : spec_float) (mb : positive) (eb : Z) : Prop :=
  match r with
  | S754_zero s => s = sx
  | S754_finite s m e => s = sx /\ (e < eb \/ (e = eb /\ Z.pos m <= Z.pos mb))%Z
  | _ => False
  end.

(** [r] is a zero, a finite number or an infinity of sign [sx]. *)
Definition has_sign (sx : bool) (r : spec_float) : Prop :=
  match r with
  | S754_zero s | S754_infinity s | S754_finite s _ _ => s = sx
  | S754_nan => False
  end.

(** 1 when the location records a remainder, 0 when it is exact. *)
Definition loc_excess (l : location) : Z :=
  match l with loc_Exact => 0%Z | loc_Inexact _ => 1%Z end.

End B64Check.

(** ** Inputs used below *)

(** The zero-rate scenario of the specification: 1000 initial, 100 a month,
    no return, no fee, no inflation, 2 years. *)
Definition zeroRateParams : Params float :=
  mkParams 1000%float 100%float 0%float 0%float 0%float 2%float.

(** One year at 6 %, 200 a month, nothing to start with. *)
Definition oneYearParams : Params float :=
  mkParams 0%float 200%float 6%float 0%float 0%float 1%float.

(** Total loss (net annual rate -100 %), 0.1 contributed a month for a year:
    the scenario of the specification's last testable property. *)
Definition totalLossParams : Params float :=
  mkParams 0%float 0.1%float (-100)%float 0%float 0%float 1%float.

(** Nothing invested, total loss, 2 % inflation, one year. *)
Definition nothingInvestedParams : Params float :=
  mkParams 0%float 0%float (-100)%float 0%float 2%float 1%float.

(** A gross return and a fee that [validateInputs] accepts and whose factors
    multiply to more than the largest double: 1 invested, nothing added. *)
Definition overflowParams : Params float :=
  mkParams 1%float 0%float (-1e308)%float 1e308%float 0%float 1%float.

(** The same with nothing invested. *)
Definition overflowNothingParams : Params float :=
  mkParams 0%float 0%float (-1e308)%float 1e308%float 0%float 1%float.

(** The inputs of three of the program's quick tests. *)
Definition thirtyYearsParams : Params float :=
  mkParams 1000%float 50%float 5%float 0.5%float 2%float 30%float.

Definition noContributionParams : Params float :=
  mkParams 5000%float 0%float 6%float 0.5%float 1.5%float 10%float.

Definition highInflationParams : Params float :=
  mkParams 1000%float 200%float 5%float 0.5%float 15%float 5%float.

(** What a run reports: months, number of entries, contributed total. *)
Definition monthsAndTotal (pow : float -> float -> float) (fuel : nat) (p : Params float)
    : option (float * nat * float) :=
  option_map
    (fun res => (totalMonths (summary res), length (series res),
                 totalContributions (summary res)))
    (generateMonthlySeries (JS := B64.binary64 pow) fuel p).


(** 1000 to start with, 100 a month, 5 % gross, 2 % inflation, one year. *)
Definition inflationParams : Params float :=
  mkParams 1000%float 100%float 5%float 0%float 2%float 1%float.

(** Total loss with 100 a month, and an inflation too small to move
    [1 + annualInflation/100] off 1. *)
Definition tinyInflationParams : Params float :=
  mkParams 0%float 100%float (-100)%float 0%float 1e-20%float 1%float.

(** Total loss with the smallest positive double a month, 2 % inflation. *)
Definition tinyValueParams : Params float :=
  mkParams 0%float 0x1p-1074%float (-100)%float 0%float 2%float 1%float.

(** A monthly rate of -1/2 (net annual factor 2^-12) on a capital of
    5 * 2^-1065, nothing added: the balance is halved twelve times. *)
Definition underflowParams : Params float :=
  mkParams 0x1.4p-1063%float 0%float (-99.9755859375)%float 0%float 0%float 1%float.

(** A duration of minus one year, which [validateInputs] rejects. *)
Definition negativeYearsParams : Params float :=
  mkParams 0%float 1%float 0%float 0%float 0%float (-1)%float.

(** Rewrites one call of [pow] with a hypothesis [H : pow a b = v], up to
    evaluation of the arguments. *)
Ltac use_pow pow H :=
  match type of H with
  | pow ?a ?b = _ =>
      match goal with
      | |- context [pow ?a' ?b'] => change (pow a' b') with (pow a b); rewrite H
      end
  end.

(** Rewrites one call of [pow] whose value ECMAScript fixes to [v]. *)
Ltac es_pow pow Hes v :=
  match goal with
  | |- context [pow ?b ?e] => rewrite (Hes b e v eq_refl)
  end.

(** ** The UI layer *)

Module UI.
Import B64.
Local Open Scope string_scope.
Local Open Scope float_scope.

(** *** Built-ins the handlers use *)

(** [Math.ceil]: the least whole number not below [x]; -0 for a negative
    number above -1. *)
Definition Math_ceil (x : float) : float :=
  match Prim2SF x with
  | S754_finite s m e =>
      if (0 <=? e)%Z then x
      else
        let d := (2 ^ (- e))%Z in
        if s then
          let q := (Z.pos m / d)%Z in
          if (q =? 0)%Z then (-0) else float_of_Z (- q)
        else float_of_Z (- (- Z.pos m / d))
  | _ => x
  end.

Definition is_negative_zero (x : float) : bool :=
  match Prim2SF x with
  | S754_zero true => true
  | _ => false
  end.

(** [Math.max] and [Math.min] of two numbers: NaN if either is, and +0 is
    above -0. *)
Definition Math_max (a b : float) : float :=
  if is_nan a || is_nan b then nan
  else if a <? b then b
  else if b <? a then a
  else if is_negative_zero a then b else a.

Definition Math_min (a b : float) : float :=
  if is_nan a || is_nan b then nan
  else if a <? b then a
  else if b <? a then b
  else if is_negative_zero b then b else a.

(** ECMAScript's ToIntegerOrInfinity, which [Array.prototype.slice] applies
    to its arguments. *)
Inductive IntegerOrInfinity : Type :=
  | Integer (z : Z)
  | PlusInfinity
  | MinusInfinity.

Definition ToIntegerOrInfinity (x : float) : IntegerOrInfinity :=
  match Prim2SF x with
  | S754_nan | S754_zero _ => Integer 0
  | S754_infinity s => if s then MinusInfinity else PlusInfinity
  | S754_finite s m e =>
      let v := if (0 <=? e)%Z then (Z.pos m * 2 ^ e)%Z else (Z.pos m / 2 ^ (- e))%Z in
      Integer (if s then (- v)%Z else v)
  end.

(** The index [slice] derives from an argument, for an array of [len]
    elements. *)
Definition relativeIndex (len : Z) (i : IntegerOrInfinity) : Z :=
  match i with
  | MinusInfinity => 0
  | PlusInfinity => len
  | Integer z => if (z <? 0)%Z then Z.max (len + z) 0 else Z.min z len
  end.

(** [array.slice(start, end)]. *)
Definition slice {A : Type} (array : list A) (start end_ : float) : list A :=
  let len := Z.of_nat (length array) in
  let k := relativeIndex len (ToIntegerOrInfinity start) in
  let final := relativeIndex len (ToIntegerOrInfinity end_) in
  firstn (Z.to_nat (Z.max (final - k) 0)) (skipn (Z.to_nat k) array).

(** [array.length], a number. *)
Definition length_of {A : Type} (array : list A) : float :=
  float_of_Z (Z.of_nat (length array)).

(** A string in a condition: the empty string is false. *)
Definition truthy (s : String.string) : bool := negb (String.eqb s "").

(** *** [localStorage] *)

Definition Storage : Type := list (String.string * String.string).

Fixpoint getItem (storage : Storage) (key : String.string) : option String.string :=
  match storage with
  | [] => None
  | (k, v) :: storage' => if String.eqb k key then Some v else getItem storage' key
  end.

Fixpoint setItem (storage : Storage) (key value : String.string) : Storage :=
  match storage with
  | [] => [(key, value)]
  | (k, v) :: storage' =>
      if String.eqb k key then (key, value) :: storage'
      else (k, v) :: setItem storage' key value
  end.

(** *** The page *)

(** A [.field] of the form: the name of its [input] and the text of its
    [.error] element, where it has one. *)
Record Field : Type := mkField {
  field_input : option String.string;
  field_error : option String.string
}.

(** A row appended to [tableBody]: the text of its four cells. *)
Record Row : Type := mkRow {
  monthCell : String.string;
  contributedCell : String.string;
  interestCell : String.string;
  valueCell : String.string
}.

(** What [new Chart] is given: the labels and the two datasets. *)
Record ChartData : Type := mkChartData {
  chart_labels : list String.string;
  chart_contributions : list float;
  chart_totals : list float
}.

(** The [state] object. *)
Record State : Type := mkState {
  chartInstance : option ChartData;
  state_series : list (Entry float);
  currentPage : float;
  rowsPerPage : float
}.

(** The elements the handlers write, and the form's fields. *)
Record Document : Type := mkDocument {
  kpiNominal : String.string;
  kpiReal : String.string;
  kpiContributed : String.string;
  kpiGrowth : String.string;
  tableBody : list Row;
  prevPageButton_disabled : bool;
  nextPageButton_disabled : bool;
  pageInfo : String.string;
  exportButton_disabled : bool;
  saveButton_text : String.string;
  themeSwitch_checked : bool;
  body_dark : bool;
  fields : list Field
}.

(** What the handlers reach outside the page: the storage, the [Chart]
    objects created and not destroyed, the files handed to the browser and
    the timeouts still to fire. *)
Record Environment : Type := mkEnvironment {
  localStorage : Storage;
  liveCharts : nat;
  downloads : list String.string;
  pendingTimeouts : nat
}.

Record App : Type := mkApp {
  state : State;
  document : Document;
  environment : Environment
}.

(** The [state] the script starts with. *)
Definition initialState : State := mkState None [] 1 50.

(** Assignments. *)
Definition set_state (f : State -> State) (app : App) : App :=
  mkApp (f (state app)) (document app) (environment app).
Definition set_document (f : Document -> Document) (app : App) : App :=
  mkApp (state app) (f (document app)) (environment app).
Definition set_environment (f : Environment -> Environment) (app : App) : App :=
  mkApp (state app) (document app) (f (environment app)).

Definition set_chartInstance (v : option ChartData) (s : State) : State :=
  mkState v (state_series s) (currentPage s) (rowsPerPage s).
Definition set_series (v : list (Entry float)) (s : State) : State :=
  mkState (chartInstance s) v (currentPage s) (rowsPerPage s).
Definition set_currentPage (v : float) (s : State) : State :=
  mkState (chartInstance s) (state_series s) v (rowsPerPage s).

Definition set_kpis (nominal real contributed growth : String.string) (d : Document) : Document :=
  mkDocument nominal real contributed growth (tableBody d)
    (prevPageButton_disabled d) (nextPageButton_disabled d) (pageInfo d)
    (exportButton_disabled d) (saveButton_text d) (themeSwitch_checked d) (body_dark d)
    (fields d).
Definition set_tableBody (v : list Row) (d : Document) : Document :=
  mkDocument (kpiNominal d) (kpiReal d) (kpiContributed d) (kpiGrowth d) v
    (prevPageButton_disabled d) (nextPageButton_disabled d) (pageInfo d)
    (exportButton_disabled d) (saveButton_text d) (themeSwitch_checked d) (body_dark d)
    (fields d).
Definition set_pager (prev next : bool) (info : String.string) (d : Document) : Document :=
  mkDocument (kpiNominal d) (kpiReal d) (kpiContributed d) (kpiGrowth d) (tableBody d)
    prev next info
    (exportButton_disabled d) (saveButton_text d) (themeSwitch_checked d) (body_dark d)
    (fields d).
Definition set_exportButton_disabled (v : bool) (d : Document) : Document :=
  mkDocument (kpiNominal d) (kpiReal d) (kpiContributed d) (kpiGrowth d) (tableBody d)
    (prevPageButton_disabled d) (nextPageButton_disabled d) (pageInfo d)
    v (saveButton_text d) (themeSwitch_checked d) (body_dark d) (fields d).
Definition set_saveButton_text (v : String.string) (d : Document) : Document :=
  mkDocument (kpiNominal d) (kpiReal d) (kpiContributed d) (kpiGrowth d) (tableBody d)
    (prevPageButton_disabled d) (nextPageButton_disabled d) (pageInfo d)
    (exportButton_disabled d) v (themeSwitch_checked d) (body_dark d) (fields d).
Definition set_theme (checked dark : bool) (d : Document) : Document :=
  mkDocument (kpiNominal d) (kpiReal d) (kpiContributed d) (kpiGrowth d) (tableBody d)
    (prevPageButton_disabled d) (nextPageButton_disabled d) (pageInfo d)
    (exportButton_disabled d) (saveButton_text d) checked dark (fields d).
Definition set_fields (v : list Field) (d : Document) : Document :=
  mkDocument (kpiNominal d) (kpiReal d) (kpiContributed d) (kpiGrowth d) (tableBody d)
    (prevPageButton_disabled d) (nextPageButton_disabled d) (pageInfo d)
    (exportButton_disabled d) (saveButton_text d) (themeSwitch_checked d) (body_dark d) v.

Definition set_localStorage (v : Storage) (e : Environment) : Environment :=
  mkEnvironment v (liveCharts e) (downloads e) (pendingTimeouts e).
Definition set_liveCharts (v : nat) (e : Environment) : Environment :=
  mkEnvironment (localStorage e) v (downloads e) (pendingTimeouts e).
Definition set_downloads (v : list String.string) (e : Environment) : Environment :=
  mkEnvironment (localStorage e) (liveCharts e) v (pendingTimeouts e).
Definition set_pendingTimeouts (v : nat) (e : Environment) : Environment :=
  mkEnvironment (localStorage e) (liveCharts e) (downloads e) v.

(** The keys [validateInputs] sets, and their messages. *)
Definition errorName (k : ErrorKey) : String.string :=
  match k with
  | errInitialCapital => "initialCapital"
  | errMonthlyContribution => "monthlyContribution"
  | errGrossReturn => "grossReturn"
  | errAnnualFee => "annualFee"
  | errInflation => "inflation"
  | errYears => "years"
  end.

Definition errorMessage (k : ErrorKey) : String.string :=
  match k with
  | errInitialCapital => "Introduce un número mayor o igual a 0."
  | errMonthlyContribution => "Introduce un número mayor o igual a 0."
  | errGrossReturn => "Introduce un número válido."
  | errAnnualFee => "Introduce una comisión mayor o igual a 0."
  | errInflation => "Introduce una inflación mayor o igual a 0."
  | errYears => "La duración debe ser un entero entre 1 y 50."
  end.

Definition themeKey : String.string := "investment-simulator-theme".
Definition paramsKey : String.string := "investment-simulator-params".
Definition csvHeader : String.string :=
  String.append "Mes,Aportación acumulada,Intereses acumulados,Valor total"
                (String.String (Ascii.ascii_of_nat 10) String.EmptyString).
Definition newline : String.string := String.String (Ascii.ascii_of_nat 10) String.EmptyString.

Section Handlers.

(** What the script takes from its host: [Math.pow], the conversion of a
    number to a string, the two [Intl.NumberFormat] objects, whether
    [Chart] is defined, [JSON.stringify] on the form's values, the text of
    a property inherited from [Object.prototype], and the system's colour
    scheme. *)
Variable pow : float -> float -> float.
Variable Number_toString : float -> String.string.
Variable numberFormatter_format : float -> String.string.
Variable numberFormatterNoCurrency_format : float -> String.string.
Variable Chart_defined : bool.
Variable JSON_stringify : Params float -> String.string.
Variable inherited : String.string -> option String.string.
Variable prefersDark : bool.

Let JS : JSNumber float := binary64 pow.
Existing Instance JS.

(** [errors[key] || '']: the message set for [key], else what the object
    inherits under that name, else the empty string. *)
Definition errorText (errors : list ErrorKey) (key : String.string) : String.string :=
  match find (fun k => String.eqb (errorName k) key) errors with
  | Some k => if truthy (errorMessage k) then errorMessage k else ""
  | None =>
      match inherited key with
      | Some text => text
      | None => ""
      end
  end.

Definition clearErrors (app : App) : App :=
  set_document
    (fun d =>
       set_fields
         (map (fun field =>
                 match field_error field with
                 | Some _ => mkField (field_input field) (Some "")
                 | None => field
                 end)
              (fields d))
         d)
    app.

Definition showErrors (errors : list ErrorKey) (app : App) : App :=
  set_document
    (fun d =>
       set_fields
         (map (fun field =>
                 match field_input field, field_error field with
                 | Some key, Some _ => mkField (field_input field) (Some (errorText errors key))
                 | _, _ => field
                 end)
              (fields d))
         d)
    app.

Definition formatCurrency (value : float) : String.string :=
  if negb (isFinite value) then "—" else numberFormatter_format value.

Definition formatNumber (value : float) : String.string :=
  if negb (isFinite value) then "" else numberFormatterNoCurrency_format value.

Definition updateKpis (summary : Summary float) (app : App) : App :=
  set_document
    (set_kpis (formatCurrency (futureValue summary))
              (formatCurrency (futureValueReal summary))
              (formatCurrency (totalContributions summary))
              (formatCurrency (totalGrowth summary)))
    app.

Definition createChart (series : list (Entry float)) (app : App) : App :=
  if negb Chart_defined then app
  else
    let labels := map (fun item => String.append "Mes " (Number_toString (month item))) series in
    let contributions := map (fun item => totalContributed item) series in
    let totals := map (fun item => totalValue item) series in
    let app :=
      match chartInstance (state app) with
      | Some _ => set_environment (fun e => set_liveCharts (Nat.pred (liveCharts e)) e) app
      | None => app
      end in
    set_environment (fun e => set_liveCharts (S (liveCharts e)) e)
      (set_state (set_chartInstance (Some (mkChartData labels contributions totals))) app).

Definition rowOf (item : Entry float) : Row :=
  mkRow (Number_toString (month item))
        (formatCurrency (totalContributed item))
        (formatCurrency (interestAccumulated item))
        (formatCurrency (totalValue item)).

Definition renderTable (page : float) (app : App) : App :=
  let rowsPerPage := rowsPerPage (state app) in
  let series := state_series (state app) in
  let totalPages := Math_max 1 (Math_ceil (length_of series / rowsPerPage)) in
  let currentPage := Math_min (Math_max page 1) totalPages in
  let app := set_state (set_currentPage currentPage) app in
  let start := (currentPage - 1) * rowsPerPage in
  let end_ := start + rowsPerPage in
  let pageItems := slice series start end_ in
  let app := set_document (set_tableBody []) app in
  let app := set_document (set_tableBody (map rowOf pageItems)) app in
  set_document
    (set_pager (currentPage =? 1)
               ((currentPage =? totalPages) || (length series =? 0)%nat)
               (if (0 <? length series)%nat
                then String.append "Página "
                       (String.append (Number_toString currentPage)
                          (String.append " / " (Number_toString totalPages)))
                else "Página 0 / 0"))
    app.

Definition csvRow (item : Entry float) : String.string :=
  String.concat ","
    [Number_toString (month item);
     formatNumber (totalContributed item);
     formatNumber (interestAccumulated item);
     formatNumber (totalValue item)].

Definition handleExport (app : App) : App :=
  if (length (state_series (state app)) =? 0)%nat then app
  else
    let header := csvHeader in
    let rows := String.concat newline (map csvRow (state_series (state app))) in
    let csvContent := String.append header rows in
    set_environment (fun e => set_downloads (downloads e ++ [csvContent])%list e) app.

Definition clearResults (app : App) : App :=
  let app := set_state (set_series []) app in
  let app := set_state (set_currentPage 1) app in
  let app := set_document (set_tableBody []) app in
  let app := set_document (set_kpis "—" "—" "—" "—") app in
  let app := set_document (set_pager true true "Página 0 / 0") app in
  let app := set_document (set_exportButton_disabled true) app in
  match chartInstance (state app) with
  | Some _ =>
      set_state (set_chartInstance None)
        (set_environment (fun e => set_liveCharts (Nat.pred (liveCharts e)) e) app)
  | None => app
  end.

(** [handleFormSubmit], on the values [parseFormValues] reads from the
    form.  [None]: the fuel of [generateMonthlySeries] ran out. *)
Definition handleFormSubmit (fuel : nat) (values : Params float) (app : App) : option App :=
  let app := clearErrors app in
  let errors := validateInputs values in
  if (0 <? length errors)%nat then Some (clearResults (showErrors errors app))
  else
    match generateMonthlySeries fuel values with
    | None => None
    | Some result =>
        let app := set_state (set_series (series result)) app in
        let app := updateKpis (summary result) app in
        let app := renderTable 1 app in
        let app := createChart (series result) app in
        Some (set_document (set_exportButton_disabled false) app)
    end.

(** [handleClear]; [form.reset()] acts on the inputs, which are read
    through [parseFormValues] only. *)
Definition handleClear (app : App) : App := clearResults (clearErrors app).

Definition saveParameters (values : Params float) (app : App) : App :=
  let errors := validateInputs values in
  if (0 <? length errors)%nat then showErrors errors app
  else
    let app :=
      set_environment
        (fun e => set_localStorage (setItem (localStorage e) paramsKey (JSON_stringify values)) e)
        app in
    let app := set_document (set_saveButton_text "Guardado ✔") app in
    set_environment (fun e => set_pendingTimeouts (S (pendingTimeouts e)) e) app.

(** The callback [saveParameters] passes to [setTimeout]. *)
Definition saveButtonTimeout (app : App) : App :=
  set_document (set_saveButton_text "Guardar parámetros") app.

Definition applyStoredTheme (app : App) : App :=
  let storedTheme := getItem (localStorage (environment app)) themeKey in
  let shouldUseDark :=
    match storedTheme with
    | Some theme => if truthy theme then String.eqb theme "dark" else prefersDark
    | None => prefersDark
    end in
  set_document (set_theme shouldUseDark shouldUseDark) app.

Definition handleThemeToggle (app : App) : App :=
  let isDark := themeSwitch_checked (document app) in
  let app := set_document (set_theme isDark isDark) app in
  set_environment
    (fun e => set_localStorage
                (setItem (localStorage e) themeKey (if isDark then "dark" else "light")) e)
    app.

(** What the user and the browser do to the page. *)
Inductive Event : Type :=
  | submitForm (values : Params float)
  | clickClear
  | clickExport
  | clickSave (values : Params float)
  | clickPrevPage
  | clickNextPage
  | changeTheme (checked : bool)
  | timeoutFires.

(** The listeners registered at the end of the script. *)
Definition handle (fuel : nat) (event : Event) (app : App) : option App :=
  match event with
  | submitForm values => handleFormSubmit fuel values app
  | clickClear => Some (handleClear app)
  | clickExport => Some (handleExport app)
  | clickSave values => Some (saveParameters values app)
  | clickPrevPage => Some (renderTable (currentPage (state app) - 1) app)
  | clickNextPage => Some (renderTable (currentPage (state app) + 1) app)
  | changeTheme checked =>
      Some (handleThemeToggle
              (set_document (fun d => set_theme checked (body_dark d) d) app))
  | timeoutFires =>
      match pendingTimeouts (environment app) with
      | O => Some app
      | S n =>
          Some (saveButtonTimeout
                  (set_environment (fun e => set_pendingTimeouts n e) app))
      end
  end.

Fixpoint handleAll (fuel : nat) (events : list Event) (app : App) : option App :=
  match events with
  | [] => Some app
  | event :: events' =>
      match handle fuel event app with
      | Some app' => handleAll fuel events' app'
      | None => None
      end
  end.

End Handlers.

(** *** The quick tests *)

(** [almostEqual], with its default tolerance. *)
Definition almostEqual (a b : float) : bool := abs (a - b) <=? 1e-6.

(** [console.assert(condition, message)]: the message is logged when the
    condition is false. *)
Definition console_assert (condition : bool) (message : String.string)
    (console : list String.string) : list String.string :=
  if condition then console else (console ++ [message])%list.

(** [runQuickTests]: what the five assertions log.  [None]: the fuel of a
    run ran out. *)
Definition runQuickTests (pow : float -> float -> float) (fuel : nat)
    : option (list String.string) :=
  let JS := binary64 pow in
  let console := [] in
  match generateMonthlySeries fuel zeroRateParams with
  | None => None
  | Some zeroRateResult =>
  let console :=
    console_assert
      (almostEqual (futureValue (summary zeroRateResult)) (1000 + 100 * 24))
      "FV debe coincidir con la suma de aportaciones cuando r_m = 0" console in
  match generateMonthlySeries fuel oneYearParams with
  | None => None
  | Some oneYear =>
  let console :=
    console_assert (totalMonths (summary oneYear) =? 12)
      "La duración de 1 año debe producir 12 meses" console in
  match generateMonthlySeries fuel thirtyYearsParams with
  | None => None
  | Some thirtyYears =>
  let console :=
    console_assert (totalMonths (summary thirtyYears) =? 360)
      "La duración de 30 años debe producir 360 meses" console in
  match generateMonthlySeries fuel noContributionParams with
  | None => None
  | Some noContribution =>
  let console :=
    console_assert (almostEqual (totalContributions (summary noContribution)) 5000)
      "El total aportado debe coincidir con el capital inicial cuando C = 0" console in
  match generateMonthlySeries fuel highInflationParams with
  | None => None
  | Some highInflation =>
  let console :=
    console_assert
      (futureValueReal (summary highInflation) <? futureValue (summary highInflation))
      "Con inflación alta, el valor real debe ser menor que el nominal" console in
  Some console
  end end end end end.

End UI.

(** ** Checks and statements for the UI layer *)

Module UICheck.
Import B64 UI.
Local Open Scope string_scope.
Local Open Scope float_scope.

Definition IntegerOrInfinity_eqb (a b : IntegerOrInfinity) : bool :=
  match a, b with
  | Integer x, Integer y => (x =? y)%Z
  | PlusInfinity, PlusInfinity => true
  | MinusInfinity, MinusInfinity => true
  | _, _ => false
  end.

(** The page count and the page shown, as whole numbers: 50 rows a page,
    at least one page, the request clamped to 1 .. totalPages. *)
Definition totalPagesOf (len : nat) : Z := Z.max 1 ((Z.of_nat len + 49) / 50).
Definition pageShown (len : nat) (page : Z) : Z := Z.min (Z.max page 1) (totalPagesOf len).

(** The numbers [renderTable] computes for a series of [len] entries and
    the request [page], against the whole numbers above. *)
Definition renderTable_check (len : nat) (page : Z) : bool :=
  let T := totalPagesOf len in
  let c := pageShown len page in
  let totalPages := Math_max 1 (Math_ceil (float_of_Z (Z.of_nat len) / 50)) in
  let currentPage := Math_min (Math_max (float_of_Z page) 1) totalPages in
  let start := (currentPage - 1) * 50 in
  let end_ := start + 50 in
  PrimFloat.Leibniz.eqb totalPages (float_of_Z T)
  && PrimFloat.Leibniz.eqb currentPage (float_of_Z c)
  && IntegerOrInfinity_eqb (ToIntegerOrInfinity start) (Integer (50 * (c - 1)))
  && IntegerOrInfinity_eqb (ToIntegerOrInfinity end_) (Integer (50 * c))
  && Bool.eqb (currentPage =? 1) (c =? 1)%Z
  && Bool.eqb (currentPage =? totalPages) (c =? T)%Z
  && PrimFloat.Leibniz.eqb (currentPage + 1) (float_of_Z (c + 1))
  && PrimFloat.Leibniz.eqb (currentPage - 1) (float_of_Z (c - 1)).

(** The entries of page [c]: 50 from index [50 * (c - 1)]. *)
Definition pageEntries {A : Type} (l : list A) (c : Z) : list A :=
  firstn 50 (skipn (Z.to_nat (50 * (c - 1))) l).

(** The page [state.currentPage] holds, as a whole number. *)
Definition pageNumber (app : App) : Z :=
  match ToIntegerOrInfinity (currentPage (state app)) with
  | Integer z => z
  | _ => 0%Z
  end.

(** The numbers from 0 to 13 convert to [float] and back. *)
Definition page_roundtrip_check (page : Z) : bool :=
  IntegerOrInfinity_eqb (ToIntegerOrInfinity (float_of_Z page)) (Integer page).

Section Consistency.
Variable Number_toString : float -> String.string.
Variable numberFormatter_format : float -> String.string.
Variable Chart_defined : bool.

(** What [createChart] plots for a series. *)
Definition chartOf (series : list (Entry float)) : ChartData :=
  mkChartData
    (map (fun item => String.append "Mes " (Number_toString (month item))) series)
    (map (fun item => totalContributed item) series)
    (map (fun item => totalValue item) series).

(** The paging state is in order: 50 rows a page, at most 600 entries (50
    years), the current page a whole number from 1 to the page count. *)
Definition PagerOK (app : App) : Prop :=
  rowsPerPage (state app) = 50 /\
  (length (state_series (state app)) <= 600)%nat /\
  currentPage (state app) = float_of_Z (pageNumber app) /\
  (1 <= pageNumber app <= totalPagesOf (length (state_series (state app))))%Z.

(** One live [Chart] if [state.chartInstance] holds one, none otherwise;
    the one held plots the series of [state]. *)
Definition ChartOK (app : App) : Prop :=
  liveCharts (environment app)
  = match chartInstance (state app) with Some _ => 1%nat | None => 0%nat end /\
  (forall chart, chartInstance (state app) = Some chart ->
     Chart_defined = true /\ chart = chartOf (state_series (state app))).

(** The table holds the rows of the current page, and the two page
    buttons and the page text agree with it. *)
Definition TableOK (app : App) : Prop :=
  let series := state_series (state app) in
  let len := length series in
  let c := pageNumber app in
  let T := totalPagesOf len in
  tableBody (document app)
  = map (rowOf Number_toString numberFormatter_format) (pageEntries series c) /\
  prevPageButton_disabled (document app) = (c =? 1)%Z /\
  nextPageButton_disabled (document app) = ((c =? T)%Z || (len =? 0)%nat)%bool /\
  pageInfo (document app)
  = (if (0 <? len)%nat
     then String.append "Página "
            (String.append (Number_toString (float_of_Z c))
               (String.append " / " (Number_toString (float_of_Z T))))
     else "Página 0 / 0")%string.

(** The export button is enabled only when there is a series. *)
Definition ExportOK (app : App) : Prop :=
  exportButton_disabled (document app) = false -> state_series (state app) <> [].

Definition StateOK (app : App) : Prop := PagerOK app /\ ChartOK app.

Definition Consistent (app : App) : Prop :=
  PagerOK app /\ ChartOK app /\ TableOK app /\ ExportOK app.

End Consistency.

(** A page to run the handlers on: the script's initial [state], one
    field for the years, nothing stored, and formatters that print
    nothing. *)
Definition noText : float -> String.string := fun _ => "".
Definition blankDocument : Document :=
  mkDocument "" "" "" "" [] false false "" false "" false false
    [mkField (Some "years") (Some "")].
Definition startApp : App := mkApp initialState blankDocument (mkEnvironment [] 0 [] 0).

(** The same with 120 entries in [state.series]. *)
Definition tenYearsApp : App :=
  mkApp (mkState None (repeat (mkEntry 1 0 0 0) 120) 1 50) blankDocument
        (mkEnvironment [] 0 [] 0).

(** Values that [validateInputs] rejects for their years only. *)
Definition zeroYearsParams : Params float := mkParams 0 0 0 0 0 0.

(** ... shown on its first page. *)
Definition tenYearsShown : App := renderTable noText noText 1 tenYearsApp.

(** Events that leave the stored theme alone. *)
Definition keepsTheme (event : Event) : bool :=
  match event with
  | changeTheme _ => false
  | _ => true
  end.


(** What a submit leaves in a field: the text for its input's name in the
    [.error] element, if it has both; an empty text in an [.error] element
    without an input. *)
Definition fieldAfterSubmit (inherited : String.string -> option String.string)
    (errors : list ErrorKey) (field : Field) : Field :=
  match field_error field with
  | None => field
  | Some _ =>
      match field_input field with
      | Some key =>
          mkField (field_input field)
                  (Some (match errors with
                         | [] => ""
                         | _ :: _ => errorText inherited errors key
                         end))
      | None => mkField (field_input field) (Some "")
      end
  end.

(** The events whose listener runs [renderTable] or [clearResults], and
    those whose listener sets the export button. *)
Definition rendersTable (event : Event) : bool :=
  match event with
  | submitForm _ | clickClear | clickPrevPage | clickNextPage => true
  | _ => false
  end.

Definition setsExportButton (event : Event) : bool :=
  match event with
  | submitForm _ | clickClear => true
  | _ => false
  end.

(** Proof steps: the projections of an assignment, and the parts of a
    conjunction. *)
Ltac ui_cbn :=
  cbn [state document environment set_state set_document set_environment
       set_chartInstance set_series set_currentPage set_kpis set_tableBody set_pager
       set_exportButton_disabled set_saveButton_text set_theme set_fields
       set_localStorage set_liveCharts set_downloads set_pendingTimeouts
       chartInstance state_series currentPage rowsPerPage
       kpiNominal kpiReal kpiContributed kpiGrowth tableBody
       prevPageButton_disabled nextPageButton_disabled pageInfo
       exportButton_disabled saveButton_text themeSwitch_checked body_dark fields
       localStorage liveCharts downloads pendingTimeouts] in *.

Ltac conjs := repeat match goal with |- _ /\ _ => split end.

End UICheck.

(** ** The program, for every reading *)

Section EveryReading.
Context {num : Type} {JS : JSNumber num}.
Local Open Scope js_scope.

Lemma forLoop_entries (r C T : num) (fuel : nat) :
  forall month b c acc,
    forLoop r C T fuel month b c acc
    = option_map (fun ms => acc ++ entriesFrom r C ms b c) (monthsFrom T fuel month).
Proof.
  induction fuel as [| fuel IH]; intros month b c acc; cbn [forLoop monthsFrom].
  - reflexivity.
  - destruct (month <=? T).
    + rewrite IH. destruct (monthsFrom T fuel (month + #1)) as [ms |]; cbn.
      * now rewrite <- app_assoc.
      * reflexivity.
    + cbn. now rewrite app_nil_r.
Qed.

Lemma monthsFrom_more_fuel (T : num) (fuel : nat) :
  forall month ms k,
    monthsFrom T fuel month = Some ms -> monthsFrom T (fuel + k) month = Some ms.
Proof.
  induction fuel as [| fuel IH]; intros month ms k; cbn [monthsFrom Nat.add].
  - discriminate.
  - destruct (month <=? T); [| trivial].
    destruct (monthsFrom T fuel (month + #1)) as [ms' |] eqn:E; [| discriminate].
    now rewrite (IH _ _ k E).
Qed.

Lemma entriesFrom_length (r C : num) (ms : list num) :
  forall b c, length (entriesFrom r C ms b c) = length ms.
Proof. induction ms as [| m ms IH]; intros b c; cbn; [| rewrite IH]; reflexivity. Qed.

Lemma nextBalance_unconditional (r C b : num) :
  zero_rate_neutral r -> nextBalance r C b = b * (#1 + r) + C.
Proof.
  intros Hz. unfold nextBalance. destruct (r === #0) eqn:E; cbn [negb].
  - now rewrite Hz.
  - reflexivity.
Qed.

Lemma entriesFrom_seriesOfMonths (P C r : num) (n : nat) :
  zero_rate_neutral r ->
  forall k,
    entriesFrom r C (map (fun m => #(Z.of_nat m)) (seq (S k) n))
                (balanceAfter P C r k) (contributedAfter P C k)
    = map (entryOfMonth P C r) (seq (S k) n).
Proof.
  intros Hz. induction n as [| n IH]; intros k; cbn [seq map entriesFrom].
  - reflexivity.
  - rewrite nextBalance_unconditional by assumption.
    change (balanceAfter P C r k * (#1 + r) + C) with (balanceAfter P C r (S k)).
    change (contributedAfter P C k + C) with (contributedAfter P C (S k)).
    now rewrite IH.
Qed.

(** The result of the function, when its loop finishes. *)
Lemma generateMonthlySeries_inv (fuel : nat) (p : Params num) (res : Result num) :
  generateMonthlySeries fuel p = Some res ->
  exists ms,
    monthsFrom (Math_round (years p * #12)) fuel #1 = Some ms /\
    series res = entriesFrom (rateOf p) (monthlyContribution p) ms
                             (initialCapital p) (initialCapital p) /\
    summary res = summarize p (calculateNetAnnualReturn (grossAnnualReturn p) (annualFee p))
                            (rateOf p) (Math_round (years p * #12)) (series res).
Proof.
  unfold generateMonthlySeries, rateOf. cbv zeta. rewrite forLoop_entries.
  destruct (monthsFrom _ fuel #1) as [ms |]; cbn [option_map]; [| discriminate].
  intros [= <-]. exists ms. cbn [series summary app]. auto.
Qed.

Lemma generateMonthlySeries_returns (fuel : nat) (p : Params num) (ms : list num) :
  monthsFrom (Math_round (years p * #12)) fuel #1 = Some ms ->
  let s := entriesFrom (rateOf p) (monthlyContribution p) ms
                       (initialCapital p) (initialCapital p) in
  generateMonthlySeries fuel p
  = Some (mkResult s (summarize p (calculateNetAnnualReturn (grossAnnualReturn p) (annualFee p))
                                (rateOf p) (Math_round (years p * #12)) s)).
Proof.
  intros Hms s. unfold generateMonthlySeries. cbv zeta. rewrite forLoop_entries.
  fold (rateOf p). rewrite Hms. reflexivity.
Qed.

Lemma futureValue_summarize (p : Params num) (net T : num) (s : list (Entry num)) :
  futureValue (summarize p net (rateOf p) T s)
  = if Number_isFinite (closedFormFutureValue (initialCapital p) (monthlyContribution p) (rateOf p) T)
    then closedFormFutureValue (initialCapital p) (monthlyContribution p) (rateOf p) T
    else lastTotalValueOr s (initialCapital p).
Proof. reflexivity. Qed.

Lemma futureValueReal_summarize (p : Params num) (net r T : num) (s : list (Entry num)) :
  futureValueReal (summarize p net r T s)
  = if inflationFactorOf p !== #0
    then futureValue (summarize p net r T s) / inflationFactorOf p
    else futureValue (summarize p net r T s).
Proof. reflexivity. Qed.

Lemma lastTotalValueOr_nil (P : num) : lastTotalValueOr [] P = P.
Proof. reflexivity. Qed.

Lemma lastTotalValueOr_snoc (s : list (Entry num)) (e : Entry num) (P : num) :
  lastTotalValueOr (s ++ [e]) P = totalValue e.
Proof.
  unfold lastTotalValueOr. rewrite length_app. cbn [length].
  replace (length s + 1 - 1)%nat with (length s) by lia.
  replace (0 <? length s + 1)%nat with true by (symmetry; apply Nat.ltb_lt; lia).
  rewrite nth_error_app2 by lia. rewrite Nat.sub_diag. reflexivity.
Qed.

(** What holds of every entry's totalValue and of the initial capital holds
    of the fallback value. *)
Lemma lastTotalValueOr_Forall (Q : num -> Prop) (s : list (Entry num)) (P : num) :
  Forall (fun e => Q (totalValue e)) s -> Q P -> Q (lastTotalValueOr s P).
Proof.
  intros Hs HP. unfold lastTotalValueOr.
  destruct (0 <? length s)%nat; [| exact HP].
  destruct (nth_error s (length s - 1)) as [e |] eqn:E; [| exact HP].
  apply nth_error_In in E. rewrite Forall_forall in Hs. now apply Hs.
Qed.

(** Every entry is pushed with [interestAccumulated = balance - totalContributed]. *)
Lemma entriesFrom_interest (r C : num) (ms : list num) :
  forall b c,
    Forall (fun e => interestAccumulated e = totalValue e - totalContributed e)
           (entriesFrom r C ms b c).
Proof.
  induction ms as [| m ms IH]; intros b c; cbn [entriesFrom]; constructor; auto.
Qed.

(** The real value of a result: the future value divided by the inflation
    factor, unless that factor is zero. *)
Lemma futureValueReal_of_result (fuel : nat) (p : Params num) (res : Result num) :
  generateMonthlySeries fuel p = Some res ->
  ((inflationFactorOf p === #0) = false ->
     futureValueReal (summary res) = futureValue (summary res) / inflationFactorOf p) /\
  ((inflationFactorOf p === #0) = true ->
     futureValueReal (summary res) = futureValue (summary res)).
Proof.
  intros Hres. destruct (generateMonthlySeries_inv _ _ _ Hres) as (ms & _ & _ & Hsum).
  rewrite Hsum, futureValueReal_summarize.
  split; intros ->; reflexivity.
Qed.

(** The future value of a result: the closed form when finite, else the
    fallback on the series. *)
Lemma futureValue_of_result (fuel : nat) (p : Params num) (res : Result num) :
  generateMonthlySeries fuel p = Some res ->
  futureValue (summary res)
  = if Number_isFinite (closedFormOf p) then closedFormOf p
    else lastTotalValueOr (series res) (initialCapital p).
Proof.
  intros Hres. destruct (generateMonthlySeries_inv _ _ _ Hres) as (ms & _ & _ & Hsum).
  rewrite Hsum at 1. apply futureValue_summarize.
Qed.

(** The summary records the rate and the month count the closed form uses. *)
Lemma summary_rate_and_months (fuel : nat) (p : Params num) (res : Result num) :
  generateMonthlySeries fuel p = Some res ->
  monthlyRate (summary res) = rateOf p /\
  totalMonths (summary res) = Math_round (years p * #12).
Proof.
  intros Hres. destruct (generateMonthlySeries_inv _ _ _ Hres) as (ms & _ & _ & Hsum).
  rewrite Hsum. split; reflexivity.
Qed.

Lemma futureValue_closed_form_when_finite (fuel : nat) (p : Params num) (res : Result num) :
  generateMonthlySeries fuel p = Some res ->
  Number_isFinite
    (closedFormFutureValue (initialCapital p) (monthlyContribution p)
       (monthlyRate (summary res)) (totalMonths (summary res))) = true ->
  futureValue (summary res)
  = closedFormFutureValue (initialCapital p) (monthlyContribution p)
      (monthlyRate (summary res)) (totalMonths (summary res)).
Proof.
  intros Hres. destruct (summary_rate_and_months _ _ _ Hres) as [-> ->].
  fold (closedFormOf p). intros Hfin.
  now rewrite (futureValue_of_result _ _ _ Hres), Hfin.
Qed.

Lemma series_interest_is_difference (fuel : nat) (p : Params num) (res : Result num) :
  generateMonthlySeries fuel p = Some res ->
  Forall (fun e => interestAccumulated e = totalValue e - totalContributed e) (series res).
Proof.
  intros Hres. destruct (generateMonthlySeries_inv _ _ _ Hres) as (ms & _ & -> & _).
  apply entriesFrom_interest.
Qed.

(** The two branches.  With base = 1 + netAnnualRate: the result is -1
    when base <= 0, and base^(1/12) - 1 otherwise. *)
Lemma calculateMonthlyRate_branches (netAnnualRate : num) :
  ((#1 + netAnnualRate <=? #0) = true -> calculateMonthlyRate netAnnualRate = #(-1)) /\
  ((#1 + netAnnualRate <=? #0) = false ->
     calculateMonthlyRate netAnnualRate = Math_pow (#1 + netAnnualRate) (#1 / #12) - #1).
Proof. unfold calculateMonthlyRate. split; intros ->; reflexivity. Qed.

(** One assignment to [errors] leaves it empty only if it was empty and
    the field passed its test. *)
Lemma errors_step_nil (c : bool) (errors : list ErrorKey) (k : ErrorKey) :
  (if c then errors ++ [k] else errors) = [] <-> c = false /\ errors = [].
Proof.
  destruct c; split.
  - intros H. apply app_eq_nil in H. destruct H as [_ H]. discriminate H.
  - intros [H _]. discriminate H.
  - auto.
  - intros [_ H]. exact H.
Qed.

Lemma rejected_false (a b : bool) : negb a || b = false <-> a = true /\ b = false.
Proof. destruct a, b; cbn; intuition congruence. Qed.

(** [validateInputs] reports no error exactly when every field passes. *)
Lemma validateInputs_nil (p : Params num) :
  validateInputs p = [] <->
  finite_nonneg (initialCapital p) /\
  finite_nonneg (monthlyContribution p) /\
  Number_isFinite (grossAnnualReturn p) = true /\
  finite_nonneg (annualFee p) /\
  finite_nonneg (annualInflation p) /\
  yearsAccepted (years p) = true.
Proof.
  unfold validateInputs, finite_nonneg, yearsAccepted. cbv zeta.
  rewrite !errors_step_nil, !rejected_false.
  destruct (Number_isFinite (grossAnnualReturn p)), (Number_isFinite (years p)),
    (years p <? #1), (#50 <? years p), (Number_isInteger (years p));
    cbn; intuition congruence.
Qed.

End EveryReading.

Lemma Forall_forallb_true {A : Type} (f : A -> bool) (l : list A) :
  Forall (fun x => f x = true) l -> forallb f l = true.
Proof. intros H. apply forallb_forall. now apply Forall_forall. Qed.

(** ** Facts of binary64 arithmetic *)

Module B64Facts.
Import B64 B64Check.
Local Open Scope float_scope.

Lemma SFmul_one_finite (s : bool) (m : positive) (e : Z) :
  valid_binary (S754_finite s m e) = true ->
  SF64mul (S754_finite s m e) one_SF = S754_finite s m e.
Proof.
  intros Hv.
  unfold SpecFloat.valid_binary, bounded, canonical_mantissa in Hv.
  apply andb_true_iff in Hv. destruct Hv as [Hc He].
  apply Z.eqb_eq in Hc.
  unfold SF64mul, SFmul, one_SF.
  rewrite xorb_false_r.
  unfold binary_round_aux.
  unfold shr_fexp at 1.
  rewrite (Pos.mul_comm m).
  cbn [Pos.mul].
  match goal with
  | |- context [shr _ _ ?d] =>
      assert (Hd : d = 52%Z);
      [ cbn [Zdigits2 digits2_pos]; rewrite !Pos2Z.inj_succ;
        match goal with
        | |- context [fexp prec emax ?a] =>
            replace a with (Z.pos (digits2_pos m) + e)%Z by lia
        end;
        rewrite Hc; lia
      | rewrite Hd ]
  end.
  cbn [shr shr_record_of_loc SpecFloat.iter_pos shr_1 shr_m shr_r shr_s orb].
  cbn [loc_of_shr_record round_nearest_even].
  unfold shr_fexp. cbn [Zdigits2].
  replace (e + -52 + 52)%Z with e by lia.
  rewrite Hc, Z.sub_diag.
  cbn [shr shr_record_of_loc shr_m].
  rewrite He. reflexivity.
Qed.

Lemma SFmul_one (x : spec_float) :
  valid_binary x = true -> SF64mul x one_SF = x.
Proof.
  destruct x as [s | s | | s m e]; intros Hv.
  - cbn. now rewrite xorb_false_r.
  - cbn. now rewrite xorb_false_r.
  - reflexivity.
  - now apply SFmul_one_finite.
Qed.

(** Multiplying by 1 returns the same double, whatever it is. *)
Lemma mul_one_r (x : float) : x * 1 = x.
Proof.
  apply Prim2SF_inj. rewrite FloatAxioms.mul_spec.
  change (Prim2SF 1) with one_SF.
  apply SFmul_one, Prim2SF_valid.
Qed.

(** [x === 0] holds of the two zeros only. *)
Lemma eqb_zero (x : float) : (x =? 0) = true -> x = 0 \/ x = -0.
Proof.
  rewrite FloatAxioms.eqb_spec.
  pose proof (SF2Prim_Prim2SF x) as Hx.
  destruct (Prim2SF x) as [s | s | | s m e]; unfold SFeqb; cbn.
  - intros _. destruct s; [right | left]; rewrite <- Hx; reflexivity.
  - destruct s; discriminate.
  - discriminate.
  - destruct s; discriminate.
Qed.

Lemma zero_rate_neutral_binary64 (pow : float -> float -> float) (rate : float) :
  zero_rate_neutral (JS := binary64 pow) rate.
Proof.
  intros b Hz. cbn in *.
  destruct (eqb_zero rate Hz) as [-> | ->].
  - change (1 + 0) with 1. apply mul_one_r.
  - change (1 + -0) with 1. apply mul_one_r.
Qed.

Lemma float_list_eqb_eq (a : list float) :
  forall b, float_list_eqb a b = true -> a = b.
Proof.
  induction a as [| x a IH]; intros [| y b]; cbn; try discriminate; [reflexivity |].
  intros H. apply andb_true_iff in H. destruct H as [Hxy Hab].
  apply FloatAxioms.Leibniz.eqb_spec in Hxy. subst y. f_equal. now apply IH.
Qed.

(** For each whole number of years from 1 to 50: [Math.round(years * 12)] is
    the integer [12 * years], and the loop counter runs through 1, 2, ...,
    [12 * years] and stops. *)
Lemma months_table (pow : float -> float -> float) :
  forallb (months_check pow) (map Z.of_nat (seq 1 50)) = true.
Proof. vm_compute. reflexivity. Qed.

Lemma months_of_years (pow : float -> float -> float) (y : Z) :
  (1 <= y <= 50)%Z ->
  let JS := binary64 pow in
  Math_round (#y * #12)%js = #(12 * y)%js /\
  monthsFrom #(12 * y)%js (S (Z.to_nat (12 * y))) #1%js
  = Some (map (fun m => #(Z.of_nat m)%js) (seq 1 (Z.to_nat (12 * y)))).
Proof.
  intros Hy JS.
  pose proof (months_table pow) as Ht.
  rewrite forallb_forall in Ht.
  assert (Hin : In y (map Z.of_nat (seq 1 50))).
  { apply in_map_iff. exists (Z.to_nat y). split; [lia |]. apply in_seq. lia. }
  specialize (Ht y Hin). unfold months_check in Ht. cbv zeta in Ht. fold JS in Ht.
  apply andb_true_iff in Ht. destruct Ht as [H1 H2].
  apply FloatAxioms.Leibniz.eqb_spec in H1. split; [exact H1 |].
  rewrite H1 in H2.
  destruct (monthsFrom _ _ _) as [ms |]; [| discriminate].
  apply float_list_eqb_eq in H2. now subst ms.
Qed.


(** *** The years [validateInputs] accepts *)

Local Open Scope Z_scope.

Lemma digits2_pos_bounds (p : positive) :
  2 ^ (Z.pos (digits2_pos p) - 1) <= Z.pos p < 2 ^ Z.pos (digits2_pos p).
Proof.
  induction p as [p IH | p IH |]; cbn [digits2_pos].
  - rewrite Pos2Z.inj_succ.
    replace (Z.succ (Z.pos (digits2_pos p)) - 1) with (Z.succ (Z.pos (digits2_pos p) - 1)) by lia.
    rewrite !Z.pow_succ_r by lia. lia.
  - rewrite Pos2Z.inj_succ.
    replace (Z.succ (Z.pos (digits2_pos p)) - 1) with (Z.succ (Z.pos (digits2_pos p) - 1)) by lia.
    rewrite !Z.pow_succ_r by lia. lia.
  - cbn. lia.
Qed.

Lemma small_integer_table (pow : float -> float -> float) :
  forallb (small_integer_check pow) (map Z.of_nat (seq 1 50)) = true.
Proof. vm_compute. reflexivity. Qed.

Lemma small_integer (pow : float -> float -> float) (k : Z) :
  1 <= k <= 50 ->
  yearsAccepted (JS := binary64 pow) (float_of_Z k) = true /\
  exists m e,
    Prim2SF (float_of_Z k) = S754_finite false m e /\
    Z.pos m = k * 2 ^ (- e) /\ 2 ^ 52 <= Z.pos m < 2 ^ 53 /\ -52 <= e <= -47.
Proof.
  intros Hk. pose proof (small_integer_table pow) as Ht. rewrite forallb_forall in Ht.
  assert (Hin : In k (map Z.of_nat (seq 1 50))).
  { apply in_map_iff. exists (Z.to_nat k). split; [lia |]. apply in_seq. lia. }
  specialize (Ht k Hin). unfold small_integer_check in Ht.
  destruct (Prim2SF (float_of_Z k)) as [| | | [] m e]; try discriminate.
  apply andb_true_iff in Ht. destruct Ht as [Hc Hy].
  split; [exact Hy |]. exists m, e.
  repeat (apply andb_true_iff in Hc; destruct Hc as [Hc ?]).
  repeat split; try (apply Z.eqb_eq; assumption); try (apply Z.leb_le; assumption);
    try (apply Z.ltb_lt; assumption).
Qed.

Lemma SFltb_pos_false_iff (m1 m2 : positive) (e1 e2 : Z) :
  SFltb (S754_finite false m1 e1) (S754_finite false m2 e2) = false ->
  e2 < e1 \/ (e1 = e2 /\ Z.pos m2 <= Z.pos m1).
Proof.
  unfold SFltb, SFcompare.
  destruct (Z.compare_spec e1 e2) as [E | E | E].
  - rewrite Pos.compare_cont_spec. cbn [Pos.switch_Eq]. rewrite Pos2Z.inj_compare.
    destruct (Z.compare_spec (Z.pos m1) (Z.pos m2)) as [E' | E' | E']; intros H;
      try discriminate; right; lia.
  - discriminate.
  - intros _. left. lia.
Qed.

Lemma yearsAccepted_inv_SF (k1 k50 : positive) (x : spec_float) :
  Z.pos k1 = 2 ^ 52 -> Z.pos k50 = 25 * 2 ^ 48 ->
  valid_binary x = true ->
  SFltb x (S754_finite false k1 (-52)) = false ->
  SFltb (S754_finite false k50 (-47)) x = false ->
  match x with
  | S754_zero _ => true
  | S754_finite _ m e => (0 <=? e)%Z || (Z.pos m mod 2 ^ (- e) =? 0)%Z
  | _ => false
  end = true ->
  exists (m : positive) (e q : Z),
    x = S754_finite false m e /\ 1 <= q <= 50 /\
    Z.pos m = q * 2 ^ (- e) /\ 2 ^ 52 <= Z.pos m < 2 ^ 53 /\ -52 <= e <= -47.
Proof.
  intros Hk1 Hk50 Hv H1 H50 Hint.
  destruct x as [s | s | | s m e]; try discriminate.
  - destruct s; [cbn in H1; discriminate H1 |].
    apply SFltb_pos_false_iff in H1, H50.
    unfold SpecFloat.valid_binary, bounded, canonical_mantissa in Hv.
    apply andb_true_iff in Hv. destruct Hv as [Hc _]. apply Z.eqb_eq in Hc.
    unfold SpecFloat.fexp in Hc.
    change (SpecFloat.emin prec emax) with (-1074) in Hc. change prec with 53 in Hc.
    assert (He : -52 <= e <= -47) by lia.
    replace (0 <=? e) with false in Hint by (symmetry; apply Z.leb_gt; lia).
    cbn [orb] in Hint. apply Z.eqb_eq in Hint.
    exists m, e, (Z.pos m / 2 ^ (- e)).
    split; [reflexivity |].
    assert (Hd : Z.pos (digits2_pos m) = 53) by lia.
    pose proof (digits2_pos_bounds m) as [Hlo Hhi]. rewrite Hd in Hlo, Hhi.
    change (53 - 1) with 52 in Hlo.
    assert (Hcases : e = -52 \/ e = -51 \/ e = -50 \/ e = -49 \/ e = -48 \/ e = -47) by lia.
    destruct Hcases as [-> | [-> | [-> | [-> | [-> | ->]]]]];
      match goal with
      | |- context [2 ^ (- ?c)] =>
          let v := eval vm_compute in (2 ^ (- c)) in
          change (2 ^ (- c)) with v in *
      end;
      change (2 ^ 52) with 4503599627370496 in *;
      change (2 ^ 53) with 9007199254740992 in *;
      change (25 * 2 ^ 48) with 7036874417766400 in *;
      match goal with
      | |- context [Z.pos m / ?c] =>
          pose proof (Z.div_mod (Z.pos m) c ltac:(lia)) as Hdm;
          rewrite Hint in Hdm; generalize dependent (Z.pos m / c); intros q Hdm
      end;
      lia.
Qed.

Lemma canonical_unique (q : Z) (m m' : positive) (e e' : Z) :
  Z.pos m = q * 2 ^ (- e) -> Z.pos m' = q * 2 ^ (- e') ->
  2 ^ 52 <= Z.pos m < 2 ^ 53 -> 2 ^ 52 <= Z.pos m' < 2 ^ 53 ->
  -52 <= e <= -47 -> -52 <= e' <= -47 ->
  m = m' /\ e = e'.
Proof.
  intros Hm Hm' Hb Hb' He He'.
  assert (Hc : e = -52 \/ e = -51 \/ e = -50 \/ e = -49 \/ e = -48 \/ e = -47) by lia.
  assert (Hc' : e' = -52 \/ e' = -51 \/ e' = -50 \/ e' = -49 \/ e' = -48 \/ e' = -47) by lia.
  change (2 ^ 52) with 4503599627370496 in *.
  change (2 ^ 53) with 9007199254740992 in *.
  destruct Hc as [-> | [-> | [-> | [-> | [-> | ->]]]]];
    destruct Hc' as [-> | [-> | [-> | [-> | [-> | ->]]]]];
    repeat match goal with
    | H : context [2 ^ (- ?c)] |- _ =>
        let v := eval vm_compute in (2 ^ (- c)) in
        change (2 ^ (- c)) with v in H
    end;
    (split; [apply Pos2Z.inj |]; lia).
Qed.

Local Close Scope Z_scope.

(** [validateInputs] accepts exactly the doubles 1, 2, ..., 50 as [years]. *)
Lemma yearsAccepted_binary64 (pow : float -> float -> float) (y : float) :
  yearsAccepted (JS := binary64 pow) y = true
  <-> exists k : Z, (1 <= k <= 50)%Z /\ y = float_of_Z k.
Proof.
  split.
  - unfold yearsAccepted. cbn [Number_isFinite Number_isInteger js_lt js_lit binary64].
    intros H.
    apply andb_true_iff in H. destruct H as [H Hint].
    apply andb_true_iff in H. destruct H as [H H50].
    apply andb_true_iff in H. destruct H as [_ H1].
    apply negb_true_iff in H1, H50.
    rewrite FloatAxioms.ltb_spec in H1, H50.
    change (Prim2SF (float_of_Z 1)) with (S754_finite false 4503599627370496 (-52)) in H1.
    change (Prim2SF (float_of_Z 50)) with (S754_finite false 7036874417766400 (-47)) in H50.
    unfold isInteger in Hint.
    destruct (yearsAccepted_inv_SF 4503599627370496 7036874417766400 (Prim2SF y)
                eq_refl eq_refl (Prim2SF_valid y) H1 H50 Hint)
      as (m & e & q & Hy & Hq & Hm & Hb & He).
    exists q. split; [exact Hq |].
    destruct (small_integer pow q Hq) as (_ & m' & e' & Hq' & Hm' & Hb' & He').
    destruct (canonical_unique q m m' e e' Hm Hm' Hb Hb' He He') as [-> ->].
    apply Prim2SF_inj. now rewrite Hy, Hq'.
  - intros (k & Hk & ->). now apply small_integer.
Qed.

(** In binary64 [validateInputs] reports no error exactly on the valid
    inputs. *)
Lemma validateInputs_binary64 (pow : float -> float -> float) (p : Params float) :
  validateInputs (JS := binary64 pow) p = [] <-> valid_input (JS := binary64 pow) p.
Proof.
  rewrite validateInputs_nil. unfold valid_input.
  rewrite (yearsAccepted_binary64 pow (years p)). reflexivity.
Qed.

(** *** The sign of [1 + x]

    A binary64 addition never rounds a non-zero sum to zero, so the sign of
    [1 + x] is the sign of the exact sum. *)

Local Open Scope Z_scope.

Lemma shr_1_m (mrs : shr_record) :
  0 <= shr_m mrs -> shr_m (shr_1 mrs) = Z.div2 (shr_m mrs).
Proof.
  destruct mrs as [m r s]. cbn [shr_m].
  destruct m as [| p | p]; [reflexivity | | lia].
  intros _. destruct p; reflexivity.
Qed.

Lemma div2_nonneg (z : Z) : 0 <= z -> 0 <= Z.div2 z.
Proof. intros H. rewrite Z.div2_div. apply Z.div_pos; lia. Qed.

Lemma iter_shr_m (n : positive) :
  forall mrs, 0 <= shr_m mrs ->
    shr_m (SpecFloat.iter_pos shr_1 n mrs) = Z.shiftr (shr_m mrs) (Z.pos n).
Proof.
  induction n as [n IH | n IH |]; intros mrs Hm; cbn [SpecFloat.iter_pos].
  - assert (H1 : 0 <= shr_m (shr_1 mrs)) by (rewrite shr_1_m by exact Hm; now apply div2_nonneg).
    assert (H2 : 0 <= shr_m (SpecFloat.iter_pos shr_1 n (shr_1 mrs))).
    { rewrite IH by exact H1. apply Z.shiftr_nonneg. exact H1. }
    rewrite IH by exact H2. rewrite IH by exact H1. rewrite shr_1_m by exact Hm.
    rewrite Z.div2_spec. rewrite !Z.shiftr_shiftr by lia. f_equal. lia.
  - assert (H2 : 0 <= shr_m (SpecFloat.iter_pos shr_1 n mrs)).
    { rewrite IH by exact Hm. apply Z.shiftr_nonneg. exact Hm. }
    rewrite IH by exact H2. rewrite IH by exact Hm.
    rewrite !Z.shiftr_shiftr by lia. f_equal. lia.
  - rewrite shr_1_m by exact Hm. now rewrite Z.div2_spec.
Qed.

(** Shifting a positive mantissa to its format exponent leaves it positive. *)
Lemma shr_fexp_pos (p : positive) (e : Z) (l : location) :
  -1074 <= e ->
  exists q e', 
    shr_m (fst (shr_fexp prec emax (Z.pos p) e l)) = Z.pos q /\
    snd (shr_fexp prec emax (Z.pos p) e l) = e' /\ -1074 <= e'.
Proof.
  intros He. unfold shr_fexp, shr. cbn [Zdigits2].
  set (d := Z.pos (digits2_pos p)).
  assert (Hfexp : fexp prec emax (d + e) = Z.max (d + e - 53) (-1074)) by reflexivity.
  destruct (fexp prec emax (d + e) - e) as [| k | k] eqn:Ek.
  - exists p, e. cbn. destruct l as [| []]; cbn; auto.
  - cbn [fst snd]. rewrite iter_shr_m by (destruct l as [| []]; cbn; lia).
    assert (Hk : Z.pos k = d - 53) by lia.
    pose proof (digits2_pos_bounds p) as [Hlo _]. fold d in Hlo.
    assert (Hs : 0 < Z.shiftr (Z.pos p) (Z.pos k)).
    { rewrite Z.shiftr_div_pow2 by lia.
      apply Z.div_str_pos. split; [apply Z.pow_pos_nonneg; lia |].
      eapply Z.le_trans; [| exact Hlo]. apply Z.pow_le_mono_r; lia. }
    replace (shr_m (shr_record_of_loc (Z.pos p) l)) with (Z.pos p) by (destruct l as [| []]; reflexivity).
    destruct (Z.shiftr (Z.pos p) (Z.pos k)) as [| q | q]; try lia.
    exists q, (e + Z.pos k). repeat split. lia.
  - exists p, e. cbn. destruct l as [| []]; cbn; auto.
Qed.

Lemma round_nearest_even_pos (q : positive) (l : location) :
  exists q', round_nearest_even (Z.pos q) l = Z.pos q'.
Proof.
  destruct l as [| []]; cbn [round_nearest_even].
  - now exists q.
  - destruct (IntDef.Z.even (Z.pos q)); [now exists q | exists (q + 1)%positive; lia].
  - now exists q.
  - exists (q + 1)%positive; lia.
Qed.

Lemma binary_round_aux_pos (sx : bool) (p : positive) (e : Z) (l : location) :
  -1074 <= e -> signed_nonzero sx (binary_round_aux prec emax sx (Z.pos p) e l).
Proof.
  intros He. unfold binary_round_aux.
  destruct (shr_fexp_pos p e l He) as (q & e' & Hq & He' & Hle).
  destruct (shr_fexp prec emax (Z.pos p) e l) as [mrs' e1]. cbn [fst snd] in Hq, He'. subst e1.
  rewrite Hq.
  destruct (round_nearest_even_pos q (loc_of_shr_record mrs')) as [q' ->].
  destruct (shr_fexp_pos q' e' loc_Exact Hle) as (q'' & e'' & Hq'' & He'' & _).
  destruct (shr_fexp prec emax (Z.pos q') e' loc_Exact) as [mrs'' e2].
  cbn [fst snd] in Hq'', He''. subst e2. rewrite Hq''.
  destruct (e'' <=? emax - prec); [left; eauto | right; reflexivity].
Qed.

Lemma binary_round_pos (sx : bool) (p : positive) (e : Z) :
  -1074 <= e -> signed_nonzero sx (binary_round prec emax sx p e).
Proof.
  intros He. unfold binary_round.
  assert (Hf : -1074 <= fexp prec emax (Z.pos (digits2_pos p) + e)).
  { unfold fexp. change (SpecFloat.emin prec emax) with (-1074). lia. }
  unfold shl_align.
  destruct (fexp prec emax (Z.pos (digits2_pos p) + e) - e) eqn:E;
    apply binary_round_aux_pos; lia.
Qed.

Lemma signed_nonzero_le_zero (sx : bool) (r : spec_float) :
  signed_nonzero sx r -> SFleb r (S754_zero false) = sx.
Proof.
  intros [(m & e & ->) | ->]; destruct sx; reflexivity.
Qed.

Lemma iter_xO (d p : positive) : Z.pos (Pos.iter xO p d) = Z.pos p * 2 ^ Z.pos d.
Proof.
  revert p. induction d as [| d IH] using Pos.peano_ind; intros p.
  - cbn. lia.
  - rewrite Pos.iter_succ, Pos2Z.inj_succ, Z.pow_succ_r by lia.
    rewrite Pos2Z.inj_xO, IH. ring.
Qed.

Lemma valid_finite_bounds (s : bool) (m : positive) (e : Z) :
  valid_binary (S754_finite s m e) = true ->
  -1074 <= e /\ Z.pos m < 2 ^ 53 /\ (-1074 < e -> 2 ^ 52 <= Z.pos m).
Proof.
  unfold SpecFloat.valid_binary, bounded, canonical_mantissa.
  intros H. apply andb_true_iff in H. destruct H as [Hc _]. apply Z.eqb_eq in Hc.
  unfold SpecFloat.fexp in Hc.
  change (SpecFloat.emin prec emax) with (-1074) in Hc. change prec with 53 in Hc.
  pose proof (digits2_pos_bounds m) as [Hlo Hhi].
  assert (Hd : Z.pos (digits2_pos m) <= 53) by lia.
  split; [lia |]. split.
  - eapply Z.lt_le_trans; [exact Hhi |]. apply Z.pow_le_mono_r; lia.
  - intros He. assert (Hd' : Z.pos (digits2_pos m) = 53) by lia.
    rewrite Hd' in Hlo. exact Hlo.
Qed.

Lemma SFadd_one_le_zero_gen (k : positive) (x : spec_float) :
  Z.pos k = 2 ^ 52 ->
  valid_binary x = true ->
  SFleb (SF64add (S754_finite false k (-52)) x) (S754_zero false)
  = SFleb x (S754_finite true k (-52)).
Proof.
  intros Hk Hv. destruct x as [s | s | | s m e]; try (destruct s; reflexivity); [reflexivity |].
  destruct (valid_finite_bounds s m e Hv) as (He & Hhi & Hlo).
  assert (H53 : 2 ^ 53 = 2 * 2 ^ 52) by reflexivity.
  assert (Hk0 : 0 < 2 ^ 52) by reflexivity.
  unfold SF64add, SFadd.
  cbv zeta. change IntDef.Z.min with Z.min.
  destruct s.
  - (* negative *)
    destruct (Z_lt_le_dec e (-52)) as [Hlt | Hge].
    + (* |x| < 1 : positive sum *)
      replace (Z.min (-52) e) with e by lia.
      unfold shl_align. rewrite Z.sub_diag.
      destruct (e - -52) as [| d | d] eqn:Ed; try lia.
      cbn [fst cond_Zopp]. rewrite iter_xO.
      assert (Hpow : 2 <= 2 ^ Z.pos d) by (change 2 with (2 ^ 1) at 1; apply Z.pow_le_mono_r; lia).
      assert (Hsum : 0 < Z.pos k * 2 ^ Z.pos d + - Z.pos m) by nia.
      destruct (Z.pos k * 2 ^ Z.pos d + - Z.pos m) as [| q | q] eqn:Eq; try lia.
      cbn [binary_normalize].
      rewrite (signed_nonzero_le_zero false) by (apply binary_round_pos; exact He).
      unfold SFleb, SFcompare.
      replace (e ?= -52) with Lt by (symmetry; apply Z.compare_lt_iff; lia). reflexivity.
    + (* |x| >= 1 : sum <= 0 *)
      replace (Z.min (-52) e) with (-52) by lia.
      assert (Hm : 2 ^ 52 <= Z.pos m) by (apply Hlo; lia).
      assert (Hrhs : SFleb (S754_finite true m e) (S754_finite true k (-52)) = true).
      { unfold SFleb, SFcompare.
        destruct (Z.compare_spec e (-52)) as [E | E | E].
        - rewrite Pos.compare_cont_spec. cbn [Pos.switch_Eq]. rewrite Pos2Z.inj_compare.
          destruct (Z.compare_spec (Z.pos m) (Z.pos k)) as [E' | E' | E'];
            [reflexivity | lia | reflexivity].
        - lia.
        - reflexivity. }
      rewrite Hrhs.
      unfold shl_align. rewrite Z.sub_diag. cbn [fst].
      destruct (-52 - e) as [| d | d] eqn:Ed; try lia; cbn [fst cond_Zopp].
      * destruct (Z.pos k + - Z.pos m) as [| q | q] eqn:Eq; try lia.
        -- reflexivity.
        -- cbn [binary_normalize].
           apply (signed_nonzero_le_zero true). apply binary_round_pos. lia.
      * rewrite iter_xO.
        assert (Hpow : 0 < 2 ^ Z.pos d) by (apply Z.pow_pos_nonneg; lia).
        destruct (Z.pos k + - (Z.pos m * 2 ^ Z.pos d)) as [| q | q] eqn:Eq; try nia.
        -- reflexivity.
        -- cbn [binary_normalize].
           apply (signed_nonzero_le_zero true). apply binary_round_pos. lia.
  - (* positive *)
    assert (Hrhs : SFleb (S754_finite false m e) (S754_finite true k (-52)) = false)
      by reflexivity.
    rewrite Hrhs.
    cbn [cond_Zopp].
    match goal with
    | |- SFleb (binary_normalize _ _ (Z.pos ?a + Z.pos ?b) ?ez _) _ = _ =>
        change (Z.pos a + Z.pos b) with (Z.pos (a + b)); cbn [binary_normalize];
        apply (signed_nonzero_le_zero false); apply binary_round_pos
    end.
    lia.
Qed.

Local Close Scope Z_scope.

(** The guard of [calculateMonthlyRate]: [1 + x <= 0] holds exactly when
    [x <= -1], for every double [x]. *)
Lemma add_one_le_zero (x : float) : (1 + x <=? 0) = (x <=? -1).
Proof.
  rewrite !FloatAxioms.leb_spec, FloatAxioms.add_spec.
  change (Prim2SF 0) with (S754_zero false).
  change (Prim2SF 1) with (S754_finite false 4503599627370496 (-52)).
  change (Prim2SF (-1)) with (S754_finite true 4503599627370496 (-52)).
  apply SFadd_one_le_zero_gen; [reflexivity | apply Prim2SF_valid].
Qed.

(** In binary64 the guard of [calculateMonthlyRate] tests
    [netAnnualRate <= -1]. *)
Lemma calculateMonthlyRate_binary64 (pow : float -> float -> float) (net : float) :
  calculateMonthlyRate (JS := binary64 pow) net
  = if net <=? -1 then -1 else pow (1 + net) (1 / 12) - 1.
Proof.
  unfold calculateMonthlyRate. cbn [js_le js_add js_sub js_div js_lit Math_pow binary64].
  change (float_of_Z 1) with 1. change (float_of_Z 0) with 0.
  change (float_of_Z 12) with 12. change (float_of_Z (-1)) with (-1).
  now rewrite add_one_le_zero.
Qed.

(** *** Arithmetic with a zero *)

Lemma isFinite_SF (x : float) :
  isFinite x = true ->
  (exists s, Prim2SF x = S754_zero s) \/ (exists s m e, Prim2SF x = S754_finite s m e).
Proof.
  unfold isFinite, is_nan, is_infinity.
  rewrite !FloatAxioms.eqb_spec, FloatAxioms.abs_spec.
  destruct (Prim2SF x) as [s | s | | s m e]; cbn.
  - intros _. left. now exists s.
  - destruct s; discriminate.
  - discriminate.
  - intros _. right. now exists s, m, e.
Qed.

Lemma SFeqb_refl_finite (s : bool) (m : positive) (e : Z) :
  SFeqb (S754_finite s m e) (S754_finite s m e) = true.
Proof.
  unfold SFeqb, SFcompare. rewrite Z.compare_refl.
  destruct s; rewrite ?Pos.compare_cont_refl; cbn; try reflexivity.
Qed.

Lemma zero_of_SF (x : float) (s : bool) : Prim2SF x = S754_zero s -> x = 0 \/ x = -0.
Proof.
  intros H. rewrite <- (SF2Prim_Prim2SF x), H. destruct s; cbn; auto.
Qed.

(** A finite double times a zero is a zero. *)
Lemma mul_zero_r (x z : float) :
  z = 0 \/ z = -0 -> isFinite x = true -> x * z = 0 \/ x * z = -0.
Proof.
  intros Hz Hx.
  assert (H : exists s', Prim2SF (x * z) = S754_zero s').
  { rewrite FloatAxioms.mul_spec.
    destruct (isFinite_SF x Hx) as [[s Hs] | (s & m & e & Hs)]; rewrite Hs;
      destruct Hz as [-> | ->]; cbn; eauto. }
  destruct H as [s' H]. exact (zero_of_SF _ _ H).
Qed.

Lemma mul_zero_l (z x : float) :
  z = 0 \/ z = -0 -> isFinite x = true -> z * x = 0 \/ z * x = -0.
Proof.
  intros Hz Hx.
  assert (H : exists s', Prim2SF (z * x) = S754_zero s').
  { rewrite FloatAxioms.mul_spec.
    destruct (isFinite_SF x Hx) as [[s Hs] | (s & m & e & Hs)]; rewrite Hs;
      destruct Hz as [-> | ->]; cbn; eauto. }
  destruct H as [s' H]. exact (zero_of_SF _ _ H).
Qed.

(** A zero plus a finite double is that double, up to the sign of zero. *)
Lemma add_zero_l (z x : float) :
  z = 0 \/ z = -0 -> isFinite x = true ->
  isFinite (z + x) = true /\ (z + x =? x) = true.
Proof.
  intros Hz Hx.
  assert (Hsum : (exists s, Prim2SF (z + x) = S754_zero s /\ exists s', Prim2SF x = S754_zero s')
                 \/ z + x = x).
  { destruct (isFinite_SF x Hx) as [[s Hs] | (s & m & e & Hs)].
    - left. rewrite FloatAxioms.add_spec, Hs.
      destruct Hz as [-> | ->]; destruct s; cbn; eauto.
    - right. apply Prim2SF_inj. rewrite FloatAxioms.add_spec, Hs.
      destruct Hz as [-> | ->]; reflexivity. }
  destruct Hsum as [(s & Hs & s' & Hs') | ->].
  - split.
    + unfold isFinite, is_nan, is_infinity.
      rewrite !FloatAxioms.eqb_spec, FloatAxioms.abs_spec, Hs. reflexivity.
    + rewrite FloatAxioms.eqb_spec, Hs, Hs'. reflexivity.
  - split; [exact Hx |].
    rewrite FloatAxioms.eqb_spec.
    destruct (isFinite_SF x Hx) as [[s Hs] | (s & m & e & Hs)]; rewrite Hs.
    + reflexivity.
    + apply SFeqb_refl_finite.
Qed.

(** A finite double plus a zero is that double, up to the sign of zero. *)
Lemma add_zero_r (x z : float) :
  z = 0 \/ z = -0 -> isFinite x = true -> (x + z =? x) = true.
Proof.
  intros Hz Hx. rewrite FloatAxioms.eqb_spec, FloatAxioms.add_spec.
  destruct (isFinite_SF x Hx) as [[s Hs] | (s & m & e & Hs)]; rewrite Hs.
  - destruct Hz as [-> | ->]; destruct s; reflexivity.
  - replace (SF64add (S754_finite s m e) (Prim2SF z)) with (S754_finite s m e)
      by (destruct Hz as [-> | ->]; reflexivity).
    apply SFeqb_refl_finite.
Qed.

Lemma months_finite_table : forallb months_finite_check (map Z.of_nat (seq 1 50)) = true.
Proof. vm_compute. reflexivity. Qed.

Lemma months_finite (y : Z) :
  (1 <= y <= 50)%Z ->
  isFinite (float_of_Z (12 * y)) = true /\
  exponentiate_special 0 (float_of_Z (12 * y)) = Some 0.
Proof.
  intros Hy. pose proof months_finite_table as Ht. rewrite forallb_forall in Ht.
  assert (Hin : In y (map Z.of_nat (seq 1 50))).
  { apply in_map_iff. exists (Z.to_nat y). split; [lia |]. apply in_seq. lia. }
  specialize (Ht y Hin). unfold months_finite_check in Ht.
  apply andb_true_iff in Ht. destruct Ht as [Hf He]. split; [exact Hf |].
  destruct (exponentiate_special 0 (float_of_Z (12 * y))) as [v |]; [| discriminate].
  apply FloatAxioms.Leibniz.eqb_spec in He. now subst v.
Qed.

(** *** NaN and zero in the closed form *)

Lemma nan_of_SF (x : float) : Prim2SF x = S754_nan -> x = nan.
Proof. intros H. rewrite <- (SF2Prim_Prim2SF x), H. reflexivity. Qed.

(** A finite double plus a zero is finite. *)
Lemma add_zero_r_finite (x z : float) :
  z = 0 \/ z = -0 -> isFinite x = true -> isFinite (x + z) = true.
Proof.
  intros Hz Hx. unfold isFinite, is_nan, is_infinity.
  rewrite !FloatAxioms.eqb_spec, FloatAxioms.abs_spec, FloatAxioms.add_spec.
  destruct (isFinite_SF x Hx) as [[s Hs] | (s & m & e & Hs)]; rewrite Hs.
  - destruct Hz as [-> | ->]; destruct s; reflexivity.
  - replace (SF64add (S754_finite s m e) (Prim2SF z)) with (S754_finite s m e)
      by (destruct Hz as [-> | ->]; reflexivity).
    rewrite SFeqb_refl_finite. cbn. destruct s; reflexivity.
Qed.

(** Zero divided by anything is a zero or NaN. *)
Lemma zero_div (r : float) : 0 / r = 0 \/ 0 / r = -0 \/ 0 / r = nan.
Proof.
  assert (H : (exists s, Prim2SF (0 / r) = S754_zero s) \/ Prim2SF (0 / r) = S754_nan).
  { rewrite FloatAxioms.div_spec. change (Prim2SF 0) with (S754_zero false).
    destruct (Prim2SF r) as [s | s | | s m e]; cbn; eauto. }
  destruct H as [[s H] | H].
  - destruct (zero_of_SF _ _ H); auto.
  - right. right. now apply nan_of_SF.
Qed.

Lemma mul_nan_r (x : float) : x * nan = nan.
Proof.
  apply nan_of_SF. rewrite FloatAxioms.mul_spec. change (Prim2SF nan) with S754_nan.
  destruct (Prim2SF x); reflexivity.
Qed.

Lemma add_nan_r (x : float) : x + nan = nan.
Proof.
  apply nan_of_SF. rewrite FloatAxioms.add_spec. change (Prim2SF nan) with S754_nan.
  destruct (Prim2SF x); reflexivity.
Qed.

Lemma eqb_refl_finite (x : float) : isFinite x = true -> (x =? x) = true.
Proof.
  unfold isFinite, is_nan. intros H. apply negb_true_iff, orb_false_iff in H.
  destruct H as [H _]. now apply negb_false_iff in H.
Qed.

(** *** Rounding within a bound

    A rounding cuts the mantissa to 53 bits and moves it by at most one unit:
    the result is at most any double the exact value is at most.  This
    bounds differences and quotients without computing them. *)

Local Open Scope Z_scope.

Lemma loc_of_shr_record_of_loc (m : Z) (l : location) :
  loc_of_shr_record (shr_record_of_loc m l) = l.
Proof. destruct l as [| []]; reflexivity. Qed.

Lemma shr_m_of_loc (m : Z) (l : location) : shr_m (shr_record_of_loc m l) = m.
Proof. destruct l as [| []]; reflexivity. Qed.

Lemma shr_1_exact (mrs : shr_record) :
  0 <= shr_m mrs ->
  loc_of_shr_record (shr_1 mrs) = loc_Exact ->
  loc_of_shr_record mrs = loc_Exact /\ shr_m mrs = 2 * shr_m (shr_1 mrs).
Proof.
  destruct mrs as [m r s]. cbn [shr_m].
  destruct m as [| p | p]; [| | lia]; intros _.
  - destruct r, s; cbn; intros H; try discriminate H. auto.
  - destruct p, r, s; cbn; intros H; try discriminate H; auto.
Qed.

Lemma iter_shr_nonneg (n : positive) (mrs : shr_record) :
  0 <= shr_m mrs -> 0 <= shr_m (SpecFloat.iter_pos shr_1 n mrs).
Proof.
  intros H. rewrite iter_shr_m by exact H. now apply Z.shiftr_nonneg.
Qed.

Lemma iter_shr_exact (n : positive) :
  forall mrs, 0 <= shr_m mrs ->
    loc_of_shr_record (SpecFloat.iter_pos shr_1 n mrs) = loc_Exact ->
    loc_of_shr_record mrs = loc_Exact /\
    shr_m mrs = shr_m (SpecFloat.iter_pos shr_1 n mrs) * 2 ^ Z.pos n.
Proof.
  induction n as [n IH | n IH |]; intros mrs Hm; cbn [SpecFloat.iter_pos].
  - intros H.
    assert (H1 : 0 <= shr_m (shr_1 mrs)) by (rewrite shr_1_m by exact Hm; now apply div2_nonneg).
    pose proof (iter_shr_nonneg n _ H1) as H2.
    destruct (IH _ H2 H) as [Ha Hb].
    destruct (IH _ H1 Ha) as [Hc Hd].
    destruct (shr_1_exact _ Hm Hc) as [He Hf].
    split; [exact He |].
    rewrite Hf, Hd, Hb.
    assert (E : 2 ^ Z.pos n~1 = 2 * 2 ^ Z.pos n * 2 ^ Z.pos n).
    { replace (Z.pos n~1) with (Z.pos n + Z.pos n + 1) by lia.
      rewrite !Z.pow_add_r by lia. change (2 ^ 1) with 2. ring. }
    rewrite E. ring.
  - intros H.
    pose proof (iter_shr_nonneg n _ Hm) as H2.
    destruct (IH _ H2 H) as [Ha Hb].
    destruct (IH _ Hm Ha) as [Hc Hd].
    split; [exact Hc |].
    rewrite Hd, Hb.
    assert (E : 2 ^ Z.pos n~0 = 2 ^ Z.pos n * 2 ^ Z.pos n).
    { replace (Z.pos n~0) with (Z.pos n + Z.pos n) by lia.
      now rewrite !Z.pow_add_r by lia. }
    rewrite E. ring.
  - intros H. destruct (shr_1_exact _ Hm H) as [He Hf].
    split; [exact He |]. rewrite Hf. change (2 ^ 1) with 2. ring.
Qed.

Lemma Zdigits2_bounds (q : Z) :
  0 < q -> 2 ^ (Zdigits2 q - 1) <= q < 2 ^ Zdigits2 q.
Proof.
  destruct q as [| p | p]; try lia. intros _. apply digits2_pos_bounds.
Qed.

Lemma Zdigits2_nonneg (q : Z) : 0 <= Zdigits2 q.
Proof. destruct q; cbn; lia. Qed.

(** The first step of a rounding: the mantissa is cut to the format's
    exponent, and what is cut off is recorded. *)
Lemma shr_fexp_spec (q e : Z) (l : location) :
  0 <= q ->
  let r := shr_fexp prec emax q e l in
  let m1 := shr_m (fst r) in
  let e1 := snd r in
  let l1 := loc_of_shr_record (fst r) in
  exists n, 0 <= n /\ e1 = e + n /\ e1 = Z.max e (fexp prec emax (Zdigits2 q + e)) /\
    m1 = q / 2 ^ n /\
    (l1 = loc_Exact -> l = loc_Exact /\ q = m1 * 2 ^ n).
Proof.
  intros Hq. cbv zeta. unfold shr_fexp, shr.
  assert (Hid : forall z, z <= 0 -> fexp prec emax (Zdigits2 q + e) - e = z ->
            exists n, 0 <= n /\ e = e + n /\ e = Z.max e (fexp prec emax (Zdigits2 q + e)) /\
              shr_m (shr_record_of_loc q l) = q / 2 ^ n /\
              (loc_of_shr_record (shr_record_of_loc q l) = loc_Exact ->
               l = loc_Exact /\ q = shr_m (shr_record_of_loc q l) * 2 ^ n)).
  { intros z Hz Ez. exists 0. rewrite shr_m_of_loc, loc_of_shr_record_of_loc.
    split; [lia |]. split; [lia |]. split; [lia |].
    split; [now rewrite Z.div_1_r |]. intros ->. split; [reflexivity | cbn; lia]. }
  destruct (fexp prec emax (Zdigits2 q + e) - e) as [| k | k] eqn:Ek; cbn [fst snd].
  - apply (Hid 0); [lia | reflexivity].
  - exists (Z.pos k).
    assert (H0 : 0 <= shr_m (shr_record_of_loc q l)) by now rewrite shr_m_of_loc.
    rewrite iter_shr_m by exact H0. rewrite shr_m_of_loc.
    split; [lia |]. split; [lia |]. split; [lia |].
    split; [now rewrite Z.shiftr_div_pow2 by lia |].
    intros H. destruct (iter_shr_exact k _ H0 H) as [Ha Hb].
    rewrite loc_of_shr_record_of_loc in Ha. split; [exact Ha |].
    rewrite shr_m_of_loc in Hb. rewrite Hb at 1.
    rewrite iter_shr_m by exact H0. now rewrite shr_m_of_loc.
  - apply (Hid (Z.neg k)); [lia | reflexivity].
Qed.

Lemma round_nearest_even_bounds (m : Z) (l : location) :
  m <= round_nearest_even m l <= m + loc_excess l.
Proof.
  destruct l as [| []]; cbn [round_nearest_even loc_excess]; try lia.
  destruct (IntDef.Z.even m); lia.
Qed.

Lemma fexp_eq (x : Z) : fexp prec emax x = Z.max (x - 53) (-1074).
Proof. reflexivity. Qed.

Lemma shr_1_exact_conv (mrs : shr_record) (k : Z) :
  0 <= k ->
  loc_of_shr_record mrs = loc_Exact -> shr_m mrs = 2 * k ->
  loc_of_shr_record (shr_1 mrs) = loc_Exact /\ shr_m (shr_1 mrs) = k.
Proof.
  destruct mrs as [m [] []]; cbn [loc_of_shr_record shr_m]; intros Hk H; try discriminate H.
  intros ->. destruct k as [| p | p]; [| | lia]; cbn; auto.
Qed.

Lemma iter_shr_exact_conv (n : positive) :
  forall mrs k, 0 <= k ->
    loc_of_shr_record mrs = loc_Exact -> shr_m mrs = k * 2 ^ Z.pos n ->
    loc_of_shr_record (SpecFloat.iter_pos shr_1 n mrs) = loc_Exact /\
    shr_m (SpecFloat.iter_pos shr_1 n mrs) = k.
Proof.
  induction n as [n IH | n IH |]; intros mrs k Hk Hl Hm; cbn [SpecFloat.iter_pos].
  - assert (E : 2 ^ Z.pos n~1 = 2 * 2 ^ Z.pos n * 2 ^ Z.pos n).
    { replace (Z.pos n~1) with (Z.pos n + Z.pos n + 1) by lia.
      rewrite !Z.pow_add_r by lia. change (2 ^ 1) with 2. ring. }
    assert (Hp : 0 < 2 ^ Z.pos n) by (apply Z.pow_pos_nonneg; lia).
    destruct (shr_1_exact_conv mrs (k * 2 ^ Z.pos n * 2 ^ Z.pos n)) as [Ha Hb];
      [nia | exact Hl | rewrite Hm, E; ring |].
    destruct (IH _ (k * 2 ^ Z.pos n) ltac:(nia) Ha Hb) as [Hc Hd].
    exact (IH _ k Hk Hc Hd).
  - assert (E : 2 ^ Z.pos n~0 = 2 ^ Z.pos n * 2 ^ Z.pos n).
    { replace (Z.pos n~0) with (Z.pos n + Z.pos n) by lia.
      now rewrite !Z.pow_add_r by lia. }
    assert (Hp : 0 < 2 ^ Z.pos n) by (apply Z.pow_pos_nonneg; lia).
    destruct (IH mrs (k * 2 ^ Z.pos n) ltac:(nia) Hl ltac:(rewrite Hm, E; ring)) as [Hc Hd].
    exact (IH _ k Hk Hc Hd).
  - apply shr_1_exact_conv; [exact Hk | exact Hl |]. rewrite Hm. change (2 ^ 1) with 2. ring.
Qed.

(** What the first step records as cut off is nothing exactly when nothing
    was recorded before and the mantissa is a multiple of the power of two
    it is divided by. *)
Lemma shr_fexp_exact_conv (q e : Z) (l : location) (k n : Z) :
  0 <= k -> 0 <= n ->
  snd (shr_fexp prec emax q e l) = e + n ->
  l = loc_Exact -> q = k * 2 ^ n ->
  loc_of_shr_record (fst (shr_fexp prec emax q e l)) = loc_Exact.
Proof.
  intros Hk Hn. unfold shr_fexp, shr.
  destruct (fexp prec emax (Zdigits2 q + e) - e) as [| p | p] eqn:Ek; cbn [fst snd];
    intros He -> Hq; try reflexivity.
  assert (n = Z.pos p) by lia. subst n.
  now destruct (iter_shr_exact_conv p (shr_record_of_loc q loc_Exact) k Hk eq_refl Hq).
Qed.

Lemma pow2_lt_inv (a b : Z) : 0 <= b -> 2 ^ a < 2 ^ b -> a < b.
Proof.
  intros Hb H. destruct (Z_lt_le_dec a b) as [Hl | Hl]; [exact Hl |].
  assert (2 ^ b <= 2 ^ a) by (apply Z.pow_le_mono_r; lia). lia.
Qed.

Lemma binary_round_aux_le (sx : bool) (q e : Z) (l : location) (mb : positive) (eb : Z) :
  0 <= q -> -1074 <= eb <= 971 -> Z.pos mb < 2 ^ 53 -> e <= eb ->
  q + loc_excess l <= Z.pos mb * 2 ^ (eb - e) ->
  rounds_within sx (binary_round_aux prec emax sx q e l) mb eb.
Proof.
  intros Hq Heb Hmb He Hle. unfold binary_round_aux.
  pose proof (shr_fexp_spec q e l Hq) as H1. cbv zeta in H1.
  pose proof (shr_fexp_exact_conv q e l) as Hconv.
  destruct (shr_fexp prec emax q e l) as [mrs1 e1]. cbn [fst snd] in H1, Hconv.
  destruct H1 as (n & Hn & He1 & Hmax & Hm1 & Hex).
  set (m1 := shr_m mrs1) in *. set (l1 := loc_of_shr_record mrs1) in *.
  set (d := Zdigits2 q) in *.
  rewrite fexp_eq in Hmax.
  assert (Hd0 : 0 <= d) by apply Zdigits2_nonneg.
  assert (Hqd : q < 2 ^ d).
  { destruct (Z.eq_dec q 0) as [-> | Hq0]; [cbn; lia |].
    apply Zdigits2_bounds. lia. }
  assert (Hl0 : 0 <= loc_excess l) by (destruct l; cbn; lia).
  assert (F1 : e1 <= eb).
  { destruct (Z.eq_dec q 0) as [Hq0 | Hq0].
    - subst q. cbn in d. subst d. lia.
    - assert (Hlo : 2 ^ (d - 1) <= q) by (apply Zdigits2_bounds; lia).
      assert (Hp : 0 < 2 ^ (eb - e)) by (apply Z.pow_pos_nonneg; lia).
      assert (Hlt : 2 ^ (d - 1) < 2 ^ (53 + (eb - e))).
      { rewrite Z.pow_add_r by lia. nia. }
      apply pow2_lt_inv in Hlt; lia. }
  assert (F4 : -1074 <= e1) by lia.
  assert (Hpn : 0 < 2 ^ n) by (apply Z.pow_pos_nonneg; lia).
  assert (Hsplit : 2 ^ (eb - e) = 2 ^ (eb - e1) * 2 ^ n).
  { rewrite <- Z.pow_add_r by lia. f_equal. lia. }
  assert (Hpk : 0 < 2 ^ (eb - e1)) by (apply Z.pow_pos_nonneg; lia).
  assert (Hm1lo : 0 <= m1) by (rewrite Hm1; apply Z.div_pos; lia).
  assert (Hdm : q = 2 ^ n * m1 + q mod 2 ^ n) by (rewrite Hm1; apply Z.div_mod; lia).
  assert (Hmod : 0 <= q mod 2 ^ n < 2 ^ n) by (apply Z.mod_pos_bound; lia).
  assert (F2 : m1 + loc_excess l1 <= Z.pos mb * 2 ^ (eb - e1)).
  { rewrite Hsplit, Z.mul_assoc in Hle.
    destruct l1 as [| c] eqn:El1; cbn [loc_excess].
    - destruct (Hex eq_refl) as [-> Hq']. cbn [loc_excess] in Hle. nia.
    - destruct (Z_lt_le_dec q (Z.pos mb * 2 ^ (eb - e1) * 2 ^ n)) as [Hlt | Hge].
      + nia.
      + exfalso.
        assert (Hl : l = loc_Exact) by (destruct l; [reflexivity | cbn [loc_excess] in Hle; lia]).
        assert (Hq' : q = Z.pos mb * 2 ^ (eb - e1) * 2 ^ n) by (subst l; cbn [loc_excess] in Hle; lia).
        specialize (Hconv (Z.pos mb * 2 ^ (eb - e1)) n ltac:(nia) Hn He1 Hl Hq').
        discriminate Hconv. }
  assert (F3 : m1 < 2 ^ 53).
  { rewrite Hm1. apply Z.div_lt_upper_bound; [lia |].
    eapply Z.lt_le_trans; [exact Hqd |].
    rewrite <- Z.pow_add_r by lia. apply Z.pow_le_mono_r; lia. }
  pose proof (round_nearest_even_bounds m1 l1) as Hr.
  remember (round_nearest_even m1 l1) as m2 eqn:Em2. clear Em2.
  assert (Hl1 : loc_excess l1 <= 1) by (destruct l1; cbn; lia).
  pose proof (shr_fexp_spec m2 e1 loc_Exact ltac:(lia)) as H2. cbv zeta in H2.
  destruct (shr_fexp prec emax m2 e1 loc_Exact) as [mrs2 e2]. cbn [fst snd] in H2.
  destruct H2 as (n2 & Hn2 & He2 & Hmax2 & Hm3 & _).
  rewrite fexp_eq in Hmax2.
  destruct (Z.eq_dec m2 0) as [Hz | Hnz].
  - subst m2. rewrite Hm3, Z.div_0_l by (apply Z.pow_nonzero; lia). reflexivity.
  - assert (Hd2 : 2 ^ (Zdigits2 m2 - 1) <= m2 < 2 ^ Zdigits2 m2) by (apply Zdigits2_bounds; lia).
    pose proof (Zdigits2_nonneg m2) as Hd2n.
    destruct (Z_lt_le_dec m2 (2 ^ 53)) as [Hlt | Hge].
    + assert (Hdd : Zdigits2 m2 <= 53).
      { assert (Hx : 2 ^ (Zdigits2 m2 - 1) < 2 ^ 53) by lia.
        apply pow2_lt_inv in Hx; lia. }
      assert (n2 = 0) by lia. subst n2.
      rewrite Z.div_1_r in Hm3. rewrite Hm3.
      destruct m2 as [| p2 | p2]; try lia.
      replace (e2 <=? emax - prec) with true
        by (symmetry; apply Z.leb_le; change (emax - prec) with 971; lia).
      cbn [rounds_within]. split; [reflexivity |].
      destruct (Z.eq_dec e2 eb) as [Ee | Ne]; [right | left; lia].
      split; [exact Ee |].
      replace (eb - e1) with 0 in F2 by lia. cbn in F2. lia.
    + assert (Hm2 : m2 = 2 ^ 53) by lia. subst m2.
      change (Zdigits2 (2 ^ 53)) with 54 in Hmax2.
      assert (n2 = 1) by lia. subst n2.
      change (2 ^ 53 / 2 ^ 1) with (2 ^ 52) in Hm3. rewrite Hm3.
      assert (Hgap : 1 <= eb - e1).
      { destruct (Z_lt_le_dec (eb - e1) 1) as [Hs | Hs]; [| exact Hs].
        replace (eb - e1) with 0 in F2 by lia. cbn in F2. lia. }
      change (2 ^ 52) with 4503599627370496.
      replace (e2 <=? emax - prec) with true
        by (symmetry; apply Z.leb_le; change (emax - prec) with 971; lia).
      cbn [rounds_within]. split; [reflexivity |].
      destruct (Z.eq_dec e2 eb) as [Ee | Ne]; [right | left; lia].
      split; [exact Ee |].
      replace (eb - e1) with 1 in F2 by lia. change (2 ^ 1) with 2 in F2.
      change (2 ^ 53) with 9007199254740992 in *. lia.
Qed.

(** A rounding keeps the sign it is given. *)
Lemma binary_round_aux_sign (sx : bool) (q e : Z) (l : location) :
  0 <= q -> has_sign sx (binary_round_aux prec emax sx q e l).
Proof.
  intros Hq. unfold binary_round_aux.
  pose proof (shr_fexp_spec q e l Hq) as H1. cbv zeta in H1.
  destruct (shr_fexp prec emax q e l) as [mrs1 e1]. cbn [fst snd] in H1.
  destruct H1 as (n & Hn & _ & _ & Hm1 & _).
  assert (Hm1lo : 0 <= shr_m mrs1).
  { rewrite Hm1. apply Z.div_pos; [lia | apply Z.pow_pos_nonneg; lia]. }
  pose proof (round_nearest_even_bounds (shr_m mrs1) (loc_of_shr_record mrs1)) as Hr.
  remember (round_nearest_even (shr_m mrs1) (loc_of_shr_record mrs1)) as m2 eqn:Em2. clear Em2.
  pose proof (shr_fexp_spec m2 e1 loc_Exact ltac:(lia)) as H2. cbv zeta in H2.
  destruct (shr_fexp prec emax m2 e1 loc_Exact) as [mrs2 e2]. cbn [fst snd] in H2.
  destruct H2 as (n2 & Hn2 & _ & _ & Hm3 & _).
  assert (Hm3lo : 0 <= shr_m mrs2).
  { rewrite Hm3. apply Z.div_pos; [lia | apply Z.pow_pos_nonneg; lia]. }
  destruct (shr_m mrs2) as [| p | p]; [reflexivity | | lia].
  destruct (e2 <=? emax - prec); reflexivity.
Qed.

Lemma binary_round_sign (sx : bool) (q : positive) (e : Z) :
  has_sign sx (binary_round prec emax sx q e).
Proof.
  unfold binary_round.
  destruct (shl_align q e (fexp prec emax (Z.pos (digits2_pos q) + e))) as [mz ez].
  apply binary_round_aux_sign. lia.
Qed.

Lemma shl_align_spec (q : positive) (e e' : Z) :
  let r := shl_align q e e' in
  snd r <= e /\ snd r = Z.min e e' /\ Z.pos (fst r) = Z.pos q * 2 ^ (e - snd r).
Proof.
  cbv zeta. unfold shl_align.
  destruct (e' - e) as [| d | d] eqn:Ed; cbn [fst snd].
  - split; [lia |]. split; [lia |]. rewrite Z.sub_diag. cbn. lia.
  - split; [lia |]. split; [lia |]. rewrite Z.sub_diag. cbn. lia.
  - split; [lia |]. split; [lia |]. rewrite iter_xO. f_equal. f_equal. lia.
Qed.

Lemma binary_round_le (sx : bool) (q : positive) (e : Z) (mb : positive) (eb : Z) :
  -1074 <= eb <= 971 -> Z.pos mb < 2 ^ 53 -> e <= eb ->
  Z.pos q <= Z.pos mb * 2 ^ (eb - e) ->
  rounds_within sx (binary_round prec emax sx q e) mb eb.
Proof.
  intros Heb Hmb He Hle. unfold binary_round.
  pose proof (shl_align_spec q e (fexp prec emax (Z.pos (digits2_pos q) + e))) as H.
  cbv zeta in H.
  destruct (shl_align q e (fexp prec emax (Z.pos (digits2_pos q) + e))) as [mz ez].
  cbn [fst snd] in H. destruct H as (Hez & _ & Hmz).
  apply binary_round_aux_le; try lia.
  cbn [loc_excess]. rewrite Z.add_0_r, Hmz.
  replace (eb - ez) with ((eb - e) + (e - ez)) by lia.
  rewrite Z.pow_add_r by lia.
  assert (0 < 2 ^ (e - ez)) by (apply Z.pow_pos_nonneg; lia). nia.
Qed.

Lemma valid_finite_emax (s : bool) (m : positive) (e : Z) :
  valid_binary (S754_finite s m e) = true -> e <= 971.
Proof.
  unfold SpecFloat.valid_binary, bounded. intros H.
  apply andb_true_iff in H. destruct H as [_ H]. apply Z.leb_le in H. exact H.
Qed.

(** The mantissas of a sum or a difference, on the smaller exponent. *)
Lemma shl_align_min (m : positive) (e e' : Z) :
  Z.pos (fst (shl_align m e (Z.min e e'))) = Z.pos m * 2 ^ (e - Z.min e e').
Proof.
  pose proof (shl_align_spec m e (Z.min e e')) as H. cbv zeta in H.
  destruct H as (_ & Hs & Hf). rewrite Hf. f_equal. f_equal. lia.
Qed.

Lemma shl_align_min_r (m : positive) (e e' : Z) :
  Z.pos (fst (shl_align m e' (Z.min e e'))) = Z.pos m * 2 ^ (e' - Z.min e e').
Proof. rewrite (Z.min_comm e e'). apply shl_align_min. Qed.

Lemma rounds_within_ne (sx : bool) (r : spec_float) (mb : positive) (eb : Z)
    (s : bool) (m : positive) (e : Z) :
  rounds_within sx r mb eb -> eb < e -> r <> S754_finite s m e.
Proof.
  destruct r as [s' | s' | | s' m' e']; cbn; intros H He E; try discriminate E; [].
  injection E as _ _ Ee. lia.
Qed.

Lemma has_sign_ne (sx : bool) (r : spec_float) (m : positive) (e : Z) :
  has_sign sx r -> r <> S754_finite (negb sx) m e.
Proof.
  destruct r as [s' | s' | | s' m' e']; cbn; intros H E; try discriminate E; [].
  injection E as Es _ _. subst. now destruct sx.
Qed.

(** [x - 1] is not [-1] unless [x] is below 2^-53. *)
Lemma SFsub_one_ne (k b : positive) (x : spec_float) :
  Z.pos k = 2 ^ 52 -> Z.pos b = 2 ^ 53 - 1 ->
  valid_binary x = true ->
  SFltb x (S754_finite false k (-105)) = false ->
  SF64sub x (S754_finite false k (-52)) <> S754_finite true k (-52).
Proof.
  intros Hk Hb Hv Hlt.
  destruct x as [s | s | | s m e].
  - cbn in Hlt. discriminate Hlt.
  - destruct s; discriminate.
  - discriminate.
  - destruct s; [cbn in Hlt; discriminate Hlt |].
    apply SFltb_pos_false_iff in Hlt.
    destruct (valid_finite_bounds false m e Hv) as (He & Hhi & Hlo).
    assert (Hm : 2 ^ 52 <= Z.pos m) by (apply Hlo; lia).
    assert (He' : -105 <= e) by lia.
    unfold SF64sub, SFsub. cbv zeta. change IntDef.Z.min with Z.min.
    cbn [cond_Zopp].
    rewrite shl_align_min, shl_align_min_r.
    destruct (Z_lt_le_dec e (-52)) as [Hs | Hs].
    + replace (Z.min e (-52)) with e by lia. rewrite Z.sub_diag, Z.mul_1_r.
      assert (Hp : 2 ^ 53 <= Z.pos k * 2 ^ (-52 - e)).
      { rewrite Hk, <- Z.pow_add_r by lia. apply Z.pow_le_mono_r; lia. }
      destruct (Z.pos m - Z.pos k * 2 ^ (-52 - e)) as [| q | q] eqn:Eq; try lia.
      cbn [binary_normalize].
      apply (rounds_within_ne true _ b (-53)); [| lia].
      apply binary_round_le; try lia.
      assert (Hq : Z.pos q = Z.pos k * 2 ^ (-52 - e) - Z.pos m) by lia.
      rewrite Hq, Hk, Hb.
      assert (E1 : 2 ^ 52 * 2 ^ (-52 - e) = 2 ^ 53 * 2 ^ (-53 - e)).
      { rewrite <- !Z.pow_add_r by lia. f_equal. lia. }
      rewrite E1.
      assert (Hlow : 2 ^ (-53 - e) <= Z.pos m).
      { eapply Z.le_trans; [| exact Hm]. apply Z.pow_le_mono_r; lia. }
      assert (0 < 2 ^ (-53 - e)) by (apply Z.pow_pos_nonneg; lia).
      lia.
    + replace (Z.min e (-52)) with (-52) by lia. rewrite Z.sub_diag, Z.mul_1_r.
      assert (Hp : 0 < 2 ^ (e - -52)) by (apply Z.pow_pos_nonneg; lia).
      destruct (Z.pos m * 2 ^ (e - -52) - Z.pos k) as [| q | q] eqn:Eq; try nia.
      * cbn [binary_normalize]. discriminate.
      * cbn [binary_normalize]. apply (has_sign_ne false). apply binary_round_sign.
Qed.

Lemma new_location_excess (n r : Z) :
  loc_excess (new_location n r) = if r =? 0 then 0 else 1.
Proof.
  unfold new_location, new_location_even, new_location_odd.
  change (IntDef.Z.eqb r 0) with (r =? 0).
  destruct (IntDef.Z.even n); destruct (r =? 0); reflexivity.
Qed.

Lemma digits2_pos_le (m : positive) (d : Z) :
  0 <= d -> Z.pos m < 2 ^ d -> Z.pos (digits2_pos m) <= d.
Proof.
  intros Hd H. pose proof (digits2_pos_bounds m) as [Hlo _].
  assert (Hx : 2 ^ (Z.pos (digits2_pos m) - 1) < 2 ^ d) by lia.
  apply pow2_lt_inv in Hx; lia.
Qed.

Lemma digits2_pos_normal (m : positive) :
  2 ^ 52 <= Z.pos m < 2 ^ 53 -> Z.pos (digits2_pos m) = 53.
Proof.
  intros [Hlo Hhi]. pose proof (digits2_pos_le m 53 ltac:(lia) Hhi).
  pose proof (digits2_pos_bounds m) as [_ Hup].
  assert (Hx : 2 ^ 52 < 2 ^ Z.pos (digits2_pos m)) by lia.
  apply pow2_lt_inv in Hx; lia.
Qed.

(** The quotient of two positive doubles, the divisor at least 1, is at
    most a double [mb * 2^eb] as soon as the dividend is at most that double
    times the divisor. *)
Lemma SFdiv_within (mx mf mb : positive) (ex ef eb : Z) :
  -1074 <= ex -> Z.pos mx < 2 ^ 53 ->
  -52 <= ef -> 2 ^ 52 <= Z.pos mf < 2 ^ 53 ->
  -1074 <= eb <= 971 -> Z.pos mb < 2 ^ 53 ->
  (forall e', e' <= ex - 1 \/ e' = -1074 -> e' <= ex - ef ->
     e' <= eb /\
     Z.pos mx * 2 ^ (ex - ef - e') <= Z.pos mb * 2 ^ (eb - e') * Z.pos mf) ->
  rounds_within false (SF64div (S754_finite false mx ex) (S754_finite false mf ef)) mb eb.
Proof.
  intros Hex Hmx Hef Hmf Heb Hmb Hbound.
  unfold SF64div, SFdiv, SFdiv_core_binary. cbv zeta. cbn [xorb Zdigits2].
  change IntDef.Z.min with Z.min.
  rewrite (digits2_pos_normal mf Hmf), fexp_eq.
  pose proof (digits2_pos_le mx 53 ltac:(lia) Hmx) as Hd1.
  set (e' := Z.min (Z.max (Z.pos (digits2_pos mx) + ex - (53 + ef) - 53) (-1074)) (ex - ef)).
  assert (He1 : e' <= ex - 1 \/ e' = -1074) by lia.
  assert (He2 : e' <= ex - ef) by lia.
  destruct (Hbound e' He1 He2) as [He3 Hle].
  set (s := ex - ef - e') in *.
  assert (Hs : 0 <= s) by lia.
  assert (Hm' : match s with
                | 0 => Z.pos mx
                | Z.pos _ => Z.shiftl (Z.pos mx) s
                | Z.neg _ => 0
                end = Z.pos mx * 2 ^ s).
  { destruct s as [| ps | ps] eqn:Es; [cbn; lia | | lia].
    now rewrite Z.shiftl_mul_pow2 by lia. }
  change IntDef.Z.shiftl with Z.shiftl. rewrite Hm'.
  pose proof (Z_div_mod (Z.pos mx * 2 ^ s) (Z.pos mf) ltac:(lia)) as Hdiv.
  change IntDef.Z.div_eucl with Z.div_eucl.
  destruct (Z.div_eucl (Z.pos mx * 2 ^ s) (Z.pos mf)) as [q r].
  destruct Hdiv as [Hqr Hr].
  assert (Hps : 0 < 2 ^ s) by (apply Z.pow_pos_nonneg; lia).
  assert (Hq : 0 <= q) by nia.
  apply binary_round_aux_le; try assumption.
  rewrite new_location_excess.
  set (K := Z.pos mb * 2 ^ (eb - e')) in *.
  destruct (Z.eqb_spec r 0) as [Hr0 | Hr0]; nia.
Qed.

Lemma rounds_within_leb (r : spec_float) (mb mx : positive) (eb ex : Z) :
  rounds_within false r mb eb ->
  eb < ex \/ (eb = ex /\ Z.pos mb <= Z.pos mx) ->
  SFleb r (S754_finite false mx ex) = true.
Proof.
  destruct r as [s | s | | s m e]; cbn [rounds_within]; try contradiction.
  - intros _ _. reflexivity.
  - intros [-> Hr] Hb. unfold SFleb, SFcompare.
    destruct (Z.compare_spec e ex) as [E | E | E]; [| reflexivity | lia].
    rewrite Pos.compare_cont_spec. cbn [Pos.switch_Eq]. rewrite Pos2Z.inj_compare.
    destruct (Z.compare_spec (Z.pos m) (Z.pos mx)) as [E' | E' | E']; try reflexivity. lia.
Qed.

Lemma rounds_within_ltb (r : spec_float) (mb mx : positive) (eb ex : Z) :
  rounds_within false r mb eb ->
  eb < ex \/ (eb = ex /\ Z.pos mb < Z.pos mx) ->
  SFltb r (S754_finite false mx ex) = true.
Proof.
  destruct r as [s | s | | s m e]; cbn [rounds_within]; try contradiction.
  - intros _ _. reflexivity.
  - intros [-> Hr] Hb. unfold SFltb, SFcompare.
    destruct (Z.compare_spec e ex) as [E | E | E]; [| reflexivity | lia].
    rewrite Pos.compare_cont_spec. cbn [Pos.switch_Eq]. rewrite Pos2Z.inj_compare.
    destruct (Z.compare_spec (Z.pos m) (Z.pos mx)) as [E' | E' | E']; try reflexivity; lia.
Qed.

Lemma SFleb_pos_true_iff (m1 m2 : positive) (e1 e2 : Z) :
  SFleb (S754_finite false m1 e1) (S754_finite false m2 e2) = true ->
  e1 < e2 \/ (e1 = e2 /\ Z.pos m1 <= Z.pos m2).
Proof.
  unfold SFleb, SFcompare.
  destruct (Z.compare_spec e1 e2) as [E | E | E].
  - rewrite Pos.compare_cont_spec. cbn [Pos.switch_Eq]. rewrite Pos2Z.inj_compare.
    destruct (Z.compare_spec (Z.pos m1) (Z.pos m2)) as [E' | E' | E']; intros H;
      try discriminate; right; lia.
  - intros _. left. lia.
  - discriminate.
Qed.

Lemma SFltb_pos_true_iff (m1 m2 : positive) (e1 e2 : Z) :
  SFltb (S754_finite false m1 e1) (S754_finite false m2 e2) = true ->
  e1 < e2 \/ (e1 = e2 /\ Z.pos m1 < Z.pos m2).
Proof.
  unfold SFltb, SFcompare.
  destruct (Z.compare_spec e1 e2) as [E | E | E].
  - rewrite Pos.compare_cont_spec. cbn [Pos.switch_Eq]. rewrite Pos2Z.inj_compare.
    destruct (Z.compare_spec (Z.pos m1) (Z.pos m2)) as [E' | E' | E']; intros H;
      try discriminate; right; lia.
  - intros _. left. lia.
  - discriminate.
Qed.

(** Dividing a positive double by a double that is at least 1 does not
    increase it. *)
Lemma SFdiv_le_self (k mx mf : positive) (ex ef : Z) :
  Z.pos k = 2 ^ 52 ->
  valid_binary (S754_finite false mx ex) = true ->
  valid_binary (S754_finite false mf ef) = true ->
  SFleb (S754_finite false k (-52)) (S754_finite false mf ef) = true ->
  SFleb (SF64div (S754_finite false mx ex) (S754_finite false mf ef))
        (S754_finite false mx ex) = true.
Proof.
  intros Hk Hvx Hvf Hone.
  destruct (valid_finite_bounds _ _ _ Hvx) as (Hex & Hmx & _).
  pose proof (valid_finite_emax _ _ _ Hvx) as Hex'.
  destruct (valid_finite_bounds _ _ _ Hvf) as (Hef & Hmf & Hnf).
  apply SFleb_pos_true_iff in Hone.
  assert (Hef' : -52 <= ef) by lia.
  assert (Hmf' : 2 ^ 52 <= Z.pos mf) by (apply Hnf; lia).
  apply (rounds_within_leb _ mx mx ex ex); [| right; split; [reflexivity | lia]].
  apply SFdiv_within; try lia.
  intros e' He1 He2. split; [lia |].
  assert (Ha : 0 < 2 ^ (ex - e')) by (apply Z.pow_pos_nonneg; lia).
  destruct (Z_lt_le_dec ef 0) as [Hneg | Hpos].
  - replace (ex - ef - e') with ((ex - e') + (- ef)) by lia.
    rewrite Z.pow_add_r by lia.
    assert (Ht : 2 ^ (- ef) <= 2 ^ 52) by (apply Z.pow_le_mono_r; lia).
    nia.
  - assert (Ht : 2 ^ (ex - ef - e') <= 2 ^ (ex - e')) by (apply Z.pow_le_mono_r; lia).
    assert (H52 : 0 < 2 ^ 52) by reflexivity.
    apply Z.le_trans with (Z.pos mx * 2 ^ (ex - e')); [apply Z.mul_le_mono_nonneg_l; lia |].
    assert (HP : 0 < Z.pos mx * 2 ^ (ex - e')) by (apply Z.mul_pos_pos; lia).
    apply (proj1 (Z.le_mul_diag_r _ (Z.pos mf) HP)). lia.
Qed.

(** Dividing a double above 2^-1022 by a double above 1 decreases it. *)
Lemma SFdiv_lt_self (k mx mf : positive) (ex ef : Z) :
  Z.pos k = 2 ^ 52 ->
  valid_binary (S754_finite false mx ex) = true ->
  valid_binary (S754_finite false mf ef) = true ->
  SFltb (S754_finite false k (-1074)) (S754_finite false mx ex) = true ->
  SFltb (S754_finite false k (-52)) (S754_finite false mf ef) = true ->
  SFltb (SF64div (S754_finite false mx ex) (S754_finite false mf ef))
        (S754_finite false mx ex) = true.
Proof.
  intros Hk Hvx Hvf Hnormal Hone.
  destruct (valid_finite_bounds _ _ _ Hvx) as (Hex & Hmx & Hnx).
  pose proof (valid_finite_emax _ _ _ Hvx) as Hex'.
  destruct (valid_finite_bounds _ _ _ Hvf) as (Hef & Hmf & Hnf).
  apply SFltb_pos_true_iff in Hone, Hnormal.
  assert (Hef' : -52 <= ef) by lia.
  assert (Hmf' : 2 ^ 52 <= Z.pos mf) by (apply Hnf; lia).
  assert (Hmx' : 2 ^ 52 <= Z.pos mx) by (destruct Hnormal as [H | [_ H]]; [apply Hnx |]; lia).
  assert (H52 : 2 ^ 52 = 4503599627370496) by reflexivity.
  assert (H53 : 2 ^ 53 = 9007199254740992) by reflexivity.
  destruct (Z.eq_dec (Z.pos mx) (2 ^ 52)) as [Hmin | Hbig].
  - (* the mantissa is the smallest: the double below is in the binade below *)
    assert (Hex1 : -1074 < ex) by lia.
    apply (rounds_within_ltb _ 9007199254740991 mx (ex - 1) ex); [| left; lia].
    apply SFdiv_within; try lia.
    intros e' He1 He2. split; [lia |].
    assert (Ha : 0 < 2 ^ (ex - 1 - e')) by (apply Z.pow_pos_nonneg; lia).
    rewrite Hmin.
    destruct (Z_lt_le_dec ef 0) as [Hneg | Hpos].
    + replace (ex - ef - e') with ((ex - 1 - e') + (1 + - ef)) by lia.
      rewrite Z.pow_add_r by lia.
      destruct (Z.eq_dec ef (-52)) as [-> | Hne].
      * change (2 ^ (1 + - -52)) with (2 ^ 53).
        assert (Hmf1 : 2 ^ 52 + 1 <= Z.pos mf) by lia.
        rewrite H52, H53 in *. nia.
      * assert (Ht : 2 ^ (1 + - ef) <= 2 ^ 52) by (apply Z.pow_le_mono_r; lia).
        rewrite H52, H53 in *. nia.
    + assert (Ht : 2 ^ (ex - ef - e') <= 2 * 2 ^ (ex - 1 - e')).
      { change 2 with (2 ^ 1) at 2. rewrite <- Z.pow_add_r by lia.
        apply Z.pow_le_mono_r; lia. }
      rewrite H52, H53 in *. nia.
  - (* otherwise it is the double with the mantissa one less *)
    assert (Hpred : Z.pos (Pos.pred mx) = Z.pos mx - 1).
    { rewrite Pos2Z.inj_pred; [lia |]. intros ->. rewrite H52 in Hmx'. lia. }
    apply (rounds_within_ltb _ (Pos.pred mx) mx ex ex); [| right; split; [reflexivity | lia]].
    apply SFdiv_within; try lia.
    intros e' He1 He2. split; [lia |]. rewrite Hpred.
    assert (Ha : 0 < 2 ^ (ex - e')) by (apply Z.pow_pos_nonneg; lia).
    destruct (Z_lt_le_dec ef 0) as [Hneg | Hpos].
    + replace (ex - ef - e') with ((ex - e') + (- ef)) by lia.
      rewrite Z.pow_add_r by lia.
      destruct (Z.eq_dec ef (-52)) as [-> | Hne].
      * change (2 ^ (- -52)) with (2 ^ 52).
        assert (Hmf1 : 2 ^ 52 + 1 <= Z.pos mf) by lia.
        rewrite H52, H53 in *. nia.
      * assert (Ht : 2 * 2 ^ (- ef) <= 2 ^ 52).
        { change 2 with (2 ^ 1) at 1. rewrite <- Z.pow_add_r by lia.
          apply Z.pow_le_mono_r; lia. }
        rewrite H52, H53 in *. nia.
    + assert (Ht : 2 ^ (ex - ef - e') <= 2 ^ (ex - e')) by (apply Z.pow_le_mono_r; lia).
      rewrite H52, H53 in *. nia.
Qed.

Local Close Scope Z_scope.

(** [x - 1] is [-1] only for an [x] below 2^-53. *)
Lemma sub_one_ne (x : float) : (x <? 0x1p-53) = false -> x - 1 <> -1.
Proof.
  rewrite FloatAxioms.ltb_spec. intros H E.
  apply (f_equal Prim2SF) in E. rewrite FloatAxioms.sub_spec in E.
  change (Prim2SF 0x1p-53) with (S754_finite false 4503599627370496 (-105)) in H.
  change (Prim2SF 1) with (S754_finite false 4503599627370496 (-52)) in E.
  change (Prim2SF (-1)) with (S754_finite true 4503599627370496 (-52)) in E.
  revert E.
  apply (SFsub_one_ne 4503599627370496 9007199254740991);
    [reflexivity | reflexivity | apply Prim2SF_valid | exact H].
Qed.

Lemma nonneg_SF (x : float) :
  (0 <=? x) = true ->
  (exists s, Prim2SF x = S754_zero s) \/ (exists m e, Prim2SF x = S754_finite false m e)
  \/ Prim2SF x = S754_infinity false.
Proof.
  rewrite FloatAxioms.leb_spec. change (Prim2SF 0) with (S754_zero false).
  destruct (Prim2SF x) as [s | s | | s m e]; cbn.
  - intros _. left. now exists s.
  - destruct s; [discriminate |]. intros _. right. right. reflexivity.
  - discriminate.
  - destruct s; [discriminate |]. intros _. right. left. now exists m, e.
Qed.

(** Dividing a finite double that is not negative by a double that is at
    least 1 does not increase it. *)
Lemma div_le_self (x f : float) :
  isFinite x = true -> (0 <=? x) = true -> (1 <=? f) = true -> (x / f <=? x) = true.
Proof.
  intros Hfin Hx Hf.
  pose proof (Prim2SF_valid x) as Hvx. pose proof (Prim2SF_valid f) as Hvf.
  rewrite FloatAxioms.leb_spec in Hf |- *. rewrite FloatAxioms.div_spec.
  change (Prim2SF 1) with (S754_finite false 4503599627370496 (-52)) in Hf.
  destruct (nonneg_SF x Hx) as [[s Ex] | [(m & e & Ex) | Ex]].
  - rewrite Ex. destruct (Prim2SF f) as [s' | s' | | s' m' e'].
    + discriminate Hf.
    + destruct s'; [discriminate Hf |]. destruct s; reflexivity.
    + discriminate Hf.
    + destruct s'; [discriminate Hf |]. destruct s; reflexivity.
  - rewrite Ex in Hvx |- *. destruct (Prim2SF f) as [s' | s' | | s' m' e'].
    + discriminate Hf.
    + destruct s'; [discriminate Hf |]. reflexivity.
    + discriminate Hf.
    + destruct s'; [discriminate Hf |].
      now apply (SFdiv_le_self 4503599627370496).
  - destruct (isFinite_SF x Hfin) as [[s E] | (s & m & e & E)]; rewrite E in Ex; discriminate Ex.
Qed.

(** Dividing a finite double above 2^-1022 by a double above 1 decreases
    it. *)
Lemma div_lt_self (x f : float) :
  isFinite x = true -> (0x1p-1022 <? x) = true -> (1 <? f) = true -> (x / f <? x) = true.
Proof.
  intros Hfin Hx Hf.
  pose proof (Prim2SF_valid x) as Hvx. pose proof (Prim2SF_valid f) as Hvf.
  rewrite FloatAxioms.ltb_spec in Hx, Hf |- *. rewrite FloatAxioms.div_spec.
  change (Prim2SF 1) with (S754_finite false 4503599627370496 (-52)) in Hf.
  change (Prim2SF 0x1p-1022) with (S754_finite false 4503599627370496 (-1074)) in Hx.
  destruct (isFinite_SF x Hfin) as [[s E] | (s & m & e & E)];
    rewrite E in Hx, Hvx |- *; [discriminate Hx |].
  destruct s; [discriminate Hx |].
  destruct (Prim2SF f) as [s' | s' | | s' m' e'].
  - discriminate Hf.
  - destruct s'; [discriminate Hf |]. reflexivity.
  - discriminate Hf.
  - destruct s'; [discriminate Hf |].
    now apply (SFdiv_lt_self 4503599627370496).
Qed.

(** *** Signs of sums and products *)

Lemma has_sign_false_leb (r : spec_float) :
  has_sign false r -> SFleb (S754_zero false) r = true.
Proof. destruct r as [s | s | | s m e]; cbn; intros H; try contradiction; subst; reflexivity. Qed.

Lemma has_sign_false_ltb (r : spec_float) :
  has_sign false r -> SFltb r (S754_zero false) = false.
Proof. destruct r as [s | s | | s m e]; cbn; intros H; try contradiction; subst; reflexivity. Qed.

Lemma SFadd_pos_sign (m1 m2 : positive) (e1 e2 : Z) :
  has_sign false (SF64add (S754_finite false m1 e1) (S754_finite false m2 e2)).
Proof.
  unfold SF64add, SFadd. cbv zeta. cbn [cond_Zopp].
  match goal with
  | |- context [(Z.pos ?a + Z.pos ?b)%Z] =>
      change (Z.pos a + Z.pos b)%Z with (Z.pos (a + b))
  end.
  cbn [binary_normalize]. apply binary_round_sign.
Qed.

Lemma SFmul_sign (s1 s2 : bool) (m1 m2 : positive) (e1 e2 : Z) :
  has_sign (xorb s1 s2) (SF64mul (S754_finite s1 m1 e1) (S754_finite s2 m2 e2)).
Proof. unfold SF64mul, SFmul. apply binary_round_aux_sign. lia. Qed.

Lemma not_negative_SF (x : float) :
  (x <? 0) = false ->
  (exists s, Prim2SF x = S754_zero s) \/ (exists m e, Prim2SF x = S754_finite false m e)
  \/ Prim2SF x = S754_infinity false \/ Prim2SF x = S754_nan.
Proof.
  rewrite FloatAxioms.ltb_spec. change (Prim2SF 0) with (S754_zero false).
  destruct (Prim2SF x) as [s | s | | s m e]; cbn.
  - intros _. left. now exists s.
  - destruct s; [discriminate |]. intros _. right. right. left. reflexivity.
  - intros _. right. right. right. reflexivity.
  - destruct s; [discriminate |]. intros _. right. left. now exists m, e.
Qed.

(** A sum of two doubles that are not negative is not negative. *)
Lemma add_nonneg (a b : float) :
  (0 <=? a) = true -> (0 <=? b) = true -> (0 <=? a + b) = true.
Proof.
  intros Ha Hb. rewrite FloatAxioms.leb_spec, FloatAxioms.add_spec.
  change (Prim2SF 0) with (S754_zero false).
  destruct (nonneg_SF a Ha) as [[s Ea] | [(m & e & Ea) | Ea]];
    destruct (nonneg_SF b Hb) as [[s' Eb] | [(m' & e' & Eb) | Eb]]; rewrite Ea, Eb;
    try reflexivity; try (destruct s; reflexivity); try (destruct s'; reflexivity);
    try (destruct s, s'; reflexivity).
  apply has_sign_false_leb, SFadd_pos_sign.
Qed.

Lemma add_not_negative (a b : float) :
  (a <? 0) = false -> (b <? 0) = false -> (a + b <? 0) = false.
Proof.
  intros Ha Hb. rewrite FloatAxioms.ltb_spec, FloatAxioms.add_spec.
  change (Prim2SF 0) with (S754_zero false).
  destruct (not_negative_SF a Ha) as [[s Ea] | [(m & e & Ea) | [Ea | Ea]]];
    destruct (not_negative_SF b Hb) as [[s' Eb] | [(m' & e' & Eb) | [Eb | Eb]]]; rewrite Ea, Eb;
    try reflexivity; try (destruct s; reflexivity); try (destruct s'; reflexivity);
    try (destruct s, s'; reflexivity).
  apply has_sign_false_ltb, SFadd_pos_sign.
Qed.

(** A double that is not negative times a finite positive double is not
    negative. *)
Lemma mul_nonneg (a b : float) :
  (0 <=? a) = true -> (0 <? b) = true -> isFinite b = true -> (0 <=? a * b) = true.
Proof.
  intros Ha Hb Hfin. rewrite FloatAxioms.leb_spec, FloatAxioms.mul_spec.
  rewrite FloatAxioms.ltb_spec in Hb.
  change (Prim2SF 0) with (S754_zero false) in *.
  destruct (isFinite_SF b Hfin) as [[s' Eb] | (s' & m' & e' & Eb)]; rewrite Eb in Hb |- *;
    [discriminate Hb |].
  destruct s'; [discriminate Hb |].
  destruct (nonneg_SF a Ha) as [[s Ea] | [(m & e & Ea) | Ea]]; rewrite Ea.
  - destruct s; reflexivity.
  - apply has_sign_false_leb. apply (SFmul_sign false false).
  - reflexivity.
Qed.

Lemma mul_not_negative (a b : float) :
  (0 <=? a) = true -> (b <? 0) = false -> (a * b <? 0) = false.
Proof.
  intros Ha Hb. rewrite FloatAxioms.ltb_spec, FloatAxioms.mul_spec.
  change (Prim2SF 0) with (S754_zero false).
  destruct (nonneg_SF a Ha) as [[s Ea] | [(m & e & Ea) | Ea]];
    destruct (not_negative_SF b Hb) as [[s' Eb] | [(m' & e' & Eb) | [Eb | Eb]]]; rewrite Ea, Eb;
    try reflexivity; try (destruct s; reflexivity); try (destruct s'; reflexivity);
    try (destruct s, s'; reflexivity).
  apply has_sign_false_ltb. apply (SFmul_sign false false).
Qed.

Lemma finite_not_negative (x : float) :
  isFinite x = true -> (x <? 0) = false -> (0 <=? x) = true.
Proof.
  intros Hfin H. rewrite FloatAxioms.leb_spec. change (Prim2SF 0) with (S754_zero false).
  destruct (not_negative_SF x H) as [[s E] | [(m & e & E) | [E | E]]]; rewrite E;
    try reflexivity;
    destruct (isFinite_SF x Hfin) as [[s' E'] | (s' & m' & e' & E')]; rewrite E' in E;
    discriminate E.
Qed.

Lemma nonneg_not_negative (x : float) : (0 <=? x) = true -> (x <? 0) = false.
Proof.
  intros H. rewrite FloatAxioms.ltb_spec. change (Prim2SF 0) with (S754_zero false).
  destruct (nonneg_SF x H) as [[s E] | [(m & e & E) | E]]; rewrite E; reflexivity.
Qed.

Lemma nonneg_pos (x : float) : (0 <=? x) = true -> (x =? 0) = false -> (0 <? x) = true.
Proof.
  intros H. rewrite FloatAxioms.ltb_spec, FloatAxioms.eqb_spec.
  change (Prim2SF 0) with (S754_zero false).
  destruct (nonneg_SF x H) as [[s E] | [(m & e & E) | E]]; rewrite E; cbn; congruence.
Qed.

(** *** Doubles that [===] holds of *)









(** *** The rate is at least -1, the growth factor at least 0 *)

Local Open Scope Z_scope.

Lemma rounds_within_neg_geb (r : spec_float) (mb : positive) (eb : Z) :
  rounds_within true r mb eb -> SFleb (S754_finite true mb eb) r = true.
Proof.
  destruct r as [s | s | | s m e]; cbn [rounds_within]; try contradiction.
  - intros _. reflexivity.
  - intros [-> Hr]. unfold SFleb, SFcompare.
    destruct (Z.compare_spec eb e) as [E | E | E]; [| lia | reflexivity].
    rewrite Pos.compare_cont_spec. cbn [Pos.switch_Eq]. rewrite Pos2Z.inj_compare.
    destruct (Z.compare_spec (Z.pos mb) (Z.pos m)) as [E' | E' | E']; try reflexivity. lia.
Qed.

Lemma has_sign_false_geb_neg (r : spec_float) (m : positive) (e : Z) :
  has_sign false r -> SFleb (S754_finite true m e) r = true.
Proof. destruct r as [s | s | | s m' e']; cbn; intros H; try contradiction; subst; reflexivity. Qed.

(** [x - 1] is at least [-1] for an [x] that is not negative. *)
Lemma SFsub_one_ge (k : positive) (x : spec_float) :
  Z.pos k = 2 ^ 52 ->
  valid_binary x = true ->
  SFleb (S754_zero false) x = true ->
  SFleb (S754_finite true k (-52)) (SF64sub x (S754_finite false k (-52))) = true.
Proof.
  intros Hk Hv Hx.
  destruct x as [s | s | | s m e].
  - unfold SF64sub, SFsub, SFleb, SFcompare. cbn [negb].
    rewrite Z.compare_refl, Pos.compare_cont_refl. reflexivity.
  - destruct s; [discriminate Hx | reflexivity].
  - discriminate Hx.
  - destruct s; [discriminate Hx |].
    destruct (valid_finite_bounds false m e Hv) as (He & Hhi & Hlo).
    unfold SF64sub, SFsub. cbv zeta. change IntDef.Z.min with Z.min.
    cbn [cond_Zopp].
    rewrite shl_align_min, shl_align_min_r.
    destruct (Z_lt_le_dec e (-52)) as [Hs | Hs].
    + replace (Z.min e (-52)) with e by lia. rewrite Z.sub_diag, Z.mul_1_r.
      assert (Hp : 2 ^ 53 <= Z.pos k * 2 ^ (-52 - e)).
      { rewrite Hk, <- Z.pow_add_r by lia. apply Z.pow_le_mono_r; lia. }
      destruct (Z.pos m - Z.pos k * 2 ^ (-52 - e)) as [| q | q] eqn:Eq; try lia.
      cbn [binary_normalize].
      apply rounds_within_neg_geb.
      apply binary_round_le; lia.
    + replace (Z.min e (-52)) with (-52) by lia. rewrite Z.sub_diag, Z.mul_1_r.
      assert (Hm : 2 ^ 52 <= Z.pos m) by (apply Hlo; lia).
      assert (Hp : 0 < 2 ^ (e - -52)) by (apply Z.pow_pos_nonneg; lia).
      destruct (Z.pos m * 2 ^ (e - -52) - Z.pos k) as [| q | q] eqn:Eq; try nia.
      * reflexivity.
      * cbn [binary_normalize]. apply has_sign_false_geb_neg. apply binary_round_sign.
Qed.

Lemma SFleb_antisym_neg (k : positive) (x : spec_float) :
  SFleb (S754_finite true k (-52)) x = true ->
  SFleb x (S754_finite true k (-52)) = true ->
  x = S754_finite true k (-52).
Proof.
  destruct x as [s | s | | s m e]; unfold SFleb, SFcompare.
  - discriminate.
  - destruct s; discriminate.
  - discriminate.
  - destruct s; [| discriminate].
    rewrite (Z.compare_antisym e (-52)).
    destruct (Z.compare_spec e (-52)) as [E | E | E]; cbn [CompOpp]; try discriminate.
    rewrite !Pos.compare_cont_spec. cbn [Pos.switch_Eq].
    rewrite (Pos.compare_antisym m k).
    destruct (Pos.compare_spec m k) as [E' | E' | E']; cbn [CompOpp]; try discriminate.
    intros _ _. now subst.
Qed.

Lemma SFadd_one_not_nan (k : positive) (x : spec_float) :
  SFleb (S754_finite true k (-52)) x = true ->
  exists c, SFcompare (SF64add (S754_finite false k (-52)) x) (S754_zero false) = Some c.
Proof.
  destruct x as [s | s | | s m e].
  - intros _. eexists. reflexivity.
  - destruct s; [discriminate |]. intros _. eexists. reflexivity.
  - discriminate.
  - intros _. unfold SF64add, SFadd. cbv zeta.
    match goal with
    | |- context [binary_normalize _ _ ?q ?e ?z] =>
        destruct q as [| p | p]; cbn [binary_normalize]
    end.
    + eexists. reflexivity.
    + pose proof (binary_round_sign false p (IntDef.Z.min (-52) e)) as H.
      destruct (binary_round prec emax false p (IntDef.Z.min (-52) e)) as [s' | s' | | s' m' e'];
        cbn in H; try contradiction; subst; eexists; reflexivity.
    + pose proof (binary_round_sign true p (IntDef.Z.min (-52) e)) as H.
      destruct (binary_round prec emax true p (IntDef.Z.min (-52) e)) as [s' | s' | | s' m' e'];
        cbn in H; try contradiction; subst; eexists; reflexivity.
Qed.

Local Close Scope Z_scope.

(** [x - 1] is at least [-1] for an [x] that is not negative. *)
Lemma sub_one_ge (x : float) : (0 <=? x) = true -> (-1 <=? x - 1) = true.
Proof.
  rewrite !FloatAxioms.leb_spec, FloatAxioms.sub_spec.
  change (Prim2SF 0) with (S754_zero false).
  change (Prim2SF 1) with (S754_finite false 4503599627370496 (-52)).
  change (Prim2SF (-1)) with (S754_finite true 4503599627370496 (-52)).
  apply SFsub_one_ge; [reflexivity | apply Prim2SF_valid].
Qed.

(** The growth factor [1 + x] is not negative for a rate [x] of at least
    [-1]. *)
Lemma add_one_nonneg (x : float) : (-1 <=? x) = true -> (0 <=? 1 + x) = true.
Proof.
  intros Hx. pose proof (add_one_le_zero x) as Hguard.
  destruct (x <=? -1) eqn:Hle.
  - assert (E : x = -1).
    { apply Prim2SF_inj. rewrite FloatAxioms.leb_spec in Hx, Hle.
      change (Prim2SF (-1)) with (S754_finite true 4503599627370496 (-52)) in *.
      now apply SFleb_antisym_neg. }
    subst x. reflexivity.
  - rewrite FloatAxioms.leb_spec in Hx, Hguard |- *. rewrite FloatAxioms.add_spec in *.
    change (Prim2SF 0) with (S754_zero false) in *.
    change (Prim2SF 1) with (S754_finite false 4503599627370496 (-52)) in *.
    change (Prim2SF (-1)) with (S754_finite true 4503599627370496 (-52)) in *.
    destruct (SFadd_one_not_nan _ _ Hx) as [c Hc].
    revert Hguard Hc.
    destruct (SF64add (S754_finite false 4503599627370496 (-52)) (Prim2SF x))
      as [s | s | | s m e]; unfold SFleb, SFcompare;
      try (destruct s); try discriminate; try reflexivity.
Qed.

(** *** Month counts, and a [Math.pow] of constants *)

Lemma months_positive_table : forallb months_positive_check (map Z.of_nat (seq 1 50)) = true.
Proof. vm_compute. reflexivity. Qed.

Lemma months_positive (y : Z) :
  (1 <= y <= 50)%Z ->
  (0 <? float_of_Z (12 * y)) = true /\ (1 <=? float_of_Z (12 * y)) = true.
Proof.
  intros Hy. pose proof months_positive_table as Ht. rewrite forallb_forall in Ht.
  apply andb_true_iff. apply (Ht y).
  apply in_map_iff. exists (Z.to_nat y). split; [lia |]. apply in_seq. lia.
Qed.

Lemma one_le_not_zero (f : float) : (1 <=? f) = true -> (f =? 0) = false.
Proof.
  rewrite FloatAxioms.leb_spec, FloatAxioms.eqb_spec.
  change (Prim2SF 1) with (S754_finite false 4503599627370496 (-52)).
  change (Prim2SF 0) with (S754_zero false).
  destruct (Prim2SF f) as [s | [] | | [] m e]; cbn; congruence.
Qed.

Lemma lt_le (a b : float) : (a <? b) = true -> (a <=? b) = true.
Proof.
  rewrite FloatAxioms.ltb_spec, FloatAxioms.leb_spec. unfold SFltb, SFleb.
  destruct (SFcompare (Prim2SF a) (Prim2SF b)) as [[] |]; congruence.
Qed.

Lemma constant_pow_conforms (v : float) : conforms_to_ES (constant_pow v).
Proof. intros base exponent w H. unfold constant_pow. now rewrite H. Qed.


End B64Facts.

Lemma reference_pow_conforms : B64.conforms_to_ES B64.reference_pow.
Proof.
  intros base exponent v H. unfold B64.reference_pow. now rewrite H.
Qed.

Lemma float_neq (x y : float) : PrimFloat.Leibniz.eqb x y = false -> x <> y.
Proof. intros H E. apply FloatAxioms.Leibniz.eqb_spec in E. congruence. Qed.

(** ** Runs in binary64 *)

Section Binary64Runs.
Import B64 B64Check B64Facts.
Variable pow : float -> float -> float.
Let JS64 : JSNumber float := binary64 pow.
Existing Instance JS64.
Local Open Scope js_scope.

(** A run on a whole number of years from 1 to 50. *)
Lemma run_binary64 (p : Params float) (y : Z) (fuel : nat) :
  (1 <= y <= 50)%Z ->
  years p = #y ->
  (Z.to_nat (12 * y) < fuel)%nat ->
  Math_round (years p * #12) = #(12 * y) /\
  exists res,
    generateMonthlySeries fuel p = Some res /\
    series res
    = seriesOfMonths (initialCapital p) (monthlyContribution p) (rateOf p)
                     (Z.to_nat (12 * y)).
Proof.
  intros Hy Hyears Hfuel.
  destruct (months_of_years pow y Hy) as [HT Hms]. fold JS64 in HT, Hms.
  set (n := Z.to_nat (12 * y)) in *.
  split; [rewrite Hyears; exact HT |].
  replace fuel with (S n + (fuel - S n))%nat by lia.
  apply monthsFrom_more_fuel with (k := (fuel - S n)%nat) in Hms.
  rewrite <- HT, <- Hyears in Hms.
  eexists. split; [apply (generateMonthlySeries_returns _ _ _ Hms) |].
  cbn [series].
  apply (entriesFrom_seriesOfMonths (initialCapital p) (monthlyContribution p)
           (rateOf p) n (zero_rate_neutral_binary64 pow (rateOf p)) 0%nat).
Qed.

Lemma twelve_months (p : Params float) :
  years p = 1%float ->
  monthsFrom (Math_round (years p * #12)) 13 #1
  = Some (map (fun m => #(Z.of_nat m)) (seq 1 12)).
Proof. intros ->. vm_compute. reflexivity. Qed.

Lemma run_one_year (p : Params float) :
  years p = 1%float ->
  exists res,
    generateMonthlySeries 13 p = Some res /\
    series res = entriesFrom (rateOf p) (monthlyContribution p)
                   (map (fun m => #(Z.of_nat m)) (seq 1 12))
                   (initialCapital p) (initialCapital p).
Proof.
  intros Hy. eexists.
  split; [apply (generateMonthlySeries_returns _ _ _ (twelve_months p Hy)) | reflexivity].
Qed.

(** Zero divided by anything is not below zero. *)
Lemma zero_over_not_negative (x : float) :
  ((if x !== #0 then #0 / x else #0) <? #0) = false.
Proof.
  cbn. destruct (PrimFloat.eqb x 0); cbn [negb]; [reflexivity |].
  rewrite FloatAxioms.ltb_spec, FloatAxioms.div_spec.
  destruct (Prim2SF x) as [s | s | | s m e]; reflexivity.
Qed.

(** At a monthly rate of -1 the balance is multiplied by zero. *)
Lemma nextBalance_total_loss (C b : float) : nextBalance #(-1) C b = (b * 0 + C)%float.
Proof. reflexivity. Qed.

Lemma entriesFrom_total_loss (C : float) (ms : list float) :
  isFinite C = true ->
  forall b c,
    isFinite b = true ->
    Forall (fun e => (totalValue e === C) = true) (entriesFrom #(-1) C ms b c).
Proof.
  intros HC. induction ms as [| m ms IH]; intros b c Hb; cbn [entriesFrom]; constructor.
  - cbn [totalValue]. rewrite nextBalance_total_loss.
    apply (add_zero_l _ _ (mul_zero_r b 0%float (or_introl eq_refl) Hb) HC).
  - apply IH. rewrite nextBalance_total_loss.
    apply (add_zero_l _ _ (mul_zero_r b 0%float (or_introl eq_refl) Hb) HC).
Qed.

Lemma rateOf_total_loss (p : Params float) :
  (calculateNetAnnualReturn (grossAnnualReturn p) (annualFee p) <=? #(-1)) = true ->
  rateOf p = #(-1).
Proof.
  intros Hnet. unfold rateOf. etransitivity; [apply calculateMonthlyRate_binary64 |].
  cbn [js_le js_lit binary64 JS64] in Hnet.
  change (float_of_Z (-1)) with (-1)%float in Hnet. now rewrite Hnet.
Qed.

(** One month keeps the balance at or above zero, for a finite growth
    factor [1 + monthlyRate] that is not negative; at a growth factor of
    zero it keeps the balance finite. *)
Lemma nextBalance_nonneg (rate C b : float) :
  isFinite C = true -> (#0 <=? C) = true ->
  isFinite (#1 + rate) = true -> (#0 <=? #1 + rate) = true ->
  (#0 <=? b) = true -> ((#1 + rate === #0) = true -> isFinite b = true) ->
  (#0 <=? nextBalance rate C b) = true /\
  ((#1 + rate === #0) = true -> isFinite (nextBalance rate C b) = true).
Proof.
  cbn [js_le js_add js_eq js_lit binary64 JS64].
  change (float_of_Z 0) with 0%float. change (float_of_Z 1) with 1%float.
  intros HCf HC Hgf Hg Hb Hbf. unfold nextBalance.
  cbn [js_le js_add js_mul js_eq js_lit binary64 JS64].
  change (float_of_Z 0) with 0%float. change (float_of_Z 1) with 1%float.
  destruct (rate =? 0)%float eqn:Er; cbn [negb].
  - split; [now apply add_nonneg |].
    intros Hz. exfalso.
    destruct (eqb_zero rate Er) as [-> | ->]; vm_compute in Hz; discriminate Hz.
  - destruct (1 + rate =? 0)%float eqn:Eg.
    + pose proof (mul_zero_r b _ (eqb_zero _ Eg) (Hbf eq_refl)) as Hz.
      destruct (add_zero_l _ C Hz HCf) as [Hfin _].
      split; [| intros _; exact Hfin].
      apply add_nonneg; [| exact HC]. destruct Hz as [-> | ->]; reflexivity.
    + split; [| discriminate].
      apply add_nonneg; [| exact HC].
      apply mul_nonneg; [exact Hb | | exact Hgf]. now apply nonneg_pos.
Qed.

Lemma entriesFrom_nonneg (rate C : float) (ms : list float) :
  isFinite C = true -> (#0 <=? C) = true ->
  isFinite (#1 + rate) = true -> (#0 <=? #1 + rate) = true ->
  forall b c,
    (#0 <=? b) = true -> ((#1 + rate === #0) = true -> isFinite b = true) ->
    Forall (fun e => (#0 <=? totalValue e) = true) (entriesFrom rate C ms b c).
Proof.
  intros HCf HC Hgf Hg. induction ms as [| m ms IH]; intros b c Hb Hbf; cbn [entriesFrom].
  - constructor.
  - destruct (nextBalance_nonneg rate C b HCf HC Hgf Hg Hb Hbf) as [H1 H2].
    constructor; [exact H1 |]. now apply IH.
Qed.

(** The closed form is not negative when the growth factor [Math.pow]
    returns and the annuity factor computed from it are not. *)
Lemma closedForm_not_negative (P C rate T : float) :
  (#0 <=? P) = true -> (#0 <=? C) = true ->
  (#0 <? T) = true -> isFinite T = true ->
  (Math_pow (#1 + rate) T <? #0) = false ->
  ((Math_pow (#1 + rate) T - #1) / rate <? #0) = false ->
  (closedFormFutureValue P C rate T <? #0) = false.
Proof.
  cbn [js_le js_lt js_add js_sub js_div js_lit Math_pow binary64 JS64].
  change (float_of_Z 0) with 0%float. change (float_of_Z 1) with 1%float.
  intros HP HC HT HTf HG HA. unfold closedFormFutureValue.
  cbn [js_le js_lt js_add js_sub js_mul js_div js_lit js_1em12 Math_pow Math_abs binary64 JS64].
  change (float_of_Z 1) with 1%float.
  destruct (abs rate <? 1e-12)%float.
  - apply nonneg_not_negative, add_nonneg; [exact HP |]. now apply mul_nonneg.
  - apply add_not_negative; now apply mul_not_negative.
Qed.

(** The values of a run on a valid input, for a finite growth factor that
    is not negative. *)
Lemma values_nonneg (fuel : nat) (p : Params float) (res : Result float) :
  validateInputs p = [] ->
  generateMonthlySeries fuel p = Some res ->
  isFinite (#1 + rateOf p) = true -> (#0 <=? #1 + rateOf p) = true ->
  Forall (fun e => (#0 <=? totalValue e) = true) (series res) /\
  ((Math_pow (#1 + rateOf p) (Math_round (years p * #12)) <? #0) = false ->
   ((Math_pow (#1 + rateOf p) (Math_round (years p * #12)) - #1) / rateOf p <? #0) = false ->
   (#0 <=? futureValue (summary res)) = true).
Proof.
  intros Hvalid Hres Hgf Hg.
  apply validateInputs_binary64 in Hvalid.
  destruct Hvalid as ([HPf HP] & [HCf HC] & _ & _ & _ & y & Hy & Hyears).
  fold JS64 in HPf, HP, HCf, HC, Hyears.
  cbn [js_lt js_lit Number_isFinite binary64 JS64] in HPf, HP, HCf, HC.
  change (float_of_Z 0) with 0%float in HP, HC.
  pose proof (finite_not_negative _ HPf HP) as HP0.
  pose proof (finite_not_negative _ HCf HC) as HC0.
  destruct (generateMonthlySeries_inv _ _ _ Hres) as (ms & _ & Hs & _).
  assert (Hseries : Forall (fun e => (#0 <=? totalValue e) = true) (series res)).
  { rewrite Hs. apply entriesFrom_nonneg; try assumption. intros _. exact HPf. }
  split; [exact Hseries |].
  intros HG HA.
  destruct (run_binary64 p y (S (Z.to_nat (12 * y))) Hy Hyears) as [HT _]; [lia |].
  fold JS64 in HT. rewrite HT in HG, HA.
  assert (Hcf : (closedFormOf p <? #0) = false).
  { unfold closedFormOf. rewrite HT.
    apply closedForm_not_negative; try assumption.
    - apply months_positive, Hy.
    - now apply months_finite. }
  rewrite (futureValue_of_result _ _ _ Hres).
  cbn [Number_isFinite binary64 JS64].
  destruct (isFinite (closedFormOf p)) eqn:Efin.
  - now apply finite_not_negative.
  - apply (lastTotalValueOr_Forall (fun v => (#0 <=? v) = true)); assumption.
Qed.

(** A duration of minus one year at a zero rate: no entry, and a future
    value of -12. *)
Lemma negative_years_future_value :
  pow 1 (1 / 12) = 1%float ->
  exists res,
    generateMonthlySeries 1 negativeYearsParams = Some res /\
    series res = [] /\
    futureValue (summary res) = (-12)%float.
Proof.
  intros Hpow.
  assert (Hms : monthsFrom (Math_round (years negativeYearsParams * #12)) 1 #1 = Some [])
    by reflexivity.
  eexists. split; [apply (generateMonthlySeries_returns _ _ _ Hms) |].
  split; [reflexivity |].
  cbn [summary entriesFrom]. rewrite futureValue_summarize.
  assert (Hr : rateOf negativeYearsParams = 0%float).
  { unfold rateOf, calculateMonthlyRate. cbn. use_pow pow Hpow. reflexivity. }
  rewrite Hr. reflexivity.
Qed.

(** Underflow: twelve halvings round 5 * 2^-1065 down to zero, while the
    closed form rounds 5 * 2^-1065 * 2^-12 once, up to 2^-1074. *)
Lemma underflow_cross_check :
  pow 0x1p-12 (1 / 12) = 0.5%float ->
  pow 0.5 12 = 0x1p-12%float ->
  exists res s last,
    generateMonthlySeries 13 underflowParams = Some res /\
    series res = s ++ [last] /\
    (#1 <=? totalMonths (summary res)) = true /\
    (js_1em12 <=? Math_abs (monthlyRate (summary res))) = true /\
    closedFormFutureValue (initialCapital underflowParams) (monthlyContribution underflowParams)
      (monthlyRate (summary res)) (totalMonths (summary res)) = 0x1p-1074%float /\
    futureValue (summary res) = 0x1p-1074%float /\
    totalValue last = 0%float.
Proof.
  intros Hroot Hpow.
  destruct (run_one_year underflowParams eq_refl) as (res & Hres & Hs).
  assert (Hr : rateOf underflowParams = (-0.5)%float).
  { unfold rateOf, calculateMonthlyRate. cbn. use_pow pow Hroot. reflexivity. }
  assert (Hc : closedFormOf underflowParams = 0x1p-1074%float).
  { unfold closedFormOf. rewrite Hr. unfold closedFormFutureValue. cbn.
    use_pow pow Hpow. reflexivity. }
  assert (Hs' : series res
                = entriesFrom (-0.5)%float 0%float (map (fun m => #(Z.of_nat m)) (seq 1 12))
                    0x1.4p-1063%float 0x1.4p-1063%float)
    by (rewrite <- Hr; exact Hs).
  match type of Hs' with
  | _ = ?rhs =>
      let v := eval vm_compute in rhs in
      replace rhs with v in Hs' by (vm_compute; reflexivity)
  end.
  destruct (summary_rate_and_months _ _ _ Hres) as [Hrs HT].
  pose (dummy := mkEntry 0%float 0%float 0%float 0%float).
  exists res, (removelast (series res)), (last (series res) dummy).
  split; [exact Hres |].
  split; [rewrite Hs'; reflexivity |].
  unfold JS64 in *.
  rewrite Hrs, HT. fold (closedFormOf (JS := binary64 pow) underflowParams). rewrite Hr, Hc.
  split; [reflexivity |]. split; [reflexivity |]. split; [reflexivity |].
  split.
  - rewrite (futureValue_of_result _ _ _ Hres), Hc. reflexivity.
  - rewrite Hs'. reflexivity.
Qed.

(** The runs that refute a claim as stated, for a conforming [Math.pow]. *)
Hypothesis Hes : conforms_to_ES pow.

(** Overflow: the net annual rate and the monthly rate are +Infinity
    ([Math.pow(Infinity, 1/12)] is +Infinity by ECMAScript). *)
Lemma overflow_rate (P C : float) :
  rateOf (mkParams P C (-1e308)%float 1e308%float 0%float 1%float) = infinity.
Proof.
  unfold rateOf, calculateMonthlyRate. cbn. es_pow pow Hes infinity. reflexivity.
Qed.

(** There the closed form is NaN (Infinity + 0 * (Infinity / Infinity)) ... *)
Lemma overflow_closed_form : closedFormOf overflowParams = nan.
Proof.
  unfold closedFormOf, overflowParams. rewrite overflow_rate.
  unfold closedFormFutureValue. cbn. es_pow pow Hes infinity. reflexivity.
Qed.

(** ... while the future value is the fallback, +Infinity. *)
Lemma overflow_future_value :
  exists res,
    generateMonthlySeries 13 overflowParams = Some res /\
    futureValue (summary res) = infinity.
Proof.
  destruct (run_one_year overflowParams eq_refl) as (res & Hres & Hs).
  exists res. split; [exact Hres |].
  rewrite (futureValue_of_result _ _ _ Hres), overflow_closed_form, Hs.
  unfold overflowParams. rewrite overflow_rate. reflexivity.
Qed.


(** With nothing invested the balance is 0 * Infinity = NaN from the first
    month on. *)
Lemma overflow_nothing_series :
  exists res,
    generateMonthlySeries 13 overflowNothingParams = Some res /\
    forallb (fun e => #0 <=? totalValue e) (series res) = false.
Proof.
  destruct (run_one_year overflowNothingParams eq_refl) as (res & Hres & Hs).
  exists res. split; [exact Hres |].
  rewrite Hs. unfold overflowNothingParams. rewrite overflow_rate. reflexivity.
Qed.

(** Total loss: the monthly rate is -1 and the series does not involve
    [Math.pow]. *)
Lemma total_loss_series :
  exists res,
    generateMonthlySeries 13 totalLossParams = Some res /\
    forallb (fun e => totalValue e === totalContributed e + interestAccumulated e)
            (series res) = false.
Proof.
  destruct (run_one_year totalLossParams eq_refl) as (res & Hres & Hs).
  exists res. split; [exact Hres |]. rewrite Hs. vm_compute. reflexivity.
Qed.

(** Nothing invested: the future value and the real value are both zero. *)
Lemma nothing_invested_values :
  exists res,
    generateMonthlySeries 13 nothingInvestedParams = Some res /\
    futureValue (summary res) = 0%float /\
    (futureValueReal (summary res) <? futureValue (summary res)) = false.
Proof.
  destruct (run_one_year nothingInvestedParams eq_refl) as (res & Hres & Hs).
  exists res. split; [exact Hres |].
  assert (Hfv : futureValue (summary res) = 0%float).
  { rewrite (futureValue_of_result _ _ _ Hres).
    replace (closedFormOf nothingInvestedParams) with 0%float; [reflexivity |].
    unfold closedFormOf, closedFormFutureValue. cbn.
    es_pow pow Hes 0%float. reflexivity. }
  split; [exact Hfv |].
  destruct (generateMonthlySeries_inv _ _ _ Hres) as (ms & _ & _ & Hsum).
  rewrite Hsum at 1. rewrite futureValueReal_summarize. rewrite <- Hsum, Hfv.
  apply zero_over_not_negative.
Qed.



(** Total loss with 100 a month: the future value is 100, and so is the real
    value when the inflation factor is 1. *)
Lemma tiny_inflation_values :
  pow 1 1 = 1%float ->
  exists res,
    generateMonthlySeries 13 tinyInflationParams = Some res /\
    futureValue (summary res) = 100%float /\
    futureValueReal (summary res) = 100%float.
Proof.
  intros Hone.
  destruct (run_one_year tinyInflationParams eq_refl) as (res & Hres & Hs).
  exists res. split; [exact Hres |].
  assert (Hfv : futureValue (summary res) = 100%float).
  { rewrite (futureValue_of_result _ _ _ Hres).
    replace (closedFormOf tinyInflationParams) with 100%float; [reflexivity |].
    unfold closedFormOf, closedFormFutureValue. cbn.
    es_pow pow Hes 0%float. reflexivity. }
  split; [exact Hfv |].
  destruct (generateMonthlySeries_inv _ _ _ Hres) as (ms & _ & _ & Hsum).
  rewrite Hsum at 1. rewrite futureValueReal_summarize. rewrite <- Hsum, Hfv.
  unfold inflationFactorOf. cbn. use_pow pow Hone. reflexivity.
Qed.

Lemma tiny_value_values :
  pow (1 + 2 / 100) 1 = (1 + 2 / 100)%float ->
  exists res,
    generateMonthlySeries 13 tinyValueParams = Some res /\
    futureValue (summary res) = 0x1p-1074%float /\
    futureValueReal (summary res) = 0x1p-1074%float.
Proof.
  intros Hone.
  destruct (run_one_year tinyValueParams eq_refl) as (res & Hres & Hs).
  exists res. split; [exact Hres |].
  assert (Hfv : futureValue (summary res) = 0x1p-1074%float).
  { rewrite (futureValue_of_result _ _ _ Hres).
    replace (closedFormOf tinyValueParams) with 0x1p-1074%float; [reflexivity |].
    unfold closedFormOf, closedFormFutureValue. cbn.
    es_pow pow Hes 0%float. reflexivity. }
  split; [exact Hfv |].
  destruct (generateMonthlySeries_inv _ _ _ Hres) as (ms & _ & _ & Hsum).
  rewrite Hsum at 1. rewrite futureValueReal_summarize. rewrite <- Hsum, Hfv.
  unfold inflationFactorOf. cbn. use_pow pow Hone. reflexivity.
Qed.

End Binary64Runs.

(** ** Facts of the exact reading *)

Module ExactFacts.
Import Exact.
Local Open Scope R_scope.



Lemma Rltb_true (a b : R) : Rltb a b = true <-> a < b.
Proof. unfold Rltb. destruct (Rlt_dec a b); split; intros; (congruence || lra). Qed.

Lemma Rltb_false (a b : R) : Rltb a b = false <-> b <= a.
Proof. unfold Rltb. destruct (Rlt_dec a b); split; intros; (congruence || lra). Qed.

Lemma Reqb_true (a b : R) : Reqb a b = true <-> a = b.
Proof. unfold Reqb. destruct (Req_dec_T a b); split; intros; (congruence || lra). Qed.

Lemma Reqb_false (a b : R) : Reqb a b = false <-> a <> b.
Proof. unfold Reqb. destruct (Req_dec_T a b); split; intros; (congruence || lra). Qed.

(** [Math.round] of a real is a whole number, and of a whole number itself. *)
Lemma Rround_IZR (z : Z) : Rround (IZR z) = IZR z.
Proof.
  unfold Rround. f_equal. symmetry. apply Int_part_spec. lra.
Qed.


Lemma Rpow_root_pos (x y : R) : 0 < x -> 0 < Rpow x y.
Proof.
  intros Hx. unfold Rpow.
  destruct (Req_dec_T y 0); [lra |].
  destruct (Rlt_dec 0 x); [| lra]. unfold Rpower. apply exp_pos.
Qed.

End ExactFacts.

Section ExactProgram.
Import Exact ExactFacts.
#[local] Existing Instance exact.
Local Open Scope R_scope.










Lemma balanceAfter_zero_rate (P C : R) (n : nat) :
  balanceAfter P C 0 n = P + C * INR n.
Proof.
  induction n as [| n IH]; cbn [balanceAfter].
  - cbn. ring.
  - rewrite IH, S_INR. cbn. ring.
Qed.





(** Over the reals [validateInputs] accepts exactly the whole numbers 1 to
    50 as [years]. *)
Lemma yearsAccepted_exact (y : R) :
  yearsAccepted y = true <-> exists k : Z, (1 <= k <= 50)%Z /\ y = IZR k.
Proof.
  unfold yearsAccepted. cbn. unfold Rinteger. split.
  - intros H.
    apply andb_true_iff in H. destruct H as [H Hint].
    apply andb_true_iff in H. destruct H as [H H50].
    apply negb_true_iff in H, H50.
    apply Rltb_false in H, H50. apply Reqb_true in Hint.
    exists (Int_part y). split; [| exact Hint].
    rewrite Hint in H, H50. split; apply le_IZR; assumption.
  - intros (k & Hk & ->).
    assert (Hi : Int_part (IZR k) = k) by (symmetry; apply Int_part_spec; lra).
    rewrite Hi.
    replace (Rltb (IZR k) 1) with false by (symmetry; apply Rltb_false, IZR_le; lia).
    replace (Rltb 50 (IZR k)) with false by (symmetry; apply Rltb_false, IZR_le; lia).
    replace (Reqb (IZR k) (IZR k)) with true by (symmetry; now apply Reqb_true).
    reflexivity.
Qed.

(** Over the reals [validateInputs] reports no error exactly on the valid
    inputs. *)
Lemma validateInputs_exact (p : Params R) :
  validateInputs p = [] <-> valid_input p.
Proof.
  rewrite validateInputs_nil. unfold valid_input.
  rewrite (yearsAccepted_exact (years p)). reflexivity.
Qed.


End ExactProgram.
(** ** Runs of the quick tests *)

Module QuickFacts.
Import B64 UI.

Section QuickRuns.
Variable pow : float -> float -> float.
Let JS64 : JSNumber float := binary64 pow.
#[local] Existing Instance JS64.

Lemma quick_run (p : Params float) (y : Z) (fuel : nat) :
  (1 <= y <= 50)%Z -> years p = float_of_Z y -> (600 < fuel)%nat ->
  exists res,
    generateMonthlySeries fuel p = Some res /\
    totalMonths (summary res) = float_of_Z (12 * y) /\
    totalContributions (summary res)
    = (initialCapital p + monthlyContribution p * float_of_Z (12 * y))%float /\
    futureValue (summary res)
    = (if isFinite (closedFormOf p) then closedFormOf p
       else lastTotalValueOr (series res) (initialCapital p)).
Proof.
  intros Hy Hyears Hfuel.
  destruct (run_binary64 pow p y fuel Hy Hyears ltac:(lia)) as (HT & res & Hres & _).
  exists res. split; [exact Hres |].
  destruct (generateMonthlySeries_inv _ _ _ Hres) as (ms & _ & _ & Hsum).
  split; [| split].
  - rewrite Hsum. cbn [totalMonths summarize]. exact HT.
  - rewrite Hsum. cbn [totalContributions summarize]. now rewrite HT.
  - apply (futureValue_of_result _ _ _ Hres).
Qed.

Lemma zero_rate_closed_form :
  (abs (pow 1 (1 / 12) - 1) <? 1e-12)%float = true ->
  closedFormOf zeroRateParams = 3400%float.
Proof.
  intros Hpow. unfold closedFormOf, closedFormFutureValue.
  change (rateOf zeroRateParams) with (pow 1 (1 / 12) - 1)%float.
  cbn [Math_abs js_lt js_1em12 binary64 JS64]. rewrite Hpow. reflexivity.
Qed.

End QuickRuns.

End QuickFacts.

(** ** A zero rate, in every reading *)

Section ZeroRate.
Context {num : Type} {JS : JSNumber num}.
Local Open Scope js_scope.

Lemma entriesFrom_zero_rate (r C : num) (ms : list num) :
  (r === #0) = true ->
  forall b, Forall (fun e => totalValue e = totalContributed e) (entriesFrom r C ms b b).
Proof.
  intros Hr. induction ms as [| m ms IH]; intros b; cbn [entriesFrom]; constructor.
  - cbn [totalValue totalContributed]. unfold nextBalance. now rewrite Hr.
  - replace (nextBalance r C b) with (b + C) by (unfold nextBalance; now rewrite Hr).
    apply IH.
Qed.

End ZeroRate.

(** ** Facts of the UI layer *)

Module UIFacts.
Import B64 UI UICheck.
Local Open Scope string_scope.
Local Open Scope float_scope.

Lemma renderTable_table :
  forallb (fun len => forallb (renderTable_check len) (map Z.of_nat (seq 0 14))) (seq 0 601) = true.
Proof. vm_compute. reflexivity. Qed.

Lemma IntegerOrInfinity_eqb_eq (a b : IntegerOrInfinity) :
  IntegerOrInfinity_eqb a b = true -> a = b.
Proof.
  destruct a, b; cbn; try discriminate; try reflexivity.
  intros H. apply Z.eqb_eq in H. now subst.
Qed.

Lemma eqb_bool_eq (a b : bool) : Bool.eqb a b = true -> a = b.
Proof. destruct a, b; cbn; congruence. Qed.

Lemma renderTable_numbers (len : nat) (page : Z) :
  (len <= 600)%nat -> (0 <= page <= 13)%Z ->
  let T := totalPagesOf len in
  let c := pageShown len page in
  let totalPages := Math_max 1 (Math_ceil (float_of_Z (Z.of_nat len) / 50)) in
  let currentPage := Math_min (Math_max (float_of_Z page) 1) totalPages in
  totalPages = float_of_Z T /\
  currentPage = float_of_Z c /\
  ToIntegerOrInfinity ((currentPage - 1) * 50) = Integer (50 * (c - 1)) /\
  ToIntegerOrInfinity ((currentPage - 1) * 50 + 50) = Integer (50 * c) /\
  (currentPage =? 1) = (c =? 1)%Z /\
  (currentPage =? totalPages) = (c =? T)%Z /\
  currentPage + 1 = float_of_Z (c + 1) /\
  currentPage - 1 = float_of_Z (c - 1).
Proof.
  intros Hlen Hpage.
  pose proof renderTable_table as Ht. rewrite forallb_forall in Ht.
  specialize (Ht len ltac:(apply in_seq; lia)). rewrite forallb_forall in Ht.
  specialize (Ht page).
  assert (Hin : In page (map Z.of_nat (seq 0 14))).
  { apply in_map_iff. exists (Z.to_nat page). split; [lia |]. apply in_seq. lia. }
  specialize (Ht Hin). unfold renderTable_check in Ht. cbv zeta in Ht.
  repeat (apply andb_true_iff in Ht; destruct Ht as [Ht ?]).
  cbv zeta.
  repeat split;
    first [ apply FloatAxioms.Leibniz.eqb_spec; assumption
          | apply IntegerOrInfinity_eqb_eq; assumption
          | apply eqb_bool_eq; assumption ].
Qed.

Lemma pageShown_bounds (len : nat) (page : Z) :
  (1 <= pageShown len page <= totalPagesOf len)%Z.
Proof. unfold pageShown, totalPagesOf. lia. Qed.

Lemma totalPagesOf_bounds (len : nat) :
  (len <= 600)%nat -> (1 <= totalPagesOf len <= 12)%Z.
Proof.
  intros H. unfold totalPagesOf.
  assert ((Z.of_nat len + 49) / 50 < 13)%Z.
  { apply Z.div_lt_upper_bound; lia. }
  lia.
Qed.

Lemma totalPagesOf_covers (len : nat) : (Z.of_nat len <= 50 * totalPagesOf len)%Z.
Proof.
  unfold totalPagesOf.
  pose proof (Z.div_mod (Z.of_nat len + 49) 50 ltac:(lia)) as H.
  pose proof (Z.mod_pos_bound (Z.of_nat len + 49) 50 ltac:(lia)). lia.
Qed.

Lemma totalPagesOf_tight (len : nat) :
  (0 < len)%nat -> (50 * (totalPagesOf len - 1) < Z.of_nat len)%Z.
Proof.
  intros Hpos. unfold totalPagesOf.
  pose proof (Z.div_mod (Z.of_nat len + 49) 50 ltac:(lia)) as H.
  pose proof (Z.mod_pos_bound (Z.of_nat len + 49) 50 ltac:(lia)).
  assert (1 <= (Z.of_nat len + 49) / 50)%Z by (apply Z.div_le_lower_bound; lia).
  lia.
Qed.

Section RenderTable.
Variable Number_toString : float -> String.string.
Variable numberFormatter_format : float -> String.string.
Let render := renderTable Number_toString numberFormatter_format.
Let row := rowOf Number_toString numberFormatter_format.

Lemma slice_page {A : Type} (l : list A) (c : Z) (start end_ : float) :
  (1 <= c)%Z ->
  ToIntegerOrInfinity start = Integer (50 * (c - 1)) ->
  ToIntegerOrInfinity end_ = Integer (50 * c) ->
  slice l start end_ = pageEntries l c.
Proof.
  intros Hc Hs He. unfold slice, pageEntries. rewrite Hs, He. cbn [relativeIndex].
  replace (50 * (c - 1) <? 0)%Z with false by (symmetry; apply Z.ltb_ge; lia).
  replace (50 * c <? 0)%Z with false by (symmetry; apply Z.ltb_ge; lia).
  set (len := Z.of_nat (length l)).
  destruct (Z.le_gt_cases len (50 * (c - 1))) as [Hout | Hin].
  - rewrite !skipn_all2 by lia. now rewrite !firstn_nil.
  - replace (Z.min (50 * (c - 1)) len) with (50 * (c - 1))%Z by lia.
    destruct (Z.le_gt_cases (50 * c) len) as [Hfull | Hpart].
    + replace (Z.min (50 * c) len) with (50 * c)%Z by lia.
      f_equal. lia.
    + replace (Z.min (50 * c) len) with len by lia.
      rewrite !firstn_all2; [reflexivity | |]; rewrite length_skipn; lia.
Qed.

Lemma renderTable_shows_page (app : App) (page : Z) :
  let series := state_series (state app) in
  let len := length series in
  let T := totalPagesOf len in
  let c := pageShown len page in
  rowsPerPage (state app) = 50%float ->
  (len <= 600)%nat ->
  (0 <= page <= 13)%Z ->
  let app' := render (float_of_Z page) app in
  state_series (state app') = series /\
  currentPage (state app') = float_of_Z c /\
  tableBody (document app') = map row (pageEntries series c) /\
  prevPageButton_disabled (document app') = (c =? 1)%Z /\
  nextPageButton_disabled (document app') = ((c =? T)%Z || (len =? 0)%nat)%bool /\
  pageInfo (document app')
  = (if (0 <? len)%nat
     then String.append "Página "
            (String.append (Number_toString (float_of_Z c))
               (String.append " / " (Number_toString (float_of_Z T))))
     else "Página 0 / 0")%string.
Proof.
  intros series len T c Hrows Hlen Hpage app'.
  destruct (renderTable_numbers len page Hlen Hpage)
    as (HT & Hc & Hstart & Hend & Hfirst & Hlast & _ & _).
  pose proof (pageShown_bounds len page) as Hb.
  subst app' render. unfold renderTable. cbv zeta.
  cbn [state document set_state set_document set_currentPage set_tableBody set_pager
       state_series currentPage rowsPerPage tableBody prevPageButton_disabled
       nextPageButton_disabled pageInfo].
  rewrite Hrows. unfold length_of. fold series. fold len.
  rewrite HT. rewrite HT in Hc, Hstart, Hend, Hfirst, Hlast.
  rewrite Hc. rewrite Hc in Hstart, Hend, Hfirst, Hlast.
  repeat split; try reflexivity.
  - f_equal. apply slice_page; [lia | exact Hstart | exact Hend].
  - exact Hfirst.
  - f_equal. exact Hlast.
Qed.

End RenderTable.

Lemma page_roundtrip_table : forallb page_roundtrip_check (map Z.of_nat (seq 0 14)) = true.
Proof. vm_compute. reflexivity. Qed.

Lemma ToIntegerOrInfinity_page (page : Z) :
  (0 <= page <= 13)%Z -> ToIntegerOrInfinity (float_of_Z page) = Integer page.
Proof.
  intros Hpage. pose proof page_roundtrip_table as Ht. rewrite forallb_forall in Ht.
  apply IntegerOrInfinity_eqb_eq, Ht.
  apply in_map_iff. exists (Z.to_nat page). split; [lia |]. apply in_seq. lia.
Qed.

Section Frame.
Variable Number_toString : float -> String.string.
Variable numberFormatter_format : float -> String.string.
Let render := renderTable Number_toString numberFormatter_format.

(** What [renderTable] leaves alone. *)
Lemma renderTable_frame (page : float) (app : App) :
  let app' := render page app in
  environment app' = environment app /\
  chartInstance (state app') = chartInstance (state app) /\
  state_series (state app') = state_series (state app) /\
  rowsPerPage (state app') = rowsPerPage (state app) /\
  kpiNominal (document app') = kpiNominal (document app) /\
  kpiReal (document app') = kpiReal (document app) /\
  kpiContributed (document app') = kpiContributed (document app) /\
  kpiGrowth (document app') = kpiGrowth (document app) /\
  exportButton_disabled (document app') = exportButton_disabled (document app) /\
  saveButton_text (document app') = saveButton_text (document app) /\
  themeSwitch_checked (document app') = themeSwitch_checked (document app) /\
  body_dark (document app') = body_dark (document app) /\
  fields (document app') = fields (document app).
Proof. repeat split. Qed.

Lemma renderTable_pageNumber (app : App) (page : Z) :
  rowsPerPage (state app) = 50 ->
  (length (state_series (state app)) <= 600)%nat ->
  (0 <= page <= 13)%Z ->
  pageNumber (render (float_of_Z page) app)
  = pageShown (length (state_series (state app))) page.
Proof.
  intros Hrows Hlen Hpage.
  destruct (renderTable_shows_page Number_toString numberFormatter_format app page
              Hrows Hlen Hpage) as (_ & Hc & _).
  unfold pageNumber. fold render in Hc. rewrite Hc.
  pose proof (pageShown_bounds (length (state_series (state app))) page) as Hb.
  pose proof (totalPagesOf_bounds _ Hlen).
  rewrite ToIntegerOrInfinity_page by lia. reflexivity.
Qed.

End Frame.




Lemma pageEntries_next {A : Type} (l : list A) (k : nat) :
  pageEntries l (Z.of_nat (S (S k))) = pageEntries (skipn 50 l) (Z.of_nat (S k)).
Proof.
  unfold pageEntries. f_equal. rewrite skipn_skipn. f_equal. lia.
Qed.

Lemma concat_pages {A : Type} (T : nat) :
  forall l : list A,
    (length l <= 50 * T)%nat ->
    concat (map (fun k => pageEntries l (Z.of_nat k)) (seq 1 T)) = l.
Proof.
  induction T as [| T IH]; intros l Hlen.
  - destruct l; [reflexivity | cbn in Hlen; lia].
  - cbn [seq map concat]. rewrite <- seq_shift, map_map.
    rewrite (map_ext_in _ (fun k => pageEntries (skipn 50 l) (Z.of_nat k)))
      by (intros k Hk; apply in_seq in Hk; destruct k; [lia | apply pageEntries_next]).
    rewrite IH by (rewrite length_skipn; lia).
    unfold pageEntries. change (Z.to_nat (50 * (Z.of_nat 1 - 1))) with 0%nat.
    cbn [skipn]. apply firstn_skipn.
Qed.

Lemma pageEntries_length {A : Type} (l : list A) (c : Z) :
  (1 <= c)%Z ->
  length (pageEntries l c) = Nat.min 50 (length l - Z.to_nat (50 * (c - 1))).
Proof.
  intros Hc. unfold pageEntries. rewrite length_firstn, length_skipn. reflexivity.
Qed.

Lemma getItem_setItem (storage : Storage) (key value key' : String.string) :
  getItem (setItem storage key value) key'
  = if String.eqb key key' then Some value else getItem storage key'.
Proof.
  induction storage as [| [k v] storage IH]; cbn [setItem getItem].
  - destruct (String.eqb key key'); reflexivity.
  - destruct (String.eqb k key) eqn:E; cbn [getItem].
    + apply String.eqb_eq in E. subst k.
      destruct (String.eqb key key'); reflexivity.
    + rewrite IH. destruct (String.eqb k key') eqn:E'; [| reflexivity].
      apply String.eqb_eq in E'. subst k. now rewrite String.eqb_sym, E.
Qed.

Lemma errorName_eqb (k k' : ErrorKey) :
  String.eqb (errorName k') (errorName k) = true -> k' = k.
Proof. destruct k, k'; cbn; intros H; (reflexivity || discriminate H). Qed.

Lemma errorMessage_truthy (k : ErrorKey) : truthy (errorMessage k) = true.
Proof. destruct k; reflexivity. Qed.

Lemma errorText_named (inherited : String.string -> option String.string)
    (errors : list ErrorKey) (k : ErrorKey) :
  inherited (errorName k) = None ->
  (In k errors -> errorText inherited errors (errorName k) = errorMessage k) /\
  (~ In k errors -> errorText inherited errors (errorName k) = "").
Proof.
  intros Hin. unfold errorText.
  induction errors as [| k' errors IH]; cbn [find].
  - rewrite Hin. split; [intros [] | reflexivity].
  - destruct (String.eqb (errorName k') (errorName k)) eqn:E.
    + apply errorName_eqb in E. subst k'. rewrite errorMessage_truthy.
      split; [reflexivity |]. intros H. destruct H. now left.
    + destruct IH as [IH1 IH2]. split.
      * intros [-> | H]; [| exact (IH1 H)].
        now rewrite String.eqb_refl in E.
      * intros H. apply IH2. intros H'. apply H. now right.
Qed.


Section InOrder.
Variable Number_toString : float -> String.string.
Variable numberFormatter_format : float -> String.string.
Variable Chart_defined : bool.

Let render := renderTable Number_toString numberFormatter_format.
Let chartOK := ChartOK Number_toString Chart_defined.
Let tableOK := TableOK Number_toString numberFormatter_format.
Let stateOK := StateOK Number_toString Chart_defined.
Let consistent := Consistent Number_toString numberFormatter_format Chart_defined.

(** [renderTable] puts the pager and the table in order, whatever page
    [state] held. *)
Lemma render_pager (app : App) (page : Z) :
  rowsPerPage (state app) = 50 ->
  (length (state_series (state app)) <= 600)%nat ->
  (0 <= page <= 13)%Z ->
  PagerOK (render (float_of_Z page) app) /\ tableOK (render (float_of_Z page) app) /\
  pageNumber (render (float_of_Z page) app)
  = pageShown (length (state_series (state app))) page.
Proof.
  intros Hrows Hlen Hpage.
  pose proof (renderTable_pageNumber Number_toString numberFormatter_format app page
                Hrows Hlen Hpage) as Hn. fold render in Hn.
  destruct (renderTable_shows_page Number_toString numberFormatter_format app page
              Hrows Hlen Hpage) as (_ & Hc & Htable & Hprev & Hnext & Hinfo).
  fold render in Hc, Htable, Hprev, Hnext, Hinfo.
  pose proof (pageShown_bounds (length (state_series (state app))) page) as Hb.
  unfold PagerOK, tableOK, TableOK. cbv zeta. rewrite Hn.
  conjs; try assumption; try apply Hb; reflexivity.
Qed.

Lemma render_chartOK (page : float) (app : App) : chartOK app -> chartOK (render page app).
Proof. intros H. exact H. Qed.

Lemma render_exportOK (page : float) (app : App) : ExportOK app -> ExportOK (render page app).
Proof. intros H. exact H. Qed.

Lemma pageNumber_one (app : App) : currentPage (state app) = 1 -> pageNumber app = 1%Z.
Proof. intros H. unfold pageNumber. rewrite H. reflexivity. Qed.

Lemma clearResults_state (app : App) :
  state (clearResults app) = mkState None [] 1 (rowsPerPage (state app)) /\
  liveCharts (environment (clearResults app))
  = match chartInstance (state app) with
    | Some _ => Nat.pred (liveCharts (environment app))
    | None => liveCharts (environment app)
    end /\
  localStorage (environment (clearResults app)) = localStorage (environment app) /\
  downloads (environment (clearResults app)) = downloads (environment app) /\
  pendingTimeouts (environment (clearResults app)) = pendingTimeouts (environment app).
Proof.
  destruct app as [[chart series page rows] doc env].
  unfold clearResults. cbv zeta. ui_cbn.
  destruct chart; ui_cbn; conjs; reflexivity.
Qed.

Lemma clearResults_document (app : App) :
  document (clearResults app)
  = mkDocument "—" "—" "—" "—" [] true true "Página 0 / 0" true
      (saveButton_text (document app)) (themeSwitch_checked (document app))
      (body_dark (document app)) (fields (document app)).
Proof.
  destruct app as [[chart series page rows] doc env].
  unfold clearResults. cbv zeta. ui_cbn.
  destruct chart; reflexivity.
Qed.

Lemma clearResults_consistent (app : App) :
  rowsPerPage (state app) = 50 ->
  liveCharts (environment app)
  = match chartInstance (state app) with Some _ => 1%nat | None => 0%nat end ->
  consistent (clearResults app).
Proof.
  intros Hrows Hlive.
  destruct (clearResults_state app) as (Hst & Hcharts & _).
  pose proof (clearResults_document app) as Hdoc.
  assert (Hn : pageNumber (clearResults app) = 1%Z)
    by (apply pageNumber_one; rewrite Hst; reflexivity).
  unfold consistent, Consistent, PagerOK, ChartOK, TableOK, ExportOK. cbv zeta.
  rewrite Hn, Hst, Hdoc, Hcharts. ui_cbn. cbn [length].
  conjs.
  - exact Hrows.
  - lia.
  - reflexivity.
  - reflexivity.
  - reflexivity.
  - destruct (chartInstance (state app)); rewrite Hlive; reflexivity.
  - discriminate.
  - reflexivity.
  - reflexivity.
  - reflexivity.
  - reflexivity.
  - discriminate.
Qed.

Lemma createChart_spec (series : list (Entry float)) (app : App) :
  state_series (state app) = series ->
  liveCharts (environment app)
  = match chartInstance (state app) with Some _ => 1%nat | None => 0%nat end ->
  (forall chart, chartInstance (state app) = Some chart -> Chart_defined = true) ->
  let app' := createChart Number_toString Chart_defined series app in
  chartOK app' /\
  document app' = document app /\
  state_series (state app') = series /\
  currentPage (state app') = currentPage (state app) /\
  rowsPerPage (state app') = rowsPerPage (state app).
Proof.
  intros Hs Hlive Hchart.
  destruct app as [[chart series' page rows] doc env]. ui_cbn. subst series'.
  unfold createChart, chartOK, ChartOK. cbv zeta.
  destruct Chart_defined eqn:Hdef; cbn [negb]; ui_cbn.
  - destruct chart as [old |]; ui_cbn; conjs; try reflexivity.
    all: try (intros chart [= <-]; split; reflexivity).
    all: try (rewrite Hlive; reflexivity).
  - conjs; try reflexivity; try assumption.
    intros c Hc. discriminate (Hchart c Hc).
Qed.

Lemma pageNumber_state (app app' : App) :
  currentPage (state app') = currentPage (state app) -> pageNumber app' = pageNumber app.
Proof. intros H. unfold pageNumber. now rewrite H. Qed.

Lemma PagerOK_state (app app' : App) :
  state_series (state app') = state_series (state app) ->
  currentPage (state app') = currentPage (state app) ->
  rowsPerPage (state app') = rowsPerPage (state app) ->
  PagerOK app -> PagerOK app'.
Proof.
  intros Hs Hc Hr. unfold PagerOK. rewrite (pageNumber_state _ _ Hc), Hs, Hc, Hr. trivial.
Qed.

Lemma TableOK_state (app app' : App) :
  state_series (state app') = state_series (state app) ->
  currentPage (state app') = currentPage (state app) ->
  tableBody (document app') = tableBody (document app) ->
  prevPageButton_disabled (document app') = prevPageButton_disabled (document app) ->
  nextPageButton_disabled (document app') = nextPageButton_disabled (document app) ->
  pageInfo (document app') = pageInfo (document app) ->
  tableOK app -> tableOK app'.
Proof.
  intros Hs Hc Ht Hp Hn Hi. unfold tableOK, TableOK. cbv zeta.
  rewrite (pageNumber_state _ _ Hc), Hs, Ht, Hp, Hn, Hi. trivial.
Qed.

(** An accepted submit leaves the page in order. *)
Lemma submit_accepted_consistent (app app' : App)
    (result : Result float) (y : Z) :
  (1 <= y <= 50)%Z ->
  length (series result) = Z.to_nat (12 * y) ->
  stateOK app ->
  app' = set_document (set_exportButton_disabled false)
           (createChart Number_toString Chart_defined (series result)
              (render 1
                 (updateKpis numberFormatter_format (summary result)
                    (set_state (set_series (series result)) (clearErrors app))))) ->
  consistent app' /\ pageNumber app' = 1%Z /\ state_series (state app') = series result.
Proof.
  intros Hy Hlen [(Hrows & _) (Hlive & Hchart)] ->.
  set (app2 := updateKpis numberFormatter_format (summary result)
                 (set_state (set_series (series result)) (clearErrors app))).
  assert (Hrows2 : rowsPerPage (state app2) = 50) by exact Hrows.
  assert (Hs2 : state_series (state app2) = series result) by reflexivity.
  assert (Hlen2 : (length (state_series (state app2)) <= 600)%nat) by (rewrite Hs2, Hlen; lia).
  destruct (render_pager app2 1%Z Hrows2 Hlen2 ltac:(lia)) as (Hpager & Htable & Hn).
  change (float_of_Z 1) with 1 in Hpager, Htable, Hn.
  set (app3 := render 1 app2) in *.
  assert (Hs3 : state_series (state app3) = series result) by reflexivity.
  destruct (createChart_spec (series result) app3 Hs3) as (Hchart4 & Hdoc4 & Hs4 & Hc4 & Hr4).
  { exact Hlive. }
  { intros chart Hc. exact (proj1 (Hchart chart Hc)). }
  set (app4 := createChart Number_toString Chart_defined (series result) app3) in *.
  assert (Hone : pageNumber app3 = 1%Z).
  { rewrite Hn. unfold pageShown, totalPagesOf. lia. }
  split; [| split].
  - unfold consistent, Consistent. conjs.
    + refine (PagerOK_state app3 _ _ _ _ Hpager); [rewrite Hs3 | |]; assumption.
    + exact Hchart4.
    + refine (TableOK_state app3 _ _ _ _ _ _ _ Htable);
        try (cbn [document set_document]; ui_cbn; rewrite Hdoc4; reflexivity).
      * rewrite Hs3. exact Hs4.
      * exact Hc4.
    + intros _. change (state_series (state app4) <> []). rewrite Hs4.
      intros E. rewrite E in Hlen. cbn [length] in Hlen. lia.
  - rewrite <- Hone. apply pageNumber_state. exact Hc4.
  - exact Hs4.
Qed.

Lemma step_prev_next (app : App) :
  stateOK app ->
  (0 <= pageNumber app - 1 <= 13)%Z /\ (0 <= pageNumber app + 1 <= 13)%Z /\
  currentPage (state app) - 1 = float_of_Z (pageNumber app - 1) /\
  currentPage (state app) + 1 = float_of_Z (pageNumber app + 1).
Proof.
  intros [(Hrows & Hlen & Hc & Hb) _].
  pose proof (totalPagesOf_bounds _ Hlen) as HT.
  destruct (renderTable_numbers (length (state_series (state app))) (pageNumber app) Hlen
              ltac:(lia)) as (_ & Hclamp & _ & _ & _ & _ & Hplus & Hminus).
  assert (Hsame : pageShown (length (state_series (state app))) (pageNumber app)
                  = pageNumber app) by (unfold pageShown; lia).
  rewrite Hsame in *.
  set (c := pageNumber app) in *.
  split; [lia |]. split; [lia |]. rewrite Hc. rewrite <- Hclamp. split; assumption.
Qed.

End InOrder.

Section Listeners.
Variable pow : float -> float -> float.
Variable Number_toString : float -> String.string.
Variable numberFormatter_format : float -> String.string.
Variable numberFormatterNoCurrency_format : float -> String.string.
Variable Chart_defined : bool.
Variable JSON_stringify : Params float -> String.string.
Variable inherited : String.string -> option String.string.

Let render := renderTable Number_toString numberFormatter_format.
Let tableOK := TableOK Number_toString numberFormatter_format.
Let stateOK := StateOK Number_toString Chart_defined.
Let submit := handleFormSubmit pow Number_toString numberFormatter_format Chart_defined inherited.
Let handleEvent :=
  handle pow Number_toString numberFormatter_format numberFormatterNoCurrency_format
         Chart_defined JSON_stringify inherited.
Let handleEvents :=
  handleAll pow Number_toString numberFormatter_format numberFormatterNoCurrency_format
            Chart_defined JSON_stringify inherited.

(** The two outcomes of a submit. *)
Lemma submit_rejected (fuel : nat) (values : Params float) (app : App) :
  validateInputs (JS := binary64 pow) values <> [] ->
  submit fuel values app
  = Some (clearResults
            (showErrors inherited (validateInputs (JS := binary64 pow) values)
                        (clearErrors app))).
Proof.
  intros Hbad. unfold submit, handleFormSubmit. cbv zeta.
  destruct (validateInputs values) as [| k errors]; [now destruct Hbad |]. reflexivity.
Qed.

Lemma submit_accepted (fuel : nat) (values : Params float) (app : App) :
  validateInputs (JS := binary64 pow) values = [] ->
  (600 < fuel)%nat ->
  exists (result : Result float) (y : Z),
    (1 <= y <= 50)%Z /\
    generateMonthlySeries (JS := binary64 pow) fuel values = Some result /\
    length (series result) = Z.to_nat (12 * y) /\
    submit fuel values app
    = Some (set_document (set_exportButton_disabled false)
              (createChart Number_toString Chart_defined (series result)
                 (render 1
                    (updateKpis numberFormatter_format (summary result)
                       (set_state (set_series (series result)) (clearErrors app)))))).
Proof.
  intros Hvalid Hfuel.
  pose proof Hvalid as Hv. apply B64Facts.validateInputs_binary64 in Hv.
  destruct Hv as (_ & _ & _ & _ & _ & y & Hy & Hyears).
  destruct (run_binary64 pow values y fuel Hy Hyears) as (_ & result & Hres & Hs); [lia |].
  exists result, y. split; [exact Hy |]. split; [exact Hres |]. split.
  - rewrite Hs. unfold seriesOfMonths. now rewrite length_map, length_seq.
  - unfold submit, handleFormSubmit. cbv zeta. rewrite Hvalid. cbn [length Nat.ltb Nat.leb].
    rewrite Hres. reflexivity.
Qed.

Lemma handle_step (fuel : nat) (event : Event) (app : App) :
  (600 < fuel)%nat ->
  stateOK app ->
  exists app',
    handleEvent fuel event app = Some app' /\
    stateOK app' /\
    (tableOK app \/ rendersTable event = true -> tableOK app') /\
    (ExportOK app \/ setsExportButton event = true -> ExportOK app').
Proof.
  intros Hfuel Hok. pose proof Hok as [Hpager Hchart].
  pose proof Hpager as (Hrows & Hlen & Hc & Hb). pose proof Hchart as (Hlive & Hdata).
  destruct event as [values | | | values | | | checked |]; cbn [rendersTable setsExportButton].
  - (* submit *)
    unfold handleEvent, handle. fold submit.
    destruct (validateInputs (JS := binary64 pow) values) as [| k errors] eqn:Hv.
    + destruct (submit_accepted fuel values app Hv Hfuel) as (result & y & Hy & _ & Hl & ->).
      destruct (submit_accepted_consistent Number_toString numberFormatter_format Chart_defined
                  app _ result y Hy Hl Hok eq_refl)
        as ((H1 & H2 & H3 & H4) & _).
      eexists. split; [reflexivity |]. split; [split; assumption |]. split; intros _; assumption.
    + rewrite (submit_rejected fuel values app) by (rewrite Hv; discriminate).
      rewrite Hv.
      destruct (clearResults_consistent Number_toString numberFormatter_format Chart_defined
                  (showErrors inherited (k :: errors) (clearErrors app)) Hrows Hlive)
        as (H1 & H2 & H3 & H4).
      eexists. split; [reflexivity |]. split; [split; assumption |]. split; intros _; assumption.
  - (* clear *)
    destruct (clearResults_consistent Number_toString numberFormatter_format Chart_defined
                (clearErrors app) Hrows Hlive) as (H1 & H2 & H3 & H4).
    eexists. split; [reflexivity |]. split; [split; assumption |]. split; intros _; assumption.
  - (* export *)
    eexists. split; [reflexivity |].
    unfold handleExport. destruct (length (state_series (state app)) =? 0)%nat.
    + split; [exact Hok |]. split; intros [H | H]; (exact H || discriminate H).
    + split; [exact Hok |]. split; intros [H | H]; (exact H || discriminate H).
  - (* save *)
    eexists. split; [reflexivity |].
    unfold saveParameters. cbv zeta.
    destruct (0 <? length (validateInputs values))%nat.
    + split; [exact Hok |]. split; intros [H | H]; (exact H || discriminate H).
    + split; [exact Hok |]. split; intros [H | H]; (exact H || discriminate H).
  - (* previous page *)
    destruct (step_prev_next Number_toString Chart_defined app Hok) as (Hp & _ & Hfloat & _).
    eexists. split; [reflexivity |]. unfold handle. fold render. rewrite Hfloat.
    destruct (render_pager Number_toString numberFormatter_format app _ Hrows Hlen Hp)
      as (H1 & H2 & _).
    split; [split; [exact H1 | exact Hchart] |].
    split; [intros _; exact H2 |].
    intros [H | H]; [exact H | discriminate H].
  - (* next page *)
    destruct (step_prev_next Number_toString Chart_defined app Hok) as (_ & Hp & _ & Hfloat).
    eexists. split; [reflexivity |]. unfold handle. fold render. rewrite Hfloat.
    destruct (render_pager Number_toString numberFormatter_format app _ Hrows Hlen Hp)
      as (H1 & H2 & _).
    split; [split; [exact H1 | exact Hchart] |].
    split; [intros _; exact H2 |].
    intros [H | H]; [exact H | discriminate H].
  - (* theme *)
    eexists. split; [reflexivity |].
    split; [exact Hok |]. split; intros [H | H]; (exact H || discriminate H).
  - (* timeout *)
    unfold handleEvent, handle. destruct (pendingTimeouts (environment app)).
    + eexists. split; [reflexivity |].
      split; [exact Hok |]. split; intros [H | H]; (exact H || discriminate H).
    + eexists. split; [reflexivity |].
      split; [exact Hok |]. split; intros [H | H]; (exact H || discriminate H).
Qed.

Lemma handleEvents_stateOK (fuel : nat) (events : list Event) :
  (600 < fuel)%nat ->
  forall app,
    stateOK app ->
    exists app',
      handleEvents fuel events app = Some app' /\ stateOK app' /\
      (tableOK app -> tableOK app') /\ (ExportOK app -> ExportOK app').
Proof.
  intros Hfuel. induction events as [| event events IH]; intros app Hok.
  - exists app. cbn. auto.
  - destruct (handle_step fuel event app Hfuel Hok) as (app1 & H1 & Hok1 & Ht1 & He1).
    destruct (IH app1 Hok1) as (app' & H' & Hok' & Ht' & He').
    exists app'. unfold handleEvents in *. cbn [handleAll]. fold handleEvent. rewrite H1.
    split; [exact H' |]. split; [exact Hok' |]. split; auto.
Qed.

Lemma handleEvents_app (fuel : nat) (events1 events2 : list Event) (app : App) :
  handleEvents fuel (events1 ++ events2) app
  = match handleEvents fuel events1 app with
    | Some app1 => handleEvents fuel events2 app1
    | None => None
    end.
Proof.
  revert app. induction events1 as [| event events1 IH]; intros app.
  - reflexivity.
  - unfold handleEvents in *. cbn [handleAll List.app].
    destruct (handle _ _ _ _ _ _ _ fuel event app) as [app1 |]; [apply IH | reflexivity].
Qed.

End Listeners.

Section SubmitOutcomes.
Variable pow : float -> float -> float.
Variable Number_toString : float -> String.string.
Variable numberFormatter_format : float -> String.string.
Variable numberFormatterNoCurrency_format : float -> String.string.
Variable Chart_defined : bool.
Variable JSON_stringify : Params float -> String.string.
Variable inherited : String.string -> option String.string.
Let JS : JSNumber float := B64.binary64 pow.
#[local] Existing Instance JS.

Lemma fields_after_clear_show (errors : list ErrorKey) (app : App) :
  errors <> [] ->
  fields (document (showErrors inherited errors (clearErrors app)))
  = map (fieldAfterSubmit inherited errors) (fields (document app)).
Proof.
  intros Hne. unfold showErrors, clearErrors. ui_cbn. rewrite map_map.
  apply map_ext. intros [input error]. unfold fieldAfterSubmit. cbn [field_input field_error].
  destruct error as [text |]; cbn [field_input field_error].
  - destruct input as [key |]; [| reflexivity].
    destruct errors; [now destruct Hne | reflexivity].
  - destruct input; reflexivity.
Qed.

Lemma fields_after_clear (app : App) :
  fields (document (clearErrors app))
  = map (fieldAfterSubmit inherited []) (fields (document app)).
Proof.
  unfold clearErrors. ui_cbn. apply map_ext. intros [input error].
  unfold fieldAfterSubmit. cbn [field_input field_error].
  destruct error as [text |]; [| reflexivity]. destruct input; reflexivity.
Qed.

Lemma handle_keeps_theme (fuel : nat) (event : Event) (app app' : App) :
  handle pow Number_toString numberFormatter_format numberFormatterNoCurrency_format
         Chart_defined JSON_stringify inherited fuel event app = Some app' ->
  keepsTheme event = true ->
  getItem (localStorage (environment app')) themeKey
  = getItem (localStorage (environment app)) themeKey.
Proof.
  intros H Hkeep.
  destruct event as [values | | | values | | | checked |]; cbn [handle keepsTheme] in H, Hkeep;
    try discriminate Hkeep.
  - unfold handleFormSubmit in H. cbv zeta in H.
    destruct (0 <? length (validateInputs values))%nat.
    + injection H as <-.
      match goal with
      | |- context [clearResults ?a] => destruct (clearResults_state a) as (_ & _ & -> & _)
      end.
      reflexivity.
    + destruct (generateMonthlySeries fuel values) as [result |]; [| discriminate H].
      injection H as <-. unfold createChart.
      destruct Chart_defined; cbn [negb]; [| reflexivity].
      cbv zeta.
      match goal with
      | |- context [match ?x with Some _ => _ | None => _ end] => destruct x
      end; reflexivity.
  - injection H as <-. unfold handleClear.
    destruct (clearResults_state (clearErrors app)) as (_ & _ & -> & _). reflexivity.
  - injection H as <-. unfold handleExport.
    destruct (length (state_series (state app)) =? 0)%nat; reflexivity.
  - injection H as <-. unfold saveParameters. cbv zeta.
    destruct (0 <? length (validateInputs values))%nat; [reflexivity |].
    ui_cbn. rewrite getItem_setItem. reflexivity.
  - injection H as <-. reflexivity.
  - injection H as <-. reflexivity.
  - destruct (pendingTimeouts (environment app)); injection H as <-; reflexivity.
Qed.

Lemma handleAll_keeps_theme (fuel : nat) (events : list Event) :
  forall app app',
    handleAll pow Number_toString numberFormatter_format numberFormatterNoCurrency_format
              Chart_defined JSON_stringify inherited fuel events app = Some app' ->
    forallb keepsTheme events = true ->
    getItem (localStorage (environment app')) themeKey
    = getItem (localStorage (environment app)) themeKey.
Proof.
  induction events as [| event events IH]; intros app app' H Hkeep; cbn [handleAll] in H.
  - now injection H as <-.
  - cbn [forallb] in Hkeep. apply andb_true_iff in Hkeep. destruct Hkeep as [Hk Hks].
    destruct (handle _ _ _ _ _ _ _ fuel event app) as [app1 |] eqn:E; [| discriminate H].
    rewrite (IH _ _ H Hks). exact (handle_keeps_theme _ _ _ _ E Hk).
Qed.



End SubmitOutcomes.

(** The pages used as examples are in order. *)
Lemma tenYearsShown_consistent : Consistent noText noText false tenYearsShown.
Proof.
  unfold Consistent, PagerOK, ChartOK, TableOK, ExportOK. cbv zeta.
  conjs;
    first [ vm_compute; reflexivity
          | apply Nat.leb_le; vm_compute; reflexivity
          | vm_compute; discriminate
          | intros chart H; vm_compute in H; discriminate H
          | intros _; vm_compute; discriminate ].
Defined.

Lemma startApp_StateOK (Number_toString : float -> String.string) (Chart_defined : bool) :
  StateOK Number_toString Chart_defined startApp.
Proof.
  unfold StateOK, PagerOK, ChartOK.
  conjs;
    first [ reflexivity
          | apply Nat.leb_le; reflexivity
          | vm_compute; discriminate
          | intros chart H; discriminate H ].
Defined.

End UIFacts.

(** ** The claims *)

Import Exact ExactFacts.
#[local] Existing Instance exact.

(** C1.  For every valid input, the loop of [generateMonthlySeries] finishes
    and the series has exactly totalMonths = round(years * 12) entries, in the
    order month = 1, ..., totalMonths, entry m recording the balance and the
    contributed total of the recurrence (balance and contributed start at the
    initial capital; each month the balance is multiplied by 1 + monthlyRate
    and the contribution is added to both), with interestAccumulated =
    balance - contributed.  When totalMonths is zero the series is empty.
    Stated in binary64, for any [Math.pow]. *)
Theorem C1_series_follows_recurrence (pow : float -> float -> float) :
  let JS := B64.binary64 pow in
  (forall p : Params float,
     validateInputs p = [] ->
     exists n : nat,
       Math_round (years p * #12)%js = #(Z.of_nat n)%js /\
       forall fuel, (n < fuel)%nat ->
         exists res,
           generateMonthlySeries fuel p = Some res /\
           totalMonths (summary res) = Math_round (years p * #12)%js /\
           length (series res) = n /\
           series res
           = seriesOfMonths (initialCapital p) (monthlyContribution p) (rateOf p) n)
  /\
  (forall (p : Params float) (fuel : nat),
     (0 < fuel)%nat ->
     (Math_round (years p * #12) === #0)%js = true ->
     exists res, generateMonthlySeries fuel p = Some res /\ series res = []).
Proof.
  intros JS. subst JS. split.
  - intros p Hvalid.
    apply B64Facts.validateInputs_binary64 in Hvalid.
    destruct Hvalid as (_ & _ & _ & _ & _ & y & Hy & Hyears).
    exists (Z.to_nat (12 * y)). split.
    + destruct (run_binary64 pow p y (S (Z.to_nat (12 * y))) Hy Hyears) as [HT _]; [lia |].
      rewrite HT. f_equal. lia.
    + intros fuel Hfuel.
      destruct (run_binary64 pow p y fuel Hy Hyears Hfuel) as (_ & res & Hres & Hs).
      exists res. split; [exact Hres |].
      split; [apply (summary_rate_and_months _ _ _ Hres) |].
      split; [| exact Hs].
      rewrite Hs. unfold seriesOfMonths. now rewrite length_map, length_seq.
  - intros p [| fuel] Hfuel Hz; [lia |].
    pose (JS := B64.binary64 pow).
    assert (Hms : monthsFrom (Math_round (years p * #12)%js) (S fuel) #1%js = Some []).
    { cbn [monthsFrom]. cbn in Hz |- *.
      destruct (B64Facts.eqb_zero _ Hz) as [-> | ->]; reflexivity. }
    eexists. split; [apply (generateMonthlySeries_returns _ _ _ Hms) |]. reflexivity.
Qed.

Lemma C1_witness :
  let JS := B64.binary64 B64.reference_pow in
  exists n : nat,
    Math_round (years zeroRateParams * #12)%js = #(Z.of_nat n)%js /\
    forall fuel, (n < fuel)%nat ->
      exists res,
        generateMonthlySeries fuel zeroRateParams = Some res /\
        totalMonths (summary res) = Math_round (years zeroRateParams * #12)%js /\
        length (series res) = n /\
        series res
        = seriesOfMonths (initialCapital zeroRateParams) (monthlyContribution zeroRateParams)
                         (rateOf zeroRateParams) n.
Proof.
  exact (proj1 (C1_series_follows_recurrence B64.reference_pow) zeroRateParams eq_refl).
Defined.

(** C2, as stated, fails in binary64: for no conforming [Math.pow] is the
    future value the closed form on every input.  On [overflowParams] the
    closed form is NaN and the future value is the fallback, +Infinity. *)
Lemma C2_counterexample :
  ~ (exists pow : float -> float -> float,
       B64.conforms_to_ES pow /\
       forall (fuel : nat) (p : Params float) (res : Result float),
         validateInputs (JS := B64.binary64 pow) p = [] ->
         generateMonthlySeries (JS := B64.binary64 pow) fuel p = Some res ->
         futureValue (summary res)
         = closedFormFutureValue (JS := B64.binary64 pow)
             (initialCapital p) (monthlyContribution p)
             (monthlyRate (summary res)) (totalMonths (summary res))).
Proof.
  intros (pow & Hes & H).
  destruct (overflow_future_value pow Hes) as (res & Hres & Hfv).
  specialize (H 13%nat overflowParams res eq_refl Hres). rewrite Hfv in H.
  destruct (summary_rate_and_months _ _ _ Hres) as [Hr HT]. rewrite Hr, HT in H.
  fold (closedFormOf (JS := B64.binary64 pow) overflowParams) in H.
  rewrite (overflow_closed_form pow Hes) in H.
  revert H. apply float_neq. reflexivity.
Qed.

(** C2, amended.  Whenever the closed-form value is a finite number, the
    future value is that value: initialCapital + monthlyContribution *
    totalMonths if |monthlyRate| < 1e-12, and initialCapital * g +
    monthlyContribution * ((g - 1) / monthlyRate) with g = (1 +
    monthlyRate)^totalMonths otherwise (every reading).  In binary64, at a
    monthly rate of zero, the future value is initialCapital +
    monthlyContribution * totalMonths whenever that sum is finite.  Over the
    reals the future value is the closed form on every input. *)
Theorem C2_closed_form_when_finite :
  (forall (num : Type) (JS : JSNumber num) (fuel : nat) (p : Params num) (res : Result num),
     generateMonthlySeries fuel p = Some res ->
     Number_isFinite
       (closedFormFutureValue (initialCapital p) (monthlyContribution p)
          (monthlyRate (summary res)) (totalMonths (summary res))) = true ->
     futureValue (summary res)
     = closedFormFutureValue (initialCapital p) (monthlyContribution p)
         (monthlyRate (summary res)) (totalMonths (summary res)))
  /\
  (forall (pow : float -> float -> float) (fuel : nat) (p : Params float) (res : Result float),
     let JS := B64.binary64 pow in
     generateMonthlySeries fuel p = Some res ->
     (monthlyRate (summary res) === #0)%js = true ->
     Number_isFinite
       (initialCapital p + monthlyContribution p * totalMonths (summary res))%js = true ->
     futureValue (summary res)
     = (initialCapital p + monthlyContribution p * totalMonths (summary res))%js)
  /\
  (forall (fuel : nat) (p : Params R) (res : Result R),
     generateMonthlySeries (JS := Exact.exact) fuel p = Some res ->
     futureValue (summary res)
     = closedFormFutureValue (JS := Exact.exact) (initialCapital p) (monthlyContribution p)
         (monthlyRate (summary res)) (totalMonths (summary res))).
Proof.
  split; [| split].
  - intros num JS. apply futureValue_closed_form_when_finite.
  - intros pow fuel p res JS Hres Hz Hfin.
    assert (Hc : closedFormFutureValue (initialCapital p) (monthlyContribution p)
                   (monthlyRate (summary res)) (totalMonths (summary res))
                 = (initialCapital p + monthlyContribution p * totalMonths (summary res))%js).
    { unfold closedFormFutureValue.
      destruct (B64Facts.eqb_zero _ Hz) as [-> | ->]; reflexivity. }
    rewrite <- Hc in Hfin |- *.
    exact (futureValue_closed_form_when_finite fuel p res Hres Hfin).
  - intros fuel p res Hres.
    exact (futureValue_closed_form_when_finite (JS := Exact.exact) fuel p res Hres eq_refl).
Qed.

Lemma C2_witness :
  exists res,
    generateMonthlySeries (JS := B64.binary64 B64.reference_pow) 25 zeroRateParams = Some res /\
    futureValue (summary res) = 3400%float.
Proof.
  destruct (run_binary64 B64.reference_pow zeroRateParams 2 25) as (_ & res & Hres & _);
    [lia | reflexivity | cbn; lia |].
  exists res. split; [exact Hres |].
  destruct (summary_rate_and_months _ _ _ Hres) as [Hr HT].
  rewrite (proj1 (proj2 C2_closed_form_when_finite) B64.reference_pow 25 zeroRateParams res Hres).
  - rewrite HT. vm_compute. reflexivity.
  - rewrite Hr. vm_compute. reflexivity.
  - rewrite HT. vm_compute. reflexivity.
Defined.


(** C3, as stated, fails in binary64 also where every value is finite: for
    no [Math.pow] that returns 1/2 for the twelfth root of 2^-12 and 2^-12
    for the twelfth power of 1/2 do the future value and the last entry's
    totalValue agree within 1e-6 (relative) on every valid input with
    totalMonths >= 1, |monthlyRate| >= 1e-12 and a finite closed form.  On
    [underflowParams] the monthly rate is -1/2; the loop halves 5 * 2^-1065
    twelve times, rounding each time, down to 0, while the closed form
    rounds 5 * 2^-1077 once, to 2^-1074. *)
Lemma C3_underflow_counterexample :
  ~ (exists pow : float -> float -> float,
       pow 0x1p-12%float (1 / 12)%float = 0.5%float /\
       pow 0.5%float 12%float = 0x1p-12%float /\
       forall (fuel : nat) (p : Params float) (res : Result float),
         let JS := B64.binary64 pow in
         validateInputs p = [] ->
         generateMonthlySeries fuel p = Some res ->
         (#1 <=? totalMonths (summary res))%js = true ->
         (js_1em12 <=? Math_abs (monthlyRate (summary res)))%js = true ->
         Number_isFinite
           (closedFormFutureValue (initialCapital p) (monthlyContribution p)
              (monthlyRate (summary res)) (totalMonths (summary res))) = true ->
         exists s last,
           series res = s ++ [last] /\
           ((abs (futureValue (summary res) - totalValue last)
             <=? 1e-6 * abs (totalValue last))%float = true \/
            (abs (futureValue (summary res) - totalValue last)
             <=? 1e-6 * abs (futureValue (summary res)))%float = true)).
Proof.
  intros (pow & Hroot & Hpow & H).
  destruct (underflow_cross_check pow Hroot Hpow)
    as (res & s & last & Hres & Hs & HT & Hr & Hc & Hfv & Hlast).
  destruct (H 13%nat underflowParams res eq_refl Hres HT Hr) as (s' & last' & Hs' & Hagree).
  { rewrite Hc. reflexivity. }
  rewrite Hs in Hs'. apply app_inj_tail in Hs'. destruct Hs' as [_ <-].
  rewrite Hfv, Hlast in Hagree.
  destruct Hagree as [E | E]; vm_compute in E; discriminate E.
Qed.

Local Open Scope R_scope.


Local Close Scope R_scope.


(** C4, as stated, fails in binary64: for no [Math.pow] does every entry of
    every run satisfy totalValue === totalContributed + interestAccumulated.
    On [totalLossParams], month 4 has totalValue 0.1 and totalContributed
    0.4; interestAccumulated = 0.1 - 0.4 rounds to -0.30000000000000004, and
    0.4 + -0.30000000000000004 is 0.09999999999999998. *)
Lemma C4_counterexample :
  ~ (exists pow : float -> float -> float,
       forall (fuel : nat) (p : Params float) (res : Result float),
         let JS := B64.binary64 pow in
         validateInputs p = [] ->
         generateMonthlySeries fuel p = Some res ->
         Forall (fun e =>
                   (totalValue e === totalContributed e + interestAccumulated e)%js = true)
                (series res)).
Proof.
  intros (pow & H).
  destruct (total_loss_series pow) as (res & Hres & Hbad).
  specialize (H 13%nat totalLossParams res eq_refl Hres). cbv zeta in H.
  apply Forall_forallb_true in H. rewrite H in Hbad. discriminate Hbad.
Qed.

(** C4, amended.  Every entry is recorded with interestAccumulated =
    totalValue - totalContributed, the subtraction being the reading's own
    (rounded in binary64); over the reals totalValue = totalContributed +
    interestAccumulated holds exactly, for every entry. *)
Theorem C4_interest_is_difference :
  (forall (num : Type) (JS : JSNumber num) (fuel : nat) (p : Params num) (res : Result num),
     generateMonthlySeries fuel p = Some res ->
     Forall (fun e => interestAccumulated e = (totalValue e - totalContributed e)%js)
            (series res))
  /\
  (forall (fuel : nat) (p : Params R) (res : Result R),
     generateMonthlySeries (JS := Exact.exact) fuel p = Some res ->
     Forall (fun e => totalValue e = (totalContributed e + interestAccumulated e)%R)
            (series res)).
Proof.
  split.
  - intros num JS. apply series_interest_is_difference.
  - intros fuel p res Hres.
    pose proof (series_interest_is_difference (JS := Exact.exact) _ _ _ Hres) as H.
    revert H. apply Forall_impl. intros e He. rewrite He. cbn. ring.
Qed.

Lemma C4_witness :
  exists res,
    generateMonthlySeries (JS := B64.binary64 B64.reference_pow) 13 oneYearParams = Some res /\
    Forall (fun e => interestAccumulated e = (totalValue e - totalContributed e)%float)
           (series res).
Proof.
  destruct (run_one_year B64.reference_pow oneYearParams eq_refl) as (res & Hres & _).
  exists res. split; [exact Hres |].
  exact (proj1 C4_interest_is_difference float (B64.binary64 B64.reference_pow)
               13%nat oneYearParams res Hres).
Defined.

(** C5.  With base = 1 + netAnnualRate, [calculateMonthlyRate] returns -1
    when base <= 0 and base^(1/12) - 1 otherwise (every reading).  In
    binary64 the guard base <= 0 holds exactly when netAnnualRate <= -1, for
    every double.  The result is -1 exactly when netAnnualRate <= -1,
    provided that [Math.pow], when it is called, does not return a twelfth
    root below 2^-53. *)
Theorem C5_monthly_rate :
  (forall (num : Type) (JS : JSNumber num) (netAnnualRate : num),
     ((#1 + netAnnualRate <=? #0)%js = true ->
        calculateMonthlyRate netAnnualRate = #(-1)%js) /\
     ((#1 + netAnnualRate <=? #0)%js = false ->
        calculateMonthlyRate netAnnualRate
        = (Math_pow (#1 + netAnnualRate) (#1 / #12) - #1)%js))
  /\
  (forall (pow : float -> float -> float) (netAnnualRate : float),
     ((netAnnualRate <=? -1)%float = true ->
        calculateMonthlyRate (JS := B64.binary64 pow) netAnnualRate = (-1)%float) /\
     ((netAnnualRate <=? -1)%float = false ->
        calculateMonthlyRate (JS := B64.binary64 pow) netAnnualRate
        = (pow (1 + netAnnualRate) (1 / 12) - 1)%float))
  /\
  (forall (pow : float -> float -> float) (netAnnualRate : float),
     ((netAnnualRate <=? -1)%float = false ->
        (pow (1 + netAnnualRate) (1 / 12) <? 0x1p-53)%float = false) ->
     (calculateMonthlyRate (JS := B64.binary64 pow) netAnnualRate = (-1)%float
      <-> (netAnnualRate <=? -1)%float = true)).
Proof.
  split; [| split].
  - intros num JS net. apply calculateMonthlyRate_branches.
  - intros pow net. rewrite B64Facts.calculateMonthlyRate_binary64.
    split; intros ->; reflexivity.
  - intros pow net Hpow. rewrite B64Facts.calculateMonthlyRate_binary64.
    destruct (net <=? -1)%float.
    + split; reflexivity.
    + split; [| discriminate].
      intros E. exfalso. revert E. apply B64Facts.sub_one_ne. now apply Hpow.
Qed.

Lemma C5_witness :
  calculateMonthlyRate (JS := B64.binary64 B64.reference_pow) (-1)%float = (-1)%float /\
  (calculateMonthlyRate (JS := B64.binary64 B64.reference_pow) 0.0625%float = (-1)%float
   <-> (0.0625 <=? -1)%float = true).
Proof.
  split.
  - exact (proj1 (proj1 (proj2 C5_monthly_rate) B64.reference_pow (-1)%float) eq_refl).
  - apply (proj2 (proj2 C5_monthly_rate) B64.reference_pow 0.0625%float).
    intros _. vm_compute. reflexivity.
Defined.

(** The assumption on [Math.pow] is needed: ECMAScript's special cases
    alone allow a [Math.pow] whose twelfth root of 1 is 0, and then the
    monthly rate of a net annual rate of 0 is -1. *)
Lemma monthly_rate_of_negligible_root :
  B64.conforms_to_ES (B64.constant_pow 0%float) /\
  calculateMonthlyRate (JS := B64.binary64 (B64.constant_pow 0%float)) 0%float = (-1)%float /\
  (0 <=? -1)%float = false.
Proof.
  split; [apply B64Facts.constant_pow_conforms |]. split; reflexivity.
Qed.

(** C6.  [calculateNetAnnualReturn] is the expression
    (1 + gross/100) * (1 - fee/100) - 1 of its two arguments, on every pair
    of numbers (a total function); over the reals it is that real number. *)
Theorem C6_net_annual_return :
  (forall (num : Type) (JS : JSNumber num) (grossAnnualRate annualFeeRate : num),
     calculateNetAnnualReturn grossAnnualRate annualFeeRate
     = ((#1 + grossAnnualRate / #100) * (#1 - annualFeeRate / #100) - #1)%js)
  /\
  (forall grossAnnualRate annualFeeRate : R,
     calculateNetAnnualReturn (JS := Exact.exact) grossAnnualRate annualFeeRate
     = ((1 + grossAnnualRate / 100) * (1 - annualFeeRate / 100) - 1)%R).
Proof. split; reflexivity. Qed.

(** C7, as stated, fails: for no conforming [Math.pow] is the real value
    strictly below the future value on every valid input with inflation > 0
    and years > 0.  On [nothingInvestedParams] both values are zero. *)
Lemma C7_counterexample :
  ~ (exists pow : float -> float -> float,
       B64.conforms_to_ES pow /\
       forall (fuel : nat) (p : Params float) (res : Result float),
         let JS := B64.binary64 pow in
         validateInputs p = [] ->
         (#0 <? annualInflation p)%js = true ->
         (#0 <? years p)%js = true ->
         generateMonthlySeries fuel p = Some res ->
         (futureValueReal (summary res) <? futureValue (summary res))%js = true).
Proof.
  intros (pow & Hes & H).
  destruct (nothing_invested_values pow Hes) as (res & Hres & _ & Hnot).
  specialize (H 13%nat nothingInvestedParams res eq_refl eq_refl eq_refl Hres).
  cbv zeta in H. cbn in H, Hnot. rewrite H in Hnot. discriminate Hnot.
Qed.

(** C7, as stated, fails also where the future value is positive: at an
    inflation too small to move 1 + annualInflation/100 off 1, a [Math.pow]
    with [Math.pow(1, 1) = 1] gives an inflation factor of 1.  On
    [tinyInflationParams] the future value and the real value are both
    100. *)
Lemma C7_tiny_inflation_counterexample :
  ~ (exists pow : float -> float -> float,
       B64.conforms_to_ES pow /\
       pow 1%float 1%float = 1%float /\
       forall (fuel : nat) (p : Params float) (res : Result float),
         let JS := B64.binary64 pow in
         validateInputs p = [] ->
         (#0 <? annualInflation p)%js = true ->
         (#0 <? years p)%js = true ->
         generateMonthlySeries fuel p = Some res ->
         (#0 <? futureValue (summary res))%js = true ->
         Number_isFinite (futureValue (summary res)) = true ->
         (futureValueReal (summary res) <? futureValue (summary res))%js = true).
Proof.
  intros (pow & Hes & Hone & H).
  destruct (tiny_inflation_values pow Hes Hone) as (res & Hres & Hfv & Hreal).
  specialize (H 13%nat tinyInflationParams res eq_refl eq_refl eq_refl Hres).
  cbv zeta in H. rewrite Hfv, Hreal in H.
  specialize (H eq_refl eq_refl). discriminate H.
Qed.

(** Nor is a positive future value decreased when it is the smallest
    positive double: on [tinyValueParams], for a [Math.pow] with
    [Math.pow(1.02, 1) = 1.02], the future value and the real value are
    both 2^-1074. *)
Lemma C7_tiny_value_counterexample :
  ~ (exists pow : float -> float -> float,
       B64.conforms_to_ES pow /\
       pow (1 + 2 / 100)%float 1%float = (1 + 2 / 100)%float /\
       forall (fuel : nat) (p : Params float) (res : Result float),
         let JS := B64.binary64 pow in
         validateInputs p = [] ->
         (#0 <? annualInflation p)%js = true ->
         (#0 <? years p)%js = true ->
         generateMonthlySeries fuel p = Some res ->
         (#0 <? futureValue (summary res))%js = true ->
         Number_isFinite (futureValue (summary res)) = true ->
         (#1 <? inflationFactorOf p)%js = true ->
         (futureValueReal (summary res) <? futureValue (summary res))%js = true).
Proof.
  intros (pow & Hes & Hone & H).
  destruct (tiny_value_values pow Hes Hone) as (res & Hres & Hfv & Hreal).
  specialize (H 13%nat tinyValueParams res eq_refl eq_refl eq_refl Hres).
  cbv zeta in H. rewrite Hfv, Hreal in H.
  assert (HF : (1 <? inflationFactorOf (JS := B64.binary64 pow) tinyValueParams)%float = true).
  { unfold inflationFactorOf. cbn. use_pow pow Hone. reflexivity. }
  specialize (H eq_refl eq_refl HF). discriminate H.
Qed.

(** C7, amended.  In binary64, for every run whose future value is finite:
    when the future value is not negative and the inflation factor
    [Math.pow] returns is at least 1, the real value is not above the future
    value; when the future value is above 2^-1022 (a normal number) and the
    inflation factor is above 1, the real value is strictly below the future
    value. *)
Theorem C7_real_value_below_nominal (pow : float -> float -> float)
    (fuel : nat) (p : Params float) (res : Result float) :
  let JS := B64.binary64 pow in
  generateMonthlySeries fuel p = Some res ->
  Number_isFinite (futureValue (summary res)) = true ->
  ((#0 <=? futureValue (summary res))%js = true ->
   (#1 <=? inflationFactorOf p)%js = true ->
   (futureValueReal (summary res) <=? futureValue (summary res))%js = true)
  /\
  ((0x1p-1022 <? futureValue (summary res))%float = true ->
   (#1 <? inflationFactorOf p)%js = true ->
   (futureValueReal (summary res) <? futureValue (summary res))%js = true).
Proof.
  intros JS Hres Hfin.
  destruct (futureValueReal_of_result _ _ _ Hres) as [Hreal _].
  cbn [js_le js_lt js_eq js_div js_lit Number_isFinite B64.binary64 JS] in *.
  change (B64.float_of_Z 0) with 0%float in *. change (B64.float_of_Z 1) with 1%float.
  split.
  - intros Hfv HF. rewrite (Hreal (B64Facts.one_le_not_zero _ HF)). now apply B64Facts.div_le_self.
  - intros Hfv HF. rewrite (Hreal (B64Facts.one_le_not_zero _ (B64Facts.lt_le _ _ HF))). now apply B64Facts.div_lt_self.
Qed.

Lemma C7_witness :
  (exists res,
     generateMonthlySeries (JS := B64.binary64 B64.reference_pow) 13 nothingInvestedParams
     = Some res /\
     (futureValueReal (summary res) <=? futureValue (summary res))%float = true)
  /\
  (exists res,
     generateMonthlySeries (JS := B64.binary64 B64.reference_pow) 13 inflationParams = Some res /\
     (futureValueReal (summary res) <? futureValue (summary res))%float = true).
Proof.
  split.
  - destruct (run_one_year B64.reference_pow nothingInvestedParams eq_refl) as (res & Hres & _).
    exists res. split; [exact Hres |].
    pose proof (futureValue_of_result (JS := B64.binary64 B64.reference_pow) _ _ _ Hres) as Hfv.
    apply (proj1 (C7_real_value_below_nominal B64.reference_pow 13 nothingInvestedParams res
                    Hres ltac:(rewrite Hfv; vm_compute; reflexivity))).
    + rewrite Hfv. vm_compute. reflexivity.
    + vm_compute. reflexivity.
  - destruct (run_one_year B64.reference_pow inflationParams eq_refl) as (res & Hres & _).
    exists res. split; [exact Hres |].
    pose proof (futureValue_of_result (JS := B64.binary64 B64.reference_pow) _ _ _ Hres) as Hfv.
    apply (proj2 (C7_real_value_below_nominal B64.reference_pow 13 inflationParams res Hres
                    ltac:(rewrite Hfv; vm_compute; reflexivity))).
    + rewrite Hfv. vm_compute. reflexivity.
    + vm_compute. reflexivity.
Defined.

(** C8.  [summary.futureValueReal] is the future value divided by
    inflationFactor = (1 + annualInflation/100)^years when that factor is not
    zero, and the future value unchanged when it is zero. *)
Theorem C8_future_value_real {num : Type} {JS : JSNumber num}
    (fuel : nat) (p : Params num) (res : Result num) :
  generateMonthlySeries fuel p = Some res ->
  let inflationFactor := Math_pow (#1 + annualInflation p / #100)%js (years p) in
  ((inflationFactor === #0)%js = false ->
     futureValueReal (summary res) = (futureValue (summary res) / inflationFactor)%js) /\
  ((inflationFactor === #0)%js = true ->
     futureValueReal (summary res) = futureValue (summary res)).
Proof. exact (futureValueReal_of_result fuel p res). Qed.

Lemma C8_witness :
  exists res,
    generateMonthlySeries (JS := B64.binary64 B64.reference_pow) 13 oneYearParams = Some res /\
    futureValueReal (summary res)
    = (futureValue (summary res)
       / B64.reference_pow (1 + annualInflation oneYearParams / 100) (years oneYearParams))%float.
Proof.
  destruct (run_one_year B64.reference_pow oneYearParams eq_refl) as (res & Hres & _).
  exists res. split; [exact Hres |].
  apply (C8_future_value_real (JS := B64.binary64 B64.reference_pow) 13 oneYearParams res Hres).
  vm_compute. reflexivity.
Defined.

(** C9.  When the closed-form value is a finite number it is the future
    value; when it is not, the future value is the last series entry's
    totalValue, or the initial capital when the series is empty. *)
Theorem C9_fallback {num : Type} {JS : JSNumber num}
    (fuel : nat) (p : Params num) (res : Result num) :
  generateMonthlySeries fuel p = Some res ->
  (Number_isFinite (closedFormOf p) = true ->
     futureValue (summary res) = closedFormOf p) /\
  (Number_isFinite (closedFormOf p) = false ->
     (forall s last, series res = s ++ [last] ->
        futureValue (summary res) = totalValue last) /\
     (series res = [] -> futureValue (summary res) = initialCapital p)).
Proof.
  intros Hres. rewrite (futureValue_of_result _ _ _ Hres).
  split; intros ->; [reflexivity |].
  split.
  - intros s e ->. apply lastTotalValueOr_snoc.
  - intros ->. apply lastTotalValueOr_nil.
Qed.

Lemma C9_witness :
  (exists res,
     generateMonthlySeries (JS := B64.binary64 B64.reference_pow) 13 oneYearParams = Some res /\
     futureValue (summary res)
     = closedFormOf (JS := B64.binary64 B64.reference_pow) oneYearParams) /\
  (exists res,
     generateMonthlySeries (JS := B64.binary64 B64.reference_pow) 13 overflowParams = Some res /\
     forall s last, series res = s ++ [last] -> futureValue (summary res) = totalValue last).
Proof.
  split.
  - destruct (run_one_year B64.reference_pow oneYearParams eq_refl) as (res & Hres & _).
    exists res. split; [exact Hres |].
    apply (proj1 (C9_fallback (JS := B64.binary64 B64.reference_pow) 13 oneYearParams res Hres)).
    vm_compute. reflexivity.
  - destruct (run_one_year B64.reference_pow overflowParams eq_refl) as (res & Hres & _).
    exists res. split; [exact Hres |].
    apply (proj2 (C9_fallback (JS := B64.binary64 B64.reference_pow) 13 overflowParams res Hres)).
    vm_compute. reflexivity.
Defined.

(** C10, as stated, fails in binary64: for no conforming [Math.pow] are all
    totalValues and the future value >= 0 on every valid input with
    non-negative capital and contribution.  On [overflowNothingParams] the
    monthly rate is +Infinity and the balance is 0 * Infinity = NaN. *)
Lemma C10_counterexample :
  ~ (exists pow : float -> float -> float,
       B64.conforms_to_ES pow /\
       forall (fuel : nat) (p : Params float) (res : Result float),
         let JS := B64.binary64 pow in
         validateInputs p = [] ->
         (#0 <=? initialCapital p)%js = true ->
         (#0 <=? monthlyContribution p)%js = true ->
         generateMonthlySeries fuel p = Some res ->
         Forall (fun e => (#0 <=? totalValue e)%js = true) (series res) /\
         (#0 <=? futureValue (summary res))%js = true).
Proof.
  intros (pow & Hes & H).
  destruct (overflow_nothing_series pow Hes) as (res & Hres & Hbad).
  destruct (H 13%nat overflowNothingParams res eq_refl eq_refl eq_refl Hres) as [Hall _].
  apply Forall_forallb_true in Hall. rewrite Hall in Hbad. discriminate Hbad.
Qed.

(** C10, as stated for every input, fails also in the duration: with a
    duration of minus one year (which [validateInputs] rejects), a zero rate
    and 1 a month, the future value is -12, for every [Math.pow] with
    [Math.pow(1, 1/12) = 1]. *)
Lemma C10_negative_years_counterexample :
  ~ (exists pow : float -> float -> float,
       pow 1%float (1 / 12)%float = 1%float /\
       forall (fuel : nat) (p : Params float) (res : Result float),
         let JS := B64.binary64 pow in
         (#0 <=? initialCapital p)%js = true ->
         (#0 <=? monthlyContribution p)%js = true ->
         generateMonthlySeries fuel p = Some res ->
         Forall (fun e => (#0 <=? totalValue e)%js = true) (series res) /\
         (#0 <=? futureValue (summary res))%js = true).
Proof.
  intros (pow & Hpow & H).
  destruct (negative_years_future_value pow Hpow) as (res & Hres & _ & Hfv).
  destruct (H 1%nat negativeYearsParams res eq_refl eq_refl Hres) as [_ Hbad].
  rewrite Hfv in Hbad. discriminate Hbad.
Qed.

(** C10, amended.  In binary64, for every valid input (capital and
    contribution finite and not negative): if the twelfth root [Math.pow]
    returns, when [calculateMonthlyRate] calls it, is not negative, then the
    monthly rate is >= -1 and the per-month growth factor 1 + monthlyRate is
    >= 0; if moreover the growth factor is finite, every series entry's
    totalValue is >= 0, and so is the future value when the growth factor
    (1 + monthlyRate)^totalMonths that [Math.pow] returns is not negative and
    the annuity factor computed from it is not negative.  Where the guard of
    [calculateMonthlyRate] applies (netAnnualRate <= -1), with a [Math.pow]
    that returns the values ECMAScript fixes, the monthly rate is -1 and
    every totalValue and the future value are >= 0. *)
Theorem C10_values_nonnegative (pow : float -> float -> float)
    (fuel : nat) (p : Params float) (res : Result float) :
  let JS := B64.binary64 pow in
  validateInputs p = [] ->
  generateMonthlySeries fuel p = Some res ->
  let netAnnualRate := calculateNetAnnualReturn (grossAnnualReturn p) (annualFee p) in
  let monthlyRate := monthlyRate (summary res) in
  let growthFactor := Math_pow (#1 + monthlyRate)%js (totalMonths (summary res)) in
  (((netAnnualRate <=? #(-1))%js = false ->
    (#0 <=? Math_pow (#1 + netAnnualRate) (#1 / #12))%js = true) ->
   (#(-1) <=? monthlyRate)%js = true /\
   (#0 <=? #1 + monthlyRate)%js = true /\
   (Number_isFinite (#1 + monthlyRate)%js = true ->
    Forall (fun e => (#0 <=? totalValue e)%js = true) (series res) /\
    ((growthFactor <? #0)%js = false ->
     ((growthFactor - #1) / monthlyRate <? #0)%js = false ->
     (#0 <=? futureValue (summary res))%js = true)))
  /\
  (B64.conforms_to_ES pow ->
   (netAnnualRate <=? #(-1))%js = true ->
   monthlyRate = #(-1)%js /\
   Forall (fun e => (#0 <=? totalValue e)%js = true) (series res) /\
   (#0 <=? futureValue (summary res))%js = true).
Proof.
  intros JS Hvalid Hres net monthlyRate growthFactor. subst net monthlyRate growthFactor JS.
  destruct (summary_rate_and_months _ _ _ Hres) as [-> ->].
  split.
  - intros Hpow.
    assert (Hrate : (-1 <=? rateOf (JS := B64.binary64 pow) p)%float = true).
    { unfold rateOf. rewrite B64Facts.calculateMonthlyRate_binary64.
      cbn [js_le js_add js_div js_lit Math_pow B64.binary64] in Hpow.
      change (B64.float_of_Z (-1)) with (-1)%float in Hpow.
      change (B64.float_of_Z 0) with 0%float in Hpow.
      change (B64.float_of_Z 1) with 1%float in Hpow.
      change (B64.float_of_Z 12) with 12%float in Hpow.
      destruct (_ <=? -1)%float; [reflexivity |].
      apply B64Facts.sub_one_ge. now apply Hpow. }
    pose proof (B64Facts.add_one_nonneg _ Hrate) as Hg.
    split; [exact Hrate |]. split; [exact Hg |].
    intros Hgf. exact (values_nonneg pow fuel p res Hvalid Hres Hgf Hg).
  - intros Hes Hnet.
    pose proof (rateOf_total_loss pow p Hnet) as Hr.
    split; [exact Hr |].
    pose proof Hvalid as Hv. apply B64Facts.validateInputs_binary64 in Hv.
    destruct Hv as (_ & _ & _ & _ & _ & y & Hy & Hyears).
    destruct (run_binary64 pow p y (S (Z.to_nat (12 * y))) Hy Hyears) as [HT _]; [lia |].
    destruct (B64Facts.months_finite y Hy) as [_ Hpow].
    destruct (values_nonneg pow fuel p res Hvalid Hres) as [Hs Hfv].
    + rewrite Hr. reflexivity.
    + rewrite Hr. reflexivity.
    + split; [exact Hs |]. rewrite Hr, HT in Hfv.
      cbn [Math_pow js_add js_sub js_div js_lt js_lit B64.binary64] in Hfv.
      change (B64.float_of_Z 1 + B64.float_of_Z (-1))%float with 0%float in Hfv.
      rewrite (Hes _ _ _ Hpow) in Hfv.
      apply Hfv; reflexivity.
Qed.

Lemma C10_witness :
  (exists res,
     generateMonthlySeries (JS := B64.binary64 B64.reference_pow) 13 oneYearParams = Some res /\
     (-1 <=? monthlyRate (summary res))%float = true /\
     Forall (fun e => (0 <=? totalValue e)%float = true) (series res) /\
     (0 <=? futureValue (summary res))%float = true)
  /\
  (exists res,
     generateMonthlySeries (JS := B64.binary64 B64.reference_pow) 13 totalLossParams = Some res /\
     monthlyRate (summary res) = (-1)%float /\
     Forall (fun e => (0 <=? totalValue e)%float = true) (series res) /\
     (0 <=? futureValue (summary res))%float = true).
Proof.
  split.
  - destruct (run_one_year B64.reference_pow oneYearParams eq_refl) as (res & Hres & _).
    exists res. split; [exact Hres |].
    destruct (summary_rate_and_months (JS := B64.binary64 B64.reference_pow) _ _ _ Hres)
      as [Hr HT].
    destruct (proj1 (C10_values_nonnegative B64.reference_pow 13 oneYearParams res eq_refl Hres))
      as (Hrate & _ & Hrest).
    + intros _. vm_compute. reflexivity.
    + split; [exact Hrate |].
      destruct Hrest as [Hs Hfv]; [rewrite Hr; vm_compute; reflexivity |].
      split; [exact Hs |]. apply Hfv; rewrite Hr, HT; vm_compute; reflexivity.
  - destruct (run_one_year B64.reference_pow totalLossParams eq_refl) as (res & Hres & _).
    exists res. split; [exact Hres |].
    exact (proj2 (C10_values_nonnegative B64.reference_pow 13 totalLossParams res eq_refl Hres)
             reference_pow_conforms eq_refl).
Defined.

(** ** Further properties of the program *)

(** X1.  [validateInputs] reports no error exactly when capital,
    contribution, fee and inflation are finite and not negative, the gross
    return is finite, and years is one of the whole numbers 1, ..., 50;
    in binary64 and over the reals. *)
Theorem validateInputs_accepts :
  (forall (pow : float -> float -> float) (p : Params float),
     validateInputs (JS := B64.binary64 pow) p = []
     <-> valid_input (JS := B64.binary64 pow) p)
  /\
  (forall p : Params R,
     validateInputs (JS := Exact.exact) p = [] <-> valid_input (JS := Exact.exact) p).
Proof.
  split.
  - exact B64Facts.validateInputs_binary64.
  - exact validateInputs_exact.
Qed.

(** X2.  In binary64, for every input [validateInputs] accepts with a
    monthly contribution of zero, the summary's contributed total equals the
    initial capital, whatever the rates and the duration. *)
Theorem no_contribution_total (pow : float -> float -> float)
    (fuel : nat) (p : Params float) (res : Result float) :
  let JS := B64.binary64 pow in
  validateInputs p = [] ->
  (monthlyContribution p === #0)%js = true ->
  generateMonthlySeries fuel p = Some res ->
  (totalContributions (summary res) === initialCapital p)%js = true.
Proof.
  intros JS Hvalid HC Hres.
  apply B64Facts.validateInputs_binary64 in Hvalid.
  destruct Hvalid as ([HP _] & _ & _ & _ & _ & y & Hy & Hyears).
  destruct (generateMonthlySeries_inv _ _ _ Hres) as (ms & _ & _ & Hsum).
  rewrite Hsum. cbn [totalContributions summarize].
  destruct (run_binary64 pow p y (S (Z.to_nat (12 * y))) Hy Hyears) as [HT _]; [lia |].
  fold JS in HT. rewrite HT.
  apply B64Facts.eqb_zero in HC.
  apply B64Facts.add_zero_r; [| exact HP].
  apply B64Facts.mul_zero_l; [exact HC |]. apply B64Facts.months_finite, Hy.
Qed.

Lemma no_contribution_total_witness :
  exists res,
    generateMonthlySeries (JS := B64.binary64 B64.reference_pow) 121 noContributionParams
    = Some res /\
    (totalContributions (summary res) =? initialCapital noContributionParams)%float = true.
Proof.
  destruct (run_binary64 B64.reference_pow noContributionParams 10 121)
    as (_ & res & Hres & _); [lia | reflexivity | cbn; lia |].
  exists res. split; [exact Hres |].
  exact (no_contribution_total B64.reference_pow 121 noContributionParams res
           eq_refl eq_refl Hres).
Defined.

(** X3.  In binary64, for every input [validateInputs] accepts whose net
    annual rate is -1 or less (a loss of 100 % or more), the monthly rate is
    -1 and every entry's totalValue equals the monthly contribution: each
    month the balance is multiplied by zero, then the contribution is added
    back. *)
Theorem total_loss_balance (pow : float -> float -> float)
    (fuel : nat) (p : Params float) (res : Result float) :
  let JS := B64.binary64 pow in
  validateInputs p = [] ->
  (calculateNetAnnualReturn (grossAnnualReturn p) (annualFee p) <=? #(-1))%js = true ->
  generateMonthlySeries fuel p = Some res ->
  monthlyRate (summary res) = #(-1)%js /\
  Forall (fun e => (totalValue e === monthlyContribution p)%js = true) (series res).
Proof.
  intros JS Hvalid Hnet Hres.
  apply B64Facts.validateInputs_binary64 in Hvalid.
  destruct Hvalid as ([HP _] & [HC _] & _).
  pose proof (rateOf_total_loss pow p Hnet) as Hr. fold JS in Hr.
  destruct (generateMonthlySeries_inv _ _ _ Hres) as (ms & _ & Hs & Hsum).
  split.
  - rewrite Hsum. cbn [monthlyRate summarize]. exact Hr.
  - rewrite Hs, Hr. now apply entriesFrom_total_loss.
Qed.

Lemma total_loss_balance_witness :
  exists res,
    generateMonthlySeries (JS := B64.binary64 B64.reference_pow) 13 totalLossParams
    = Some res /\
    monthlyRate (summary res) = (-1)%float /\
    Forall (fun e => (totalValue e =? 0.1)%float = true) (series res).
Proof.
  destruct (run_one_year B64.reference_pow totalLossParams eq_refl) as (res & Hres & _).
  exists res. split; [exact Hres |].
  exact (total_loss_balance B64.reference_pow 13 totalLossParams res eq_refl eq_refl Hres).
Defined.

(** X4.  In binary64, with a [Math.pow] that returns the values ECMAScript
    fixes, for every input [validateInputs] accepts whose net annual rate is
    -1 or less, the closed form is finite and the future value equals the
    monthly contribution, as the last entry's totalValue does. *)
Theorem total_loss_future_value (pow : float -> float -> float)
    (fuel : nat) (p : Params float) (res : Result float) :
  let JS := B64.binary64 pow in
  B64.conforms_to_ES pow ->
  validateInputs p = [] ->
  (calculateNetAnnualReturn (grossAnnualReturn p) (annualFee p) <=? #(-1))%js = true ->
  generateMonthlySeries fuel p = Some res ->
  Number_isFinite (closedFormOf p) = true /\
  (futureValue (summary res) === monthlyContribution p)%js = true.
Proof.
  intros JS Hes Hvalid Hnet Hres.
  apply B64Facts.validateInputs_binary64 in Hvalid.
  destruct Hvalid as ([HP _] & [HC _] & _ & _ & _ & y & Hy & Hyears).
  pose proof (rateOf_total_loss pow p Hnet) as Hr. fold JS in Hr.
  destruct (run_binary64 pow p y (S (Z.to_nat (12 * y))) Hy Hyears) as [HT _]; [lia |].
  fold JS in HT.
  destruct (B64Facts.months_finite y Hy) as [_ Hpow].
  assert (Hclosed : closedFormOf p = (initialCapital p * 0 + monthlyContribution p)%float).
  { unfold closedFormOf, closedFormFutureValue. rewrite Hr, HT.
    cbn [Math_pow Math_abs js_lt js_add js_sub js_mul js_div js_lit js_1em12 B64.binary64 JS].
    change (B64.float_of_Z 1 + B64.float_of_Z (-1))%float with 0%float.
    rewrite (Hes _ _ _ Hpow).
    change (abs (B64.float_of_Z (-1)) <? 1e-12)%float with false. cbn iota.
    change ((0 - B64.float_of_Z 1) / B64.float_of_Z (-1))%float with 1%float.
    now rewrite B64Facts.mul_one_r. }
  destruct (B64Facts.add_zero_l _ _
              (B64Facts.mul_zero_r (initialCapital p) 0%float (or_introl eq_refl) HP) HC)
    as [Hfin Heq].
  rewrite (futureValue_of_result _ _ _ Hres), Hclosed.
  cbn [Number_isFinite B64.binary64 JS]. rewrite Hfin. split; [reflexivity | exact Heq].
Qed.

Lemma total_loss_future_value_witness :
  exists res,
    generateMonthlySeries (JS := B64.binary64 B64.reference_pow) 13 totalLossParams
    = Some res /\
    (futureValue (summary res) =? 0.1)%float = true.
Proof.
  destruct (run_one_year B64.reference_pow totalLossParams eq_refl) as (res & Hres & _).
  exists res. split; [exact Hres |].
  exact (proj2 (total_loss_future_value B64.reference_pow 13 totalLossParams res
                  reference_pow_conforms eq_refl eq_refl Hres)).
Defined.

Import B64 B64Facts UI QuickFacts.

(** X6.  With a month count of zero, in binary64 and for a [Math.pow] that
    returns the values ECMAScript fixes: the run returns an empty series,
    and the future value and the contributed total both equal the initial
    capital, whatever the rates (NaN included), as long as capital and
    contribution are finite. *)
Theorem zero_months_result (pow : float -> float -> float) (fuel : nat) (p : Params float) :
  let JS := binary64 pow in
  conforms_to_ES pow ->
  isFinite (initialCapital p) = true ->
  isFinite (monthlyContribution p) = true ->
  (Math_round (years p * #12) === #0)%js = true ->
  (0 < fuel)%nat ->
  exists res,
    generateMonthlySeries fuel p = Some res /\
    series res = [] /\
    (futureValue (summary res) === initialCapital p)%js = true /\
    (totalContributions (summary res) === initialCapital p)%js = true.
Proof.
  intros JS Hes HP HC HT Hfuel.
  destruct fuel as [| fuel]; [lia |].
  apply eqb_zero in HT.
  assert (Hms : monthsFrom (Math_round (years p * #12)%js) (S fuel) #1%js = Some []).
  { cbn [monthsFrom]. destruct HT as [-> | ->]; reflexivity. }
  pose proof (generateMonthlySeries_returns _ _ _ Hms) as Hres. cbv zeta in Hres.
  cbn [entriesFrom] in Hres.
  eexists. split; [exact Hres |]. split; [reflexivity |].
  cbn [summary series].
  set (T := Math_round (years p * #12)%js) in *.
  assert (HCT : (monthlyContribution p * T)%float = 0%float
                \/ (monthlyContribution p * T)%float = (-0)%float)
    by (apply mul_zero_r; assumption).
  assert (Hlinear : isFinite (initialCapital p + monthlyContribution p * T)%float = true /\
                    (initialCapital p + monthlyContribution p * T =? initialCapital p)%float
                    = true).
  { split; [apply add_zero_r_finite | apply add_zero_r]; assumption. }
  split; [| exact (proj2 Hlinear)].
  rewrite futureValue_summarize. unfold closedFormFutureValue.
  cbn [Math_pow Math_abs Number_isFinite js_lt js_add js_sub js_mul js_div js_1em12 js_lit js_eq
       binary64 JS lastTotalValueOr_nil].
  destruct (abs (rateOf p) <? 1e-12)%float.
  - destruct Hlinear as [-> H]. exact H.
  - assert (Hpow : pow (float_of_Z 1 + rateOf p)%float T = 1%float).
    { apply Hes. destruct HT as [-> | ->]; reflexivity. }
    rewrite Hpow. rewrite mul_one_r.
    change (1 - float_of_Z 1)%float with 0%float.
    destruct (zero_div (rateOf p)) as [Hz | [Hz | Hz]]; rewrite Hz.
    + rewrite (add_zero_r_finite _ _ (mul_zero_r _ _ (or_introl eq_refl) HC) HP).
      apply add_zero_r; [| exact HP]. apply mul_zero_r; [now left | exact HC].
    + rewrite (add_zero_r_finite _ _ (mul_zero_r _ _ (or_intror eq_refl) HC) HP).
      apply add_zero_r; [| exact HP]. apply mul_zero_r; [now right | exact HC].
    + rewrite mul_nan_r, add_nan_r.
      change (isFinite nan) with false. cbn iota.
      rewrite lastTotalValueOr_nil. apply eqb_refl_finite, HP.
Qed.

Lemma zero_months_result_witness :
  exists res,
    generateMonthlySeries (JS := binary64 reference_pow) 1
      (mkParams 1000 100 5 0 2 0)%float = Some res /\
    series res = [] /\
    (futureValue (summary res) =? 1000)%float = true.
Proof.
  destruct (zero_months_result reference_pow 1 (mkParams 1000 100 5 0 2 0)%float
              reference_pow_conforms eq_refl eq_refl eq_refl ltac:(lia))
    as (res & H1 & H2 & H3 & _).
  exists res. split; [exact H1 |]. split; [exact H2 | exact H3].
Defined.

(** X7.  At a monthly rate of zero the portfolio's value is its contributed
    total in every entry, to the last bit: both are the same sums. *)
Theorem zero_rate_value_is_contributions {num : Type} {JS : JSNumber num}
    (fuel : nat) (p : Params num) (res : Result num) :
  generateMonthlySeries fuel p = Some res ->
  (rateOf p === #0)%js = true ->
  Forall (fun e => totalValue e = totalContributed e) (series res).
Proof.
  intros Hres Hr. destruct (generateMonthlySeries_inv _ _ _ Hres) as (ms & _ & -> & _).
  now apply entriesFrom_zero_rate.
Qed.

Lemma zero_rate_value_is_contributions_witness :
  exists res,
    generateMonthlySeries (JS := binary64 reference_pow) 25 zeroRateParams = Some res /\
    Forall (fun e => totalValue e = totalContributed e) (series res).
Proof.
  destruct (run_binary64 reference_pow zeroRateParams 2 25) as (_ & res & Hres & _);
    [lia | reflexivity | cbn; lia |].
  exists res. split; [exact Hres |].
  exact (zero_rate_value_is_contributions (JS := binary64 reference_pow)
           25 zeroRateParams res Hres eq_refl).
Defined.

(** X10.  The first four assertions of [runQuickTests] hold for every
    [Math.pow] that returns 1, to within 1e-12, for [Math.pow(1, 1/12)]:
    with fuel for 50 years the function returns, and all it can log is the
    message of the fifth. *)
Theorem quick_tests_pass (pow : float -> float -> float) (fuel : nat) :
  (abs (pow 1 (1 / 12) - 1) <? 1e-12)%float = true ->
  (600 < fuel)%nat ->
  exists console,
    runQuickTests pow fuel = Some console /\
    (console = [] \/
     console = ["Con inflación alta, el valor real debe ser menor que el nominal"%string]).
Proof.
  intros Hpow Hfuel. unfold runQuickTests. cbv zeta.
  destruct (quick_run pow zeroRateParams 2 fuel ltac:(lia) eq_refl Hfuel)
    as (r1 & -> & _ & _ & Hfv).
  rewrite Hfv, (zero_rate_closed_form pow Hpow).
  destruct (quick_run pow oneYearParams 1 fuel ltac:(lia) eq_refl Hfuel)
    as (r2 & -> & -> & _).
  destruct (quick_run pow thirtyYearsParams 30 fuel ltac:(lia) eq_refl Hfuel)
    as (r3 & -> & -> & _).
  destruct (quick_run pow noContributionParams 10 fuel ltac:(lia) eq_refl Hfuel)
    as (r4 & -> & _ & -> & _).
  destruct (quick_run pow highInflationParams 5 fuel ltac:(lia) eq_refl Hfuel)
    as (r5 & -> & _).
  eexists. split; [reflexivity |].
  unfold console_assert at 1.
  destruct (futureValueReal (summary r5) <? futureValue (summary r5))%float;
    [left | right]; reflexivity.
Qed.

Lemma quick_tests_pass_witness :
  exists console,
    runQuickTests reference_pow 601 = Some console /\
    (console = [] \/
     console = ["Con inflación alta, el valor real debe ser menor que el nominal"%string]).
Proof.
  exact (quick_tests_pass reference_pow 601 eq_refl ltac:(lia)).
Defined.

(** With [reference_pow] no assertion logs anything. *)
Example quick_tests_reference : runQuickTests reference_pow 601 = Some [].
Proof. vm_compute. reflexivity. Qed.

(** ** Properties of the UI layer *)

Import UICheck UIFacts.

(** X11.  [renderTable(page)] on a series of at most 600 entries, for a
    whole page number from 0 to 13: the page shown is the request clamped to
    1 .. totalPages, the table holds the (up to 50) entries of that page,
    the previous button is disabled on page 1 and the next button on the
    last page or when there is no series; the series is not changed. *)
Theorem renderTable_page (Number_toString numberFormatter_format : float -> String.string)
    (app : App) (page : Z) :
  rowsPerPage (state app) = 50%float ->
  (length (state_series (state app)) <= 600)%nat ->
  (0 <= page <= 13)%Z ->
  let series := state_series (state app) in
  let T := totalPagesOf (length series) in
  let app' := renderTable Number_toString numberFormatter_format (B64.float_of_Z page) app in
  exists c : Z,
    currentPage (state app') = B64.float_of_Z c /\
    (page < 1 -> c = 1)%Z /\ (1 <= page <= T -> c = page)%Z /\ (T < page -> c = T)%Z /\
    tableBody (document app')
    = map (rowOf Number_toString numberFormatter_format)
          (firstn 50 (skipn (Z.to_nat (50 * (c - 1))) series)) /\
    length (tableBody (document app'))
    = Nat.min 50 (length series - Z.to_nat (50 * (c - 1))) /\
    prevPageButton_disabled (document app') = (c =? 1)%Z /\
    nextPageButton_disabled (document app') = ((c =? T)%Z || (length series =? 0)%nat)%bool /\
    state_series (state app') = series.
Proof.
  intros Hrows Hlen Hpage series T app'.
  destruct (renderTable_shows_page Number_toString numberFormatter_format app page
              Hrows Hlen Hpage) as (Hs & Hc & Htable & Hprev & Hnext & _).
  pose proof (pageShown_bounds (length series) page) as Hb.
  exists (pageShown (length series) page).
  split; [exact Hc |].
  split; [unfold pageShown; fold T; lia |].
  split; [unfold pageShown; fold T; lia |].
  split; [unfold pageShown; fold T; lia |].
  split; [exact Htable |].
  split; [| split; [exact Hprev | split; [exact Hnext | exact Hs]]].
  subst app'. rewrite Htable, length_map. apply pageEntries_length. apply Hb.
Qed.

Lemma renderTable_page_witness :
  exists c : Z,
    currentPage (state (renderTable noText noText (B64.float_of_Z 3) tenYearsApp)) = B64.float_of_Z c /\
    c = 3%Z /\
    length (tableBody (document (renderTable noText noText (B64.float_of_Z 3) tenYearsApp))) = 20%nat.
Proof.
  destruct (renderTable_page noText noText tenYearsApp 3 eq_refl
              ltac:(apply Nat.leb_le; reflexivity) ltac:(lia))
    as (c & Hc & _ & Hin & _ & _ & Hlen & _).
  exists c. split; [exact Hc |].
  assert (E : c = 3%Z) by (apply Hin; vm_compute; split; discriminate).
  split; [exact E |]. rewrite Hlen, E. reflexivity.
Defined.


(** X12.  The pages of [renderTable] partition the series: for a series of
    at most 600 entries, the rows shown on pages 1, ..., totalPages, put
    end to end, are the rows of the whole series in order; every page has at
    most 50 rows, and none is empty unless the series is. *)
Theorem pages_cover_series (Number_toString numberFormatter_format : float -> String.string)
    (app : App) :
  rowsPerPage (state app) = 50%float ->
  (length (state_series (state app)) <= 600)%nat ->
  let series := state_series (state app) in
  let T := Z.to_nat (totalPagesOf (length series)) in
  let rows (k : nat) :=
    tableBody (document (renderTable Number_toString numberFormatter_format
                           (B64.float_of_Z (Z.of_nat k)) app)) in
  concat (map rows (seq 1 T)) = map (rowOf Number_toString numberFormatter_format) series /\
  Forall (fun k => (length (rows k) <= 50)%nat /\ (series <> [] -> rows k <> [])) (seq 1 T).
Proof.
  intros Hrows Hlen series T rows.
  pose proof (totalPagesOf_bounds _ Hlen) as HT. fold series in HT.
  assert (Hrow : forall k, In k (seq 1 T) ->
            rows k = map (rowOf Number_toString numberFormatter_format)
                         (pageEntries series (Z.of_nat k))).
  { intros k Hk. apply in_seq in Hk.
    destruct (renderTable_shows_page Number_toString numberFormatter_format app
                (Z.of_nat k) Hrows Hlen ltac:(lia)) as (_ & _ & Htable & _).
    unfold rows. rewrite Htable. fold series. f_equal. f_equal.
    unfold pageShown. lia. }
  split.
  - rewrite (map_ext_in _ _ _ Hrow).
    rewrite <- (map_map (fun k => pageEntries series (Z.of_nat k))
                        (map (rowOf Number_toString numberFormatter_format))).
    rewrite <- concat_map. f_equal. apply concat_pages.
    pose proof (totalPagesOf_covers (length series)). lia.
  - apply Forall_forall. intros k Hk. rewrite (Hrow k Hk). apply in_seq in Hk.
    rewrite length_map, pageEntries_length by lia. split; [lia |].
    intros Hne E. apply (f_equal (@length _)) in E.
    rewrite length_map, pageEntries_length in E by lia. cbn [length] in E.
    assert (0 < length series)%nat by (destruct series; [now destruct Hne | cbn; lia]).
    pose proof (totalPagesOf_tight (length series) ltac:(assumption)). lia.
Qed.

Lemma pages_cover_series_witness :
  concat (map (fun k => tableBody (document (renderTable noText noText
                                               (B64.float_of_Z (Z.of_nat k)) tenYearsApp)))
              (seq 1 3))
  = map (rowOf noText noText) (state_series (state tenYearsApp)).
Proof.
  exact (proj1 (pages_cover_series noText noText tenYearsApp eq_refl
                  ltac:(apply Nat.leb_le; reflexivity))).
Defined.

(** X13.  The page buttons, on a page that is in order: an enabled button
    moves exactly one page, and a click on a disabled one would leave the
    page where it is. *)
Theorem page_buttons_move_one_page
    (pow : float -> float -> float)
    (Number_toString numberFormatter_format numberFormatterNoCurrency_format
       : float -> String.string)
    (Chart_defined : bool) (JSON_stringify : Params float -> String.string)
    (inherited : String.string -> option String.string) (fuel : nat) (app : App) :
  Consistent Number_toString numberFormatter_format Chart_defined app ->
  let click event :=
    handle pow Number_toString numberFormatter_format numberFormatterNoCurrency_format
           Chart_defined JSON_stringify inherited fuel event app in
  exists appNext appPrev,
    click clickNextPage = Some appNext /\
    click clickPrevPage = Some appPrev /\
    pageNumber appNext
    = (if nextPageButton_disabled (document app) then pageNumber app
       else pageNumber app + 1)%Z /\
    pageNumber appPrev
    = (if prevPageButton_disabled (document app) then pageNumber app
       else pageNumber app - 1)%Z.
Proof.
  intros (Hpager & Hchart & Htable & _) click.
  pose proof Hpager as (Hrows & Hlen & Hc & Hb).
  destruct Htable as (_ & Hprev & Hnext & _).
  destruct (step_prev_next Number_toString Chart_defined app (conj Hpager Hchart))
    as (Hp1 & Hp2 & Hminus & Hplus).
  destruct (render_pager Number_toString numberFormatter_format app _ Hrows Hlen Hp1)
    as (_ & _ & Hn1).
  destruct (render_pager Number_toString numberFormatter_format app _ Hrows Hlen Hp2)
    as (_ & _ & Hn2).
  eexists. eexists. split; [reflexivity |]. split; [reflexivity |].
  cbn [handle]. rewrite Hplus, Hminus, Hn1, Hn2, Hprev, Hnext.
  pose proof (totalPagesOf_bounds _ Hlen) as HT.
  unfold pageShown. split.
  - destruct (Z.eqb_spec (pageNumber app) (totalPagesOf (length (state_series (state app)))));
      cbn [orb]; [lia |].
    destruct (Nat.eqb_spec (length (state_series (state app))) 0) as [E | E]; [| lia].
    rewrite E in *. unfold totalPagesOf in *. cbn in Hb |- *. lia.
  - destruct (Z.eqb_spec (pageNumber app) 1); lia.
Qed.



Lemma page_buttons_move_one_page_witness :
  exists appNext appPrev,
    handle B64.reference_pow noText noText noText false (fun _ => ""%string) (fun _ => None)
           0 clickNextPage tenYearsShown = Some appNext /\
    handle B64.reference_pow noText noText noText false (fun _ => ""%string) (fun _ => None)
           0 clickPrevPage tenYearsShown = Some appPrev /\
    pageNumber appNext = 2%Z /\ pageNumber appPrev = 1%Z.
Proof.
  destruct (page_buttons_move_one_page B64.reference_pow noText noText noText false
              (fun _ => ""%string) (fun _ => None) 0 tenYearsShown tenYearsShown_consistent)
    as (appNext & appPrev & H1 & H2 & H3 & H4).
  exists appNext, appPrev. split; [exact H1 |]. split; [exact H2 |].
  split; [exact H3 | exact H4].
Defined.



(** X14.  Every listener returns, and the listeners keep [state] in order
    along any sequence of events: 50 rows a page, at most 600 entries, the
    current page within 1 .. totalPages, and never more than one live
    [Chart], the one [state.chartInstance] holds, plotting the current
    series. *)
Theorem listeners_keep_state_in_order
    (pow : float -> float -> float)
    (Number_toString numberFormatter_format numberFormatterNoCurrency_format
       : float -> String.string)
    (Chart_defined : bool) (JSON_stringify : Params float -> String.string)
    (inherited : String.string -> option String.string)
    (fuel : nat) (events : list Event) (app : App) :
  (600 < fuel)%nat ->
  StateOK Number_toString Chart_defined app ->
  exists app',
    handleAll pow Number_toString numberFormatter_format numberFormatterNoCurrency_format
              Chart_defined JSON_stringify inherited fuel events app = Some app' /\
    StateOK Number_toString Chart_defined app' /\
    (liveCharts (environment app') <= 1)%nat.
Proof.
  intros Hfuel Hok.
  destruct (handleEvents_stateOK pow Number_toString numberFormatter_format
              numberFormatterNoCurrency_format Chart_defined JSON_stringify inherited
              fuel events Hfuel app Hok) as (app' & H & Hok' & _).
  exists app'. split; [exact H |]. split; [exact Hok' |].
  destruct Hok' as [_ [Hlive _]]. rewrite Hlive.
  destruct (chartInstance (state app')); lia.
Qed.

Lemma listeners_keep_state_in_order_witness :
  exists app',
    handleAll B64.reference_pow noText noText noText true (fun _ => ""%string) (fun _ => None)
              601 [submitForm oneYearParams; clickNextPage; submitForm oneYearParams] startApp
    = Some app' /\
    StateOK noText true app' /\
    (liveCharts (environment app') <= 1)%nat.
Proof.
  apply (listeners_keep_state_in_order B64.reference_pow noText noText noText true
           (fun _ => ""%string) (fun _ => None) 601
           [submitForm oneYearParams; clickNextPage; submitForm oneYearParams] startApp).
  - lia.
  - apply startApp_StateOK.
Defined.

(** X15.  From any state in order, once a submit or a clear has been
    handled the page shows [state], whatever the events before and after:
    the table holds the rows of the current page, the page buttons and the
    page text agree with it, and the export button is enabled only while
    there is a series. *)
Theorem page_in_order_after_submit_or_clear
    (pow : float -> float -> float)
    (Number_toString numberFormatter_format numberFormatterNoCurrency_format
       : float -> String.string)
    (Chart_defined : bool) (JSON_stringify : Params float -> String.string)
    (inherited : String.string -> option String.string)
    (fuel : nat) (before after : list Event) (event : Event) (app : App) :
  (600 < fuel)%nat ->
  StateOK Number_toString Chart_defined app ->
  setsExportButton event = true ->
  exists app',
    handleAll pow Number_toString numberFormatter_format numberFormatterNoCurrency_format
              Chart_defined JSON_stringify inherited fuel (before ++ event :: after) app
    = Some app' /\
    Consistent Number_toString numberFormatter_format Chart_defined app'.
Proof.
  intros Hfuel Hok Hevent.
  destruct (handleEvents_stateOK pow Number_toString numberFormatter_format
              numberFormatterNoCurrency_format Chart_defined JSON_stringify inherited
              fuel before Hfuel app Hok) as (app1 & H1 & Hok1 & _).
  destruct (handle_step pow Number_toString numberFormatter_format
              numberFormatterNoCurrency_format Chart_defined JSON_stringify inherited
              fuel event app1 Hfuel Hok1) as (app2 & H2 & Hok2 & Ht2 & He2).
  destruct (handleEvents_stateOK pow Number_toString numberFormatter_format
              numberFormatterNoCurrency_format Chart_defined JSON_stringify inherited
              fuel after Hfuel app2 Hok2) as (app3 & H3 & Hok3 & Ht3 & He3).
  exists app3. split.
  - rewrite handleEvents_app, H1. cbn [handleAll]. rewrite H2. exact H3.
  - destruct Hok3 as [Hp Hc]. unfold Consistent. conjs; try assumption.
    + apply Ht3, Ht2. right. destruct event; (reflexivity || discriminate Hevent).
    + apply He3, He2. right. exact Hevent.
Qed.

Lemma page_in_order_after_submit_or_clear_witness :
  exists app',
    handleAll B64.reference_pow noText noText noText true (fun _ => ""%string) (fun _ => None)
              601 ([clickNextPage] ++ submitForm oneYearParams :: [clickExport]) startApp
    = Some app' /\
    Consistent noText noText true app'.
Proof.
  apply (page_in_order_after_submit_or_clear B64.reference_pow noText noText noText true
           (fun _ => ""%string) (fun _ => None) 601 [clickNextPage] [clickExport]
           (submitForm oneYearParams) startApp).
  - lia.
  - apply startApp_StateOK.
  - reflexivity.
Defined.



(** X16.  A submit that [validateInputs] accepts, from a state in order:
    the handler returns; [state.series] is the series of
    [generateMonthlySeries]; the four KPIs show its summary through
    [formatCurrency]; the table shows the first 50 entries, on page 1; the
    export button is enabled; every [.error] element is emptied; and the
    chart, if [Chart] is defined, plots the new series. *)
Theorem submit_accepted_outcome
    (pow : float -> float -> float)
    (Number_toString numberFormatter_format : float -> String.string)
    (Chart_defined : bool) (inherited : String.string -> option String.string)
    (fuel : nat) (values : Params float) (app : App) :
  validateInputs (JS := B64.binary64 pow) values = [] ->
  (600 < fuel)%nat ->
  StateOK Number_toString Chart_defined app ->
  exists app' result,
    handleFormSubmit pow Number_toString numberFormatter_format Chart_defined inherited
                     fuel values app = Some app' /\
    generateMonthlySeries (JS := B64.binary64 pow) fuel values = Some result /\
    state_series (state app') = series result /\
    kpiNominal (document app')
    = formatCurrency numberFormatter_format (futureValue (summary result)) /\
    kpiReal (document app')
    = formatCurrency numberFormatter_format (futureValueReal (summary result)) /\
    kpiContributed (document app')
    = formatCurrency numberFormatter_format (totalContributions (summary result)) /\
    kpiGrowth (document app')
    = formatCurrency numberFormatter_format (totalGrowth (summary result)) /\
    tableBody (document app')
    = map (rowOf Number_toString numberFormatter_format) (firstn 50 (series result)) /\
    currentPage (state app') = 1%float /\
    exportButton_disabled (document app') = false /\
    fields (document app') = map (fieldAfterSubmit inherited []) (fields (document app)) /\
    chartInstance (state app')
    = (if Chart_defined then Some (chartOf Number_toString (series result)) else None).
Proof.
  intros Hvalid Hfuel Hok.
  destruct (submit_accepted pow Number_toString numberFormatter_format Chart_defined inherited
              fuel values app Hvalid Hfuel) as (result & y & Hy & Hres & Hlen & Hsubmit).
  destruct (submit_accepted_consistent Number_toString numberFormatter_format Chart_defined
              app _ result y Hy Hlen Hok eq_refl)
    as ((Hpager & Hchart & Htable & _) & Hone & Hs).
  eexists. exists result. split; [exact Hsubmit |]. split; [exact Hres |].
  split; [exact Hs |].
  assert (Hdoc : forall (proj : Document -> String.string),
            (forall d v, proj (set_exportButton_disabled v d) = proj d) ->
            (forall d v, proj (set_tableBody v d) = proj d) ->
            (forall d a b c, proj (set_pager a b c d) = proj d) ->
            proj (document
                    (set_document (set_exportButton_disabled false)
                       (createChart Number_toString Chart_defined (series result)
                          (renderTable Number_toString numberFormatter_format 1
                             (updateKpis numberFormatter_format (summary result)
                                (set_state (set_series (series result)) (clearErrors app)))))))
            = proj (document
                      (updateKpis numberFormatter_format (summary result)
                         (set_state (set_series (series result)) (clearErrors app))))).
  { intros proj H1 H2 H3. unfold createChart.
    destruct Chart_defined; cbn [negb]; cbv zeta;
      repeat match goal with
             | |- context [match ?x with Some _ => _ | None => _ end] => destruct x
             end;
      unfold renderTable; cbv zeta; ui_cbn; rewrite H1, H3, H2, H2; reflexivity. }
  split; [apply (Hdoc kpiNominal); reflexivity |].
  split; [apply (Hdoc kpiReal); reflexivity |].
  split; [apply (Hdoc kpiContributed); reflexivity |].
  split; [apply (Hdoc kpiGrowth); reflexivity |].
  split.
  { destruct Htable as (Ht & _). rewrite Ht, Hone, Hs. reflexivity. }
  split.
  { destruct Hpager as (_ & _ & Hc & _). rewrite Hc, Hone. reflexivity. }
  split; [reflexivity |].
  split.
  { rewrite <- fields_after_clear. unfold createChart.
    destruct Chart_defined; cbn [negb]; cbv zeta;
      repeat match goal with
             | |- context [match ?x with Some _ => _ | None => _ end] => destruct x
             end; reflexivity. }
  destruct Hok as [_ [_ Hdata0]].
  unfold createChart. destruct Chart_defined; cbn [negb]; cbv zeta.
  - reflexivity.
  - change (chartInstance (state app) = None).
    destruct (chartInstance (state app)) as [chart |]; [| reflexivity].
    destruct (Hdata0 chart eq_refl) as [H _]. discriminate H.
Qed.

Lemma submit_accepted_outcome_witness :
  exists app' result,
    handleFormSubmit B64.reference_pow noText noText true (fun _ => None)
                     601 oneYearParams startApp = Some app' /\
    generateMonthlySeries (JS := B64.binary64 B64.reference_pow) 601 oneYearParams
    = Some result /\
    state_series (state app') = series result /\
    exportButton_disabled (document app') = false.
Proof.
  destruct (submit_accepted_outcome B64.reference_pow noText noText true (fun _ => None)
              601 oneYearParams startApp eq_refl ltac:(lia) (startApp_StateOK noText true))
    as (app' & result & H1 & H2 & H3 & _ & _ & _ & _ & _ & _ & H4 & _).
  exists app', result. split; [exact H1 |]. split; [exact H2 |]. split; [exact H3 | exact H4].
Defined.

Local Open Scope string_scope.

(** X17.  A submit that [validateInputs] rejects, whatever the state and
    the fuel: the handler returns without running the projection; no
    earlier result stays on the page (the series, the table and the chart
    are dropped, the four KPIs show a dash, the page text is the empty one,
    the page and export buttons are disabled) and an export then hands out
    no file; each field with an input and an [.error] element shows the
    message of its input's name if [validateInputs] set one, and nothing
    otherwise. *)
Theorem submit_rejected_outcome
    (pow : float -> float -> float)
    (Number_toString numberFormatter_format numberFormatterNoCurrency_format
       : float -> String.string)
    (Chart_defined : bool) (inherited : String.string -> option String.string)
    (fuel : nat) (values : Params float) (app : App) :
  let errors := validateInputs (JS := B64.binary64 pow) values in
  errors <> [] ->
  exists app',
    handleFormSubmit pow Number_toString numberFormatter_format Chart_defined inherited
                     fuel values app = Some app' /\
    state app' = mkState None [] 1 (rowsPerPage (state app)) /\
    document app'
    = mkDocument "—" "—" "—" "—" [] true true "Página 0 / 0" true
        (saveButton_text (document app)) (themeSwitch_checked (document app))
        (body_dark (document app))
        (map (fieldAfterSubmit inherited errors) (fields (document app))) /\
    handleExport Number_toString numberFormatterNoCurrency_format app' = app' /\
    (forall k : ErrorKey,
       inherited (errorName k) = None ->
       (In k errors -> errorText inherited errors (errorName k) = errorMessage k) /\
       (~ In k errors -> errorText inherited errors (errorName k) = ""%string)).
Proof.
  intros errors Hbad.
  eexists. split; [apply (submit_rejected _ _ _ _ _ _ _ _ Hbad) |].
  match goal with
  | |- context [clearResults ?a] =>
      destruct (clearResults_state a) as (Hst & _); pose proof (clearResults_document a) as Hdoc
  end.
  split; [exact Hst |]. split.
  - rewrite Hdoc. f_equal. apply (fields_after_clear_show inherited errors app Hbad).
  - split.
    + unfold handleExport. rewrite Hst. reflexivity.
    + intros k. apply errorText_named.
Qed.

Lemma submit_rejected_outcome_witness :
  exists app',
    handleFormSubmit B64.reference_pow noText noText true (fun _ => None)
                     0 zeroYearsParams tenYearsShown = Some app' /\
    state_series (state app') = [] /\
    fields (document app')
    = [mkField (Some "years"%string)
               (Some "La duración debe ser un entero entre 1 y 50."%string)].
Proof.
  destruct (submit_rejected_outcome B64.reference_pow noText noText noText true (fun _ => None)
              0 zeroYearsParams tenYearsShown ltac:(vm_compute; discriminate))
    as (app' & H1 & H2 & H3 & _).
  exists app'. split; [exact H1 |]. split.
  - rewrite H2. reflexivity.
  - rewrite H3. vm_compute. reflexivity.
Defined.

Local Close Scope string_scope.

(** X18.  The stored theme: after the theme switch is set to [checked],
    and whatever is then submitted, cleared, exported, saved or paged,
    [applyStoredTheme] restores exactly that choice, whatever the system
    prefers; with nothing stored it follows the system preference. *)
Theorem stored_theme_survives
    (pow : float -> float -> float)
    (Number_toString numberFormatter_format numberFormatterNoCurrency_format
       : float -> String.string)
    (Chart_defined : bool) (JSON_stringify : Params float -> String.string)
    (inherited : String.string -> option String.string) (prefersDark : bool) :
  (forall (fuel : nat) (checked : bool) (events : list Event) (app app' : App),
     handleAll pow Number_toString numberFormatter_format numberFormatterNoCurrency_format
               Chart_defined JSON_stringify inherited fuel (changeTheme checked :: events) app
     = Some app' ->
     forallb keepsTheme events = true ->
     body_dark (document (applyStoredTheme prefersDark app')) = checked /\
     themeSwitch_checked (document (applyStoredTheme prefersDark app')) = checked)
  /\
  (forall app : App,
     getItem (localStorage (environment app)) themeKey = None ->
     body_dark (document (applyStoredTheme prefersDark app)) = prefersDark /\
     themeSwitch_checked (document (applyStoredTheme prefersDark app)) = prefersDark).
Proof.
  split.
  - intros fuel checked events app app' H Hkeep.
    cbn [handleAll handle] in H.
    pose proof (handleAll_keeps_theme pow Number_toString numberFormatter_format
                  numberFormatterNoCurrency_format Chart_defined JSON_stringify inherited
                  fuel events _ _ H Hkeep) as Hstored.
    unfold handleThemeToggle in Hstored. cbv zeta in Hstored. ui_cbn.
    rewrite getItem_setItem, String.eqb_refl in Hstored.
    unfold applyStoredTheme. cbv zeta. rewrite Hstored. ui_cbn.
    destruct checked; split; reflexivity.
  - intros app Hnone. unfold applyStoredTheme. cbv zeta. rewrite Hnone. split; reflexivity.
Qed.

Lemma stored_theme_survives_witness :
  exists app',
    handleAll B64.reference_pow noText noText noText true (fun _ => ""%string) (fun _ => None)
              601 [changeTheme true; clickSave oneYearParams; clickClear] startApp
    = Some app' /\
    body_dark (document (applyStoredTheme false app')) = true.
Proof.
  destruct (handleEvents_stateOK B64.reference_pow noText noText noText true
              (fun _ => ""%string) (fun _ => None) 601
              [changeTheme true; clickSave oneYearParams; clickClear] ltac:(lia)
              startApp (startApp_StateOK noText true)) as (app' & H & _).
  exists app'. split; [exact H |].
  exact (proj1 (proj1 (stored_theme_survives B64.reference_pow noText noText noText true
                         (fun _ => ""%string) (fun _ => None) false)
                  601 true [clickSave oneYearParams; clickClear] startApp app' H eq_refl)).
Defined.



(** ** The program's quick tests

    The [console.assert] checks at the end of [app.js] and the scenarios of
    the specification, run in binary64.  The month counts and the
    contributed totals do not involve [Math.pow] and hold for any; the
    values that do are computed with [reference_pow]. *)

Lemma monthsAndTotal_any_pow (pow : float -> float -> float) (p : Params float) (y : Z) :
  (1 <= y <= 50)%Z ->
  years p = B64.float_of_Z y ->
  monthsAndTotal pow (S (Z.to_nat (12 * y))) p
  = Some (B64.float_of_Z (12 * y), Z.to_nat (12 * y),
          (initialCapital p + monthlyContribution p * B64.float_of_Z (12 * y))%float).
Proof.
  intros Hy Hyears. unfold monthsAndTotal.
  destruct (run_binary64 pow p y (S (Z.to_nat (12 * y))) Hy Hyears) as (HT & res & Hres & Hs);
    [lia |].
  rewrite Hres. cbn [option_map].
  destruct (generateMonthlySeries_inv _ _ _ Hres) as (ms & _ & _ & Hsum).
  rewrite Hs, Hsum. unfold seriesOfMonths. rewrite length_map, length_seq.
  cbn [totalMonths totalContributions summarize]. rewrite HT. reflexivity.
Qed.

(** Quick test "años = 1": one year gives totalMonths = 12, with 12
    entries and 2400 contributed, for any [Math.pow]. *)
Example quick_test_one_year (pow : float -> float -> float) :
  monthsAndTotal pow 13 oneYearParams = Some (12%float, 12%nat, 2400%float).
Proof. exact (monthsAndTotal_any_pow pow oneYearParams 1 ltac:(lia) eq_refl). Qed.

(** Quick test "años = 30": thirty years give totalMonths = 360, with
    360 entries and 19000 contributed, for any [Math.pow]. *)
Example quick_test_thirty_years (pow : float -> float -> float) :
  monthsAndTotal pow 361 thirtyYearsParams = Some (360%float, 360%nat, 19000%float).
Proof. exact (monthsAndTotal_any_pow pow thirtyYearsParams 30 ltac:(lia) eq_refl). Qed.

(** Quick test without monthly contributions: the contributed total is
    the initial capital, 5000, for any [Math.pow]. *)
Example quick_test_no_contribution (pow : float -> float -> float) :
  monthsAndTotal pow 121 noContributionParams = Some (120%float, 120%nat, 5000%float).
Proof. exact (monthsAndTotal_any_pow pow noContributionParams 10 ltac:(lia) eq_refl). Qed.

(** The one-year scenario: the first entry is month 1 with 200
    contributed, and the last is month 12 with 2400 contributed, for any
    [Math.pow]. *)
Example scenario_one_year (pow : float -> float -> float) :
  option_map
    (fun res => (map (fun e => (month e, totalContributed e)) (firstn 1 (series res)),
                 map (fun e => (month e, totalContributed e)) (skipn 11 (series res))))
    (generateMonthlySeries (JS := B64.binary64 pow) 13 oneYearParams)
  = Some ([(1%float, 200%float)], [(12%float, 2400%float)]).
Proof.
  destruct (run_one_year pow oneYearParams eq_refl) as (res & Hres & Hs).
  rewrite Hres. cbn [option_map]. rewrite Hs. reflexivity.
Qed.

(** Quick test "r_m = 0": the future value is 1000 + 100 * 24. *)
Example quick_test_zero_rate :
  option_map (fun res => futureValue (summary res))
    (generateMonthlySeries (JS := B64.binary64 B64.reference_pow) 25 zeroRateParams)
  = Some 3400%float.
Proof. vm_compute. reflexivity. Qed.

(** Quick test with high inflation: the real value is below the nominal. *)
Example quick_test_high_inflation :
  option_map (fun res => (futureValueReal (summary res) <? futureValue (summary res))%float)
    (generateMonthlySeries (JS := B64.binary64 B64.reference_pow) 61 highInflationParams)
  = Some true.
Proof. vm_compute. reflexivity. Qed.

(** [Math.round] rounds halves towards +Infinity. *)
Example round_half_up_examples :
  map B64.round_half_up [2.5; -2.5; 0.49999999999999994; 1.5; -0.5; 600; 4503599627370495.5]%float
  = [3; -2; 0; 2; -0; 600; 4503599627370496]%float.
Proof. vm_compute. reflexivity. Qed.
